(** * Nanos6 / ArgoDSM runtime: a shallow embedding of selected runtime paths

    The development embeds, function by function, the parts of the runtime
    that the stated properties talk about:

    - [CPUDependencyData::TaskAndRegion] (comparison operators);
    - [ExecutionWorkflow::ClusterDataLinkStep] ([linkRegion], [start]);
    - [ExecutionWorkflow::ClusterDataCopyStep::requiresDataFetch];
    - [ExecutionWorkflow::HostExecutionStep::start];
    - [nanos6_decrease_task_event_counter];
    - [DefaultCPUManagerImplementation::cpuBecomesIdle];
    - [MPIMessenger::checkMail];
    - [ClusterLocalityScheduler::getScheduledNode].

    Conventions.  Pointers are identifiers ([N]); a null pointer is [None].
    [size_t] values are integers with the 64-bit wrap-around written out
    ([size_t_wrap]).  A failed [assert] is the result [None].  Calls whose
    only role is their side effect are recorded, in program order, in a
    trace of effects carried by the state. *)

From Stdlib Require Import ZArith NArith Lia Bool List QArith.
From stdpp Require Import base option list.
Import ListNotations.

Local Open Scope Z_scope.

(** ** Common data *)

(** [size_t] arithmetic: results are reduced modulo 2^64. *)
Definition size_t_wrap (z : Z) : Z := z mod 2 ^ 64.

(** [assert(c)]: the computation goes on when [c] holds and has no result
    otherwise. *)
Definition assert {A : Type} (c : bool) (k : option A) : option A :=
  if c then k else None.

(** Opaque object identities (the source passes raw pointers). *)
Definition TaskPtr := N.
Definition WriteID := N.

Inductive nanos6_device_t :=
| nanos6_host_device
| nanos6_cluster_device.

Definition nanos6_device_t_eqb (a b : nanos6_device_t) : bool :=
  match a, b with
  | nanos6_host_device, nanos6_host_device => true
  | nanos6_cluster_device, nanos6_cluster_device => true
  | _, _ => false
  end.

(** A [MemoryPlace] as the modelled code observes it: [getType] and
    [getIndex]. *)
Record MemoryPlace := mkMemoryPlace {
  getType : nanos6_device_t;
  getIndex : Z
}.

Definition MemoryPlace_eqb (a b : MemoryPlace) : bool :=
  nanos6_device_t_eqb (getType a) (getType b) && (getIndex a =? getIndex b).

Module Region.

(** Modelled from the spec: [DataAccessRegion] (its header is not among
    the sources).  A region is the address range [[start, start+size)];
    the observers below are the ones the modelled code calls. *)
Record DataAccessRegion := mkRegion {
  getStartAddress : N;
  getSize : N
}.

Definition getEndAddress (r : DataAccessRegion) : N :=
  (getStartAddress r + getSize r)%N.

Definition eqb (a b : DataAccessRegion) : bool :=
  (getStartAddress a =? getStartAddress b)%N && (getSize a =? getSize b)%N.

Definition fullyContainedIn (a b : DataAccessRegion) : bool :=
  (getStartAddress b <=? getStartAddress a)%N
  && (getEndAddress a <=? getEndAddress b)%N.

Definition intersect (a b : DataAccessRegion) : DataAccessRegion :=
  let s := N.max (getStartAddress a) (getStartAddress b) in
  let e := N.min (getEndAddress a) (getEndAddress b) in
  mkRegion s (e - s)%N.

End Region.

Import Region.

(** ** CPUDependencyData::TaskAndRegion *)

Module TaskAndRegion.

Record t := mk {
  _task : TaskPtr;
  _region : DataAccessRegion
}.

(** [operator<] *)
Definition lt (a other : t) : bool :=
  if (_task a <? _task other)%N then true
  else if (_task other <? _task a)%N then false
  else (getStartAddress (_region a) <? getStartAddress (_region other))%N.

(** [operator>] *)
Definition gt (a other : t) : bool :=
  if (_task other <? _task a)%N then true
  else if (_task a <? _task other)%N then false
  else (getStartAddress (_region other) <? getStartAddress (_region a))%N.

(** [operator==] *)
Definition op_eq (a other : t) : bool :=
  (_task a =? _task other)%N && Region.eqb (_region a) (_region other).

(** [operator!=]: the body in the source is the same expression as that of
    [operator==]. *)
Definition op_ne (a other : t) : bool :=
  (_task a =? _task other)%N && Region.eqb (_region a) (_region other).

End TaskAndRegion.

(** ** ExecutionWorkflow::ClusterDataLinkStep *)

Module DataLink.

(** [TaskOffloading::SatisfiabilityInfo], built by [linkRegion] and by
    [start]. *)
Record SatisfiabilityInfo := mkSatInfo {
  sat_region : DataAccessRegion;
  sat_src : Z;
  sat_readSat : bool;
  sat_writeSat : bool;
  sat_writeID : WriteID;
  sat_namespacePredecessor : option TaskPtr
}.

(** The kind of a successor step, as far as the [dynamic_cast] in [start]
    can tell. *)
Inductive StepKind :=
| ClusterExecutionStepKind
| OtherStepKind.

(** Calls made for their effect, in program order. *)
Inductive Effect :=
| SendSatisfiability (task : TaskPtr) (remoteNode : Z) (satInfo : SatisfiabilityInfo)
| LogMessage (location : Z)
| AddDataLink (satInfo : SatisfiabilityInfo)
| ReleaseSuccessors
| DeleteThis.

(** The step object.  [_bytesToLink] is declared in the base class
    [DataLinkStep] (not among the sources); it is combined with [size_t]
    operands and is taken as a [size_t].  [remoteNode] is what
    [_task->getClusterContext()->getRemoteNode()] yields. *)
Record Step := mkStep {
  _sourceMemoryPlace : option MemoryPlace;
  _targetMemoryPlace : option MemoryPlace;
  _region : DataAccessRegion;
  _task : TaskPtr;
  _read : bool;
  _write : bool;
  _namespacePredecessor : option TaskPtr;
  _writeID : WriteID;
  _started : bool;
  _bytesToLink : Z;
  _successors : list StepKind;
  remoteNode : Z
}.

(** The step together with whether the object still exists and the
    effects performed so far. *)
Record World := mkWorld {
  step : Step;
  alive : bool;
  trace : list Effect
}.

Definition emit (e : Effect) (w : World) : World :=
  mkWorld (step w) (alive w) (trace w ++ [e]).

Definition set_bytesToLink (v : Z) (s : Step) : Step :=
  mkStep (_sourceMemoryPlace s) (_targetMemoryPlace s) (_region s) (_task s)
         (_read s) (_write s) (_namespacePredecessor s) (_writeID s)
         (_started s) v (_successors s) (remoteNode s).

Definition set_started (b : bool) (s : Step) : Step :=
  mkStep (_sourceMemoryPlace s) (_targetMemoryPlace s) (_region s) (_task s)
         (_read s) (_write s) (_namespacePredecessor s) (_writeID s)
         b (_bytesToLink s) (_successors s) (remoteNode s).

Definition update_step (f : Step -> Step) (w : World) : World :=
  mkWorld (f (step w)) (alive w) (trace w).

(** [delete this] *)
Definition delete_this (w : World) : World :=
  emit DeleteThis (mkWorld (step w) false (trace w)).

(** The location index computed at the top of [linkRegion]; [currentNode]
    is [ClusterManager::getCurrentMemoryNode()]. *)
Definition locationIndex (currentNode : MemoryPlace)
    (location : option MemoryPlace) (read write : bool) : option Z :=
  match location with
  | None =>
      assert write (assert (negb read) (Some (-1)))
  | Some l =>
      let l' := if nanos6_device_t_eqb (getType l) nanos6_cluster_device
                then l else currentNode in
      Some (getIndex l')
  end.

(** The block of [linkRegion] that runs under [_lock]; the result carries
    the local flag [deleteStep]. *)
Definition linkRegion_locked (currentNode : MemoryPlace) (w : World)
    (region : DataAccessRegion) (location : option MemoryPlace)
    (writeID : WriteID) (read write : bool) : option (World * bool) :=
  assert (bool_decide (is_Some (_targetMemoryPlace (step w))))
    (match locationIndex currentNode location read write with
     | None => None
     | Some idx =>
         let satInfo := mkSatInfo region idx read write writeID None in
         let w1 := emit (SendSatisfiability (_task (step w))
                           (remoteNode (step w)) satInfo) w in
         let linkedBytes := Z.of_N (getSize region) in
         let linkedBytes :=
           if read && write then size_t_wrap (linkedBytes * 2)
           else linkedBytes in
         let w2 := update_step
                     (fun s => set_bytesToLink
                                 (size_t_wrap (_bytesToLink s - linkedBytes)) s)
                     w1 in
         let deleteStep :=
           _started (step w2) && (_bytesToLink (step w2) =? 0) in
         Some (w2, deleteStep)
     end).

(** [ClusterDataLinkStep::linkRegion].  The body of the final
    [if (deleteStep)] holds only a comment: its [delete this] is commented
    out in the source, so both branches leave the step as it is. *)
Definition linkRegion (currentNode : MemoryPlace) (w : World)
    (region : DataAccessRegion) (location : option MemoryPlace)
    (writeID : WriteID) (read write : bool) : option World :=
  match linkRegion_locked currentNode w region location writeID read write with
  | None => None
  | Some (w', deleteStep) =>
      if deleteStep then Some w' else Some w'
  end.

(** The local [location] of [start]: the index of the source memory
    place when the access is read or write satisfied ([None] is the failed
    [assert] on a null source), and -1 otherwise. *)
Definition sourceLocation (s : Step) : option Z :=
  if _read s || _write s then
    match _sourceMemoryPlace s with
    | None => None
    | Some src => Some (getIndex src)
    end
  else Some (-1).

(** [ClusterDataLinkStep::start]. *)
Definition start (w : World) : option World :=
  let s := step w in
  assert (bool_decide (is_Some (_targetMemoryPlace s)))
    (match sourceLocation s with
     | None => None
     | Some location =>
         let w1 := emit (LogMessage location) w in
         assert (length (_successors s) =? 1)%nat
           (match _successors s with
            | ClusterExecutionStepKind :: _ =>
                let w2 := emit (AddDataLink
                                  (mkSatInfo (_region s) location
                                     (_read s) (_write s) (_writeID s)
                                     (_namespacePredecessor s))) w1 in
                let linkedBytes := Z.of_N (getSize (_region s)) in
                let '(w3, deleteStep) :=
                  if _read s && _write s then (w2, true)
                  else
                    (update_step
                       (fun s => set_started true
                                   (set_bytesToLink
                                      (size_t_wrap (_bytesToLink s - linkedBytes)) s))
                       w2, false) in
                let w4 := emit ReleaseSuccessors w3 in
                if deleteStep then Some (delete_this w4) else Some w4
            | _ => None
            end)
     end).

(** *** Predicates and sample data for the statements *)

(** The number of bytes a call of [linkRegion] accounts for. *)
Definition linked (region : DataAccessRegion) (read write : bool) : Z :=
  if read && write then 2 * Z.of_N (getSize region)
  else Z.of_N (getSize region).

(** The asserts of [linkRegion], as a condition on the call. *)
Definition linkRegion_asserts (w : World) (location : option MemoryPlace)
    (read write : bool) : Prop :=
  is_Some (_targetMemoryPlace (step w))
  /\ (location = None -> write = true /\ read = false).

(** A step offloaded with read satisfiability only, over 8 bytes: the
    count starts at twice the size of the region. *)
Definition node0 : MemoryPlace := mkMemoryPlace nanos6_cluster_device 0.
Definition node1 : MemoryPlace := mkMemoryPlace nanos6_cluster_device 1.

Definition sampleStep : Step :=
  mkStep (Some node0) (Some node1) (mkRegion 4096 8) 1%N true false None 5%N
         false 16 [ClusterExecutionStepKind] 1.

Definition sampleWorld : World := mkWorld sampleStep true [].

(** The sample world once [start] has run: [_started] is set and 8 bytes
    are left to link. *)
Definition startedWorld : World :=
  mkWorld (set_started true (set_bytesToLink 8 sampleStep)) true
    [LogMessage 0;
     AddDataLink (mkSatInfo (mkRegion 4096 8) 0 true false 5%N None);
     ReleaseSuccessors].

End DataLink.

(** ** ExecutionWorkflow::ClusterDataCopyStep::requiresDataFetch *)

Module DataCopy.

(** The completion callback that [requiresDataFetch] attaches to a pending
    transfer: when run it updates the location of the access, releases the
    successors of the step and deletes the step. *)
Record CompletionCallback := mkCallback {
  cb_task : TaskPtr;
  cb_region : DataAccessRegion;
  cb_target : MemoryPlace;
  cb_isTaskwait : bool
}.

(** A pending [DataTransfer] of the polling service queue. *)
Record DataTransfer := mkDataTransfer {
  getDataAccessRegion : DataAccessRegion;
  getTarget : MemoryPlace;
  callbacks : list CompletionCallback
}.

Definition addCompletionCallback (cb : CompletionCallback) (dt : DataTransfer)
  : DataTransfer :=
  mkDataTransfer (getDataAccessRegion dt) (getTarget dt) (callbacks dt ++ [cb]).

Inductive Effect :=
| UpdateTaskDataAccessLocation (task : TaskPtr) (region : DataAccessRegion)
    (target : MemoryPlace) (isTaskwait : bool)
| ReleaseSuccessors
| DeleteThis.

(** The fields of the step that [requiresDataFetch] reads. *)
Record Step := mkStep {
  _sourceMemoryPlace : MemoryPlace;
  _targetMemoryPlace : MemoryPlace;
  _fullRegion : DataAccessRegion;
  _task : TaskPtr;
  _writeID : WriteID;
  _isTaskwait : bool;
  _isWeak : bool;
  _needsTransfer : bool
}.

(** The step, whether it still exists, the effects so far, and the queue
    of pending data transfers. *)
Record World := mkWorld {
  step : Step;
  alive : bool;
  trace : list Effect;
  pending : list DataTransfer
}.

Definition emit (e : Effect) (w : World) : World :=
  mkWorld (step w) (alive w) (trace w ++ [e]) (pending w).

Definition delete_this (w : World) : World :=
  emit DeleteThis (mkWorld (step w) false (trace w) (pending w)).

(** What the function takes from its surroundings:
    [ClusterManager::getCurrentMemoryNode()] and
    [WriteIDManager::checkWriteIDLocal] (neither is among the sources). *)
Record Env := mkEnv {
  getCurrentMemoryNode : MemoryPlace;
  checkWriteIDLocal : WriteID -> DataAccessRegion -> bool
}.

(** The lambda handed to [checkPendingQueue]: [None] is its failed
    [assert]; otherwise the (possibly extended) transfer and the boolean it
    returns. *)
Definition pendingMatch (s : Step) (dtPending : DataTransfer)
  : option (DataTransfer * bool) :=
  let pendingRegion := getDataAccessRegion dtPending in
  let pendingTarget := getTarget dtPending in
  assert (nanos6_device_t_eqb (getType pendingTarget) nanos6_cluster_device)
    (if (getIndex pendingTarget =? getIndex (_targetMemoryPlace s))
        && fullyContainedIn (_fullRegion s) pendingRegion
     then
       Some (addCompletionCallback
               (mkCallback (_task s) (_fullRegion s) (_targetMemoryPlace s)
                  (_isTaskwait s))
               dtPending, true)
     else Some (dtPending, false)).

(** [PendingQueue<DataTransfer>::checkPendingQueue]: the lambda is called
    on the pending transfers in turn and the walk stops at the first one
    for which it returns true. *)
Fixpoint checkPendingQueue (f : DataTransfer -> option (DataTransfer * bool))
    (q : list DataTransfer) : option (list DataTransfer * bool) :=
  match q with
  | [] => Some ([], false)
  | dt :: rest =>
      match f dt with
      | None => None
      | Some (dt', true) => Some (dt' :: rest, true)
      | Some (dt', false) =>
          match checkPendingQueue f rest with
          | None => None
          | Some (rest', handled) => Some (dt' :: rest', handled)
          end
      end
  end.

(** [ClusterDataCopyStep::requiresDataFetch]. *)
Definition requiresDataFetch (env : Env) (w : World) : option (bool * World) :=
  let s := step w in
  assert (MemoryPlace_eqb (getCurrentMemoryNode env) (_targetMemoryPlace s))
  (assert (nanos6_device_t_eqb (getType (_sourceMemoryPlace s)) nanos6_cluster_device)
  (assert (nanos6_device_t_eqb (getType (_targetMemoryPlace s)) nanos6_cluster_device)
  (assert (negb (MemoryPlace_eqb (_sourceMemoryPlace s) (_targetMemoryPlace s)))
    (if negb (_needsTransfer s) then
       let w1 :=
         if negb (_isTaskwait s) && negb (_isWeak s) then
           emit (UpdateTaskDataAccessLocation (_task s) (_fullRegion s)
                   (_targetMemoryPlace s) (_isTaskwait s)) w
         else w in
       Some (false, delete_this (emit ReleaseSuccessors w1))
     else if checkWriteIDLocal env (_writeID s) (_fullRegion s) then
       Some (false, delete_this (emit ReleaseSuccessors w))
     else
       match checkPendingQueue (pendingMatch s) (pending w) with
       | None => None
       | Some (q', handled) =>
           Some (negb handled, mkWorld (step w) (alive w) (trace w) q')
       end)))).

(** *** Predicates and sample data for the statements *)

(** The four asserts at the top of [requiresDataFetch]. *)
Definition requiresDataFetch_asserts (env : Env) (s : Step) : bool :=
  MemoryPlace_eqb (getCurrentMemoryNode env) (_targetMemoryPlace s)
  && nanos6_device_t_eqb (getType (_sourceMemoryPlace s)) nanos6_cluster_device
  && nanos6_device_t_eqb (getType (_targetMemoryPlace s)) nanos6_cluster_device
  && negb (MemoryPlace_eqb (_sourceMemoryPlace s) (_targetMemoryPlace s)).

Definition here : MemoryPlace := mkMemoryPlace nanos6_cluster_device 1.
Definition there : MemoryPlace := mkMemoryPlace nanos6_cluster_device 0.

Definition sampleStep : Step :=
  mkStep there here (mkRegion 4096 64) 3%N 9%N false false true.

(** A pending transfer towards this node that covers the region of the
    sample step. *)
Definition samplePending : DataTransfer :=
  mkDataTransfer (mkRegion 4096 128) here [].

Definition sampleWorld : World := mkWorld sampleStep true [] [samplePending].

(** The local node holds write ID 9 for any region. *)
Definition holds9 : Env :=
  mkEnv here (fun id _ => (id =? 9)%N).

(** The local node holds no write ID. *)
Definition holdsNothing : Env :=
  mkEnv here (fun _ _ => false).

End DataCopy.

(** ** ExecutionWorkflow::HostExecutionStep::start *)

Module HostExecution.

Definition CPU := N.

(** [ReadyTaskHint]; the values that occur in the sources at hand are
    [NO_HINT], [UNBLOCKED_TASK_HINT] and [BUSY_COMPUTE_PLACE_TASK_HINT]. *)
Inductive ReadyTaskHint :=
| NO_HINT
| UNBLOCKED_TASK_HINT
| BUSY_COMPUTE_PLACE_TASK_HINT.

(** What [start] observes of the current [WorkerThread]. *)
Record WorkerThread := mkWorkerThread {
  thread_id : N;
  getComputePlace : option CPU;
  getTask : option TaskPtr
}.

(** What [start] observes of its task. *)
Record Task := mkTask {
  task_id : TaskPtr;
  hasCode : bool;
  isTaskforCollaborator : bool
}.

Inductive Effect :=
| SetExecutionStep (task : TaskPtr)
| EnterAddReadyTask (task : TaskPtr)
| InstanceAddReadyTask (task : TaskPtr) (computePlace : option CPU)
    (hint : ReadyTaskHint)
| ExitAddReadyTask
| SetThread (task : TaskPtr) (thread : N)
| GenerateTranslationTable (task : TaskPtr) (cpu : CPU)
| UpdateRuntimeCounters
| InstrumentStart (task : TaskPtr) (collaborator : bool)
| MonitoringStatusExecuting (task : TaskPtr)
| Body (task : TaskPtr)
| FreeTranslationTable
| UpdateTaskCounters (task : TaskPtr)
| MonitoringStatusPaused (task : TaskPtr)
| MonitoringCompletedUserCode (task : TaskPtr)
| InstrumentEnd (task : TaskPtr) (collaborator : bool)
| CombineTaskReductions (task : TaskPtr) (cpu : CPU)
| ReleaseSuccessors
| DeleteThis.

Record World := mkWorld {
  _task : Task;
  alive : bool;
  trace : list Effect
}.

Definition emits (es : list Effect) (w : World) : World :=
  mkWorld (_task w) (alive w) (trace w ++ es).

Definition delete_this (w : World) : World :=
  emits [DeleteThis] (mkWorld (_task w) false (trace w)).

(** [Scheduler::addReadyTask]: its [assert] and the two tracking points
    around the call into the scheduler instance.  Compute places handed to
    it here are host CPUs or null, so the [assert] holds. *)
Definition Scheduler_addReadyTask (task : TaskPtr) (computePlace : option CPU)
    (hint : ReadyTaskHint) (w : World) : World :=
  emits [EnterAddReadyTask task;
         InstanceAddReadyTask task computePlace hint;
         ExitAddReadyTask] w.

(** The local [cpu] of [start]. *)
Definition currentCPU (currentThread : option WorkerThread) : option CPU :=
  match currentThread with
  | None => None
  | Some t => getComputePlace t
  end.

(** The test at the top of [start]:
    [currentThread == nullptr || cpu == nullptr
     || currentThread->getTask() == nullptr]. *)
Definition outsideWorkerContext (currentThread : option WorkerThread) : bool :=
  match currentThread with
  | None => true
  | Some t =>
      bool_decide (currentCPU currentThread = None)
      || bool_decide (getTask t = None)
  end.

(** The path of [start] that hands the task back to the scheduler. *)
Definition requeue (w : World) : World :=
  let id := task_id (_task w) in
  Scheduler_addReadyTask id None BUSY_COMPUTE_PLACE_TASK_HINT
    (emits [SetExecutionStep id] w).

(** The path of [start] that runs the task on the current thread.
    [tableSize] is the size that [generateTranslationTable] reports;
    [cpuAfter] is the compute place of the thread once the body has
    returned (the thread may have migrated). *)
Definition runInline (thread : WorkerThread) (cpu : CPU) (tableSize : N)
    (cpuAfter : CPU) (w : World) : World :=
  let t := _task w in
  let id := task_id t in
  let w1 := emits [SetThread id (thread_id thread)] w in
  let '(w2, cpu') :=
    if hasCode t then
      (emits ([GenerateTranslationTable id cpu;
               UpdateRuntimeCounters;
               InstrumentStart id (isTaskforCollaborator t);
               MonitoringStatusExecuting id;
               Body id]
              ++ (if (0 <? tableSize)%N then [FreeTranslationTable] else [])
              ++ [UpdateTaskCounters id;
                  MonitoringStatusPaused id;
                  MonitoringCompletedUserCode id;
                  InstrumentEnd id (isTaskforCollaborator t)]) w1,
       cpuAfter)
    else
      (emits [MonitoringStatusPaused id;
              MonitoringCompletedUserCode id] w1, cpu) in
  delete_this
    (emits [CombineTaskReductions id cpu'; ReleaseSuccessors] w2).

(** [HostExecutionStep::start].  [currentThread] is
    [WorkerThread::getCurrentWorkerThread()]. *)
Definition start (currentThread : option WorkerThread) (tableSize : N)
    (cpuAfter : CPU) (w : World) : World :=
  if outsideWorkerContext currentThread then requeue w
  else
    match currentThread, currentCPU currentThread with
    | Some thread, Some cpu => runInline thread cpu tableSize cpuAfter w
    | _, _ => requeue w
    end.

(** *** Predicates and sample data for the statements *)

Definition sampleTask : Task := mkTask 4%N true false.
Definition sampleWorld : World := mkWorld sampleTask true [].

(** A worker thread that has a CPU but no task assigned. *)
Definition threadWithoutTask : WorkerThread := mkWorkerThread 2 (Some 0%N) None.

(** A worker thread with a CPU and a task. *)
Definition busyThread : WorkerThread := mkWorkerThread 2 (Some 0%N) (Some 4%N).

End HostExecution.

(** ** nanos6_decrease_task_event_counter *)

Module EventCounter.

Definition CPU := N.

(** Modelled from the spec: the two [Task] members the function calls
    ([Task.hpp] is not among the sources).  The release counter counts
    pending events and children; [released] is the flag that separates
    unregistration from disposal. *)
Record Task := mkTask {
  task_id : TaskPtr;
  releaseCount : Z;
  released : bool
}.

(** Modelled from the spec: [Task::decreaseReleaseCount] subtracts the
    amount and tells whether the counter reached zero. *)
Definition decreaseReleaseCount (amount : Z) (t : Task) : bool * Task :=
  let count := releaseCount t - amount in
  (count =? 0, mkTask (task_id t) count (released t)).

(** Modelled from the spec: [Task::markAsReleased] is a compare-and-swap of
    [released] from false to true and returns whether it succeeded. *)
Definition markAsReleased (t : Task) : bool * Task :=
  if released t then (false, t)
  else (true, mkTask (task_id t) (releaseCount t) true).

(** The [CPUDependencyData] handed to the unregistration. *)
Inductive DependencyData :=
| CPUDependencyDataOf (cpu : CPU)
| LocalDependencyData.

Inductive Effect :=
| UnregisterTaskDataAccesses (task : TaskPtr) (cpu : option CPU)
    (data : DependencyData)
| TaskFinished (task : TaskPtr) (cpu : option CPU)
| DisposeTask (task : TaskPtr).

(** The thread context of the call: the compute place of the current
    worker thread when there is one ([Some None] is a worker without a
    compute place), and the leader thread's. *)
Record Context := mkContext {
  currentWorkerThread : option (option CPU);
  isLeaderThread : bool;
  leaderComputePlace : option CPU
}.

(** What the two runtime calls between the decrement and the disposal do
    to the task object ([DataAccessRegistration] and [TaskFinalization]
    are not among the sources). *)
Record Runtime := mkRuntime {
  afterUnregister : Task -> Task;
  afterTaskFinished : Task -> Task
}.

Record World := mkWorld {
  task : Task;
  trace : list Effect
}.

(** The compute place selected for the unregistration; [None] is a failed
    [assert]. *)
Definition selectCPU (ctx : Context) : option (option CPU) :=
  match currentWorkerThread ctx with
  | Some cpu => assert (bool_decide (is_Some cpu)) (Some cpu)
  | None =>
      if isLeaderThread ctx then
        assert (bool_decide (is_Some (leaderComputePlace ctx)))
          (Some (leaderComputePlace ctx))
      else Some None
  end.

(** [nanos6_decrease_task_event_counter].  [event_counter] is the task the
    opaque pointer designates, [None] for a null pointer; the result
    [None] is a failed [assert]. *)
Definition nanos6_decrease_task_event_counter (rt : Runtime) (ctx : Context)
    (event_counter : option World) (decrement : Z) : option World :=
  match event_counter with
  | None => None
  | Some w =>
      if decrement =? 0 then Some w
      else
        let '(zero, t1) := decreaseReleaseCount decrement (task w) in
        if zero then
          match selectCPU ctx with
          | None => None
          | Some cpu =>
              let data :=
                match cpu with
                | Some c => CPUDependencyDataOf c
                | None => LocalDependencyData
                end in
              let id := task_id t1 in
              let tr1 := trace w ++ [UnregisterTaskDataAccesses id cpu data] in
              let t2 := afterUnregister rt t1 in
              let tr2 := tr1 ++ [TaskFinished id cpu] in
              let t3 := afterTaskFinished rt t2 in
              let '(ok, t4) := markAsReleased t3 in
              if ok then Some (mkWorld t4 (tr2 ++ [DisposeTask id]))
              else Some (mkWorld t4 tr2)
          end
        else Some (mkWorld t1 (trace w))
  end.

(** *** Predicates and sample data for the statements *)




(** No compute place: neither a worker thread nor the leader thread. *)
Definition externalThread : Context := mkContext None false None.

(** A worker thread on CPU 0. *)
Definition workerOnCPU0 : Context := mkContext (Some (Some 0%N)) false None.

(** A runtime whose two calls leave the counters of the task alone. *)
Definition quietRuntime : Runtime := mkRuntime (fun t => t) (fun t => t).

Definition lastEvent : World := mkWorld (mkTask 6%N 1 false) [].

End EventCounter.

(** ** DefaultCPUManagerImplementation::cpuBecomesIdle *)

Module IdleCPUs.

(** What [cpuBecomesIdle] observes of a [CPU]. *)
Record CPU := mkCPU {
  cpu_index : Z;
  getInstrumentationId : N
}.

Inductive Effect :=
| Lock
| Unlock
| HasAvailableWork (cpu : CPU) (answer : bool)
| MonitoringCpuBecomesIdle (index : Z)
| SuspendingComputePlace (id : N)
| SetIdleBit (index : Z)
| IncrementNumIdleCPUs.

(** The static members of the manager that the function touches:
    the bitmap [_idleCPUs], the count [_numIdleCPUs], the number of
    entries of [_cpus], and whether [_idleCPUsLock] is held. *)
Record State := mkState {
  _idleCPUs : list bool;
  _numIdleCPUs : Z;
  _cpus_size : Z;
  _idleCPUsLock : bool;
  trace : list Effect
}.

Definition emit (e : Effect) (st : State) : State :=
  mkState (_idleCPUs st) (_numIdleCPUs st) (_cpus_size st) (_idleCPUsLock st)
          (trace st ++ [e]).

(** [SpinLock::lock]: a sequential run that finds the lock held never
    proceeds, which is the result [None]. *)
Definition lock (st : State) : option State :=
  if _idleCPUsLock st then None
  else Some (emit Lock
               (mkState (_idleCPUs st) (_numIdleCPUs st) (_cpus_size st) true
                        (trace st))).

Definition unlock (st : State) : State :=
  emit Unlock
    (mkState (_idleCPUs st) (_numIdleCPUs st) (_cpus_size st) false (trace st)).

(** [_idleCPUs[index] = true]: a position outside the bitmap has no
    defined behaviour, which is the result [None]. *)
Definition setIdleBit (index : Z) (st : State) : option State :=
  if (0 <=? index) && (index <? Z.of_nat (length (_idleCPUs st))) then
    Some (emit (SetIdleBit index)
            (mkState (<[Z.to_nat index := true]> (_idleCPUs st))
                     (_numIdleCPUs st) (_cpus_size st) (_idleCPUsLock st)
                     (trace st)))
  else None.

(** [++_numIdleCPUs] *)
Definition incrementNumIdleCPUs (st : State) : State :=
  emit IncrementNumIdleCPUs
    (mkState (_idleCPUs st) (size_t_wrap (_numIdleCPUs st + 1)) (_cpus_size st)
             (_idleCPUsLock st) (trace st)).

(** [DefaultCPUManagerImplementation::cpuBecomesIdle].
    [hasAvailableWork] is [Scheduler::hasAvailableWork] on the scheduler
    as it stands when it is called. *)
Definition cpuBecomesIdle (hasAvailableWork : CPU -> bool) (cpu : option CPU)
    (st : State) : option (bool * State) :=
  match cpu with
  | None => None
  | Some cpu =>
      let index := cpu_index cpu in
      match lock st with
      | None => None
      | Some st1 =>
          let work := hasAvailableWork cpu in
          let st2 := emit (HasAvailableWork cpu work) st1 in
          if work then Some (false, unlock st2)
          else
            let st3 := emit (MonitoringCpuBecomesIdle index) st2 in
            let st4 := emit (SuspendingComputePlace (getInstrumentationId cpu)) st3 in
            match setIdleBit index st4 with
            | None => None
            | Some st5 =>
                let st6 := incrementNumIdleCPUs st5 in
                assert (_numIdleCPUs st6 <=? _cpus_size st6)
                  (Some (true, unlock st6))
            end
      end
  end.

(** *** Predicates and sample data for the statements *)

Definition cpu1 : CPU := mkCPU 1 11.

(** Four CPUs, CPU 3 idle already. *)
Definition sampleState : State := mkState [false; false; false; true] 1 4 false [].

End IdleCPUs.

(** ** MPIMessenger::checkMail *)

Module Messenger.

Record MPI_Status := mkStatus {
  MPI_SOURCE : Z;
  MPI_TAG : Z
}.

(** A message waiting on a communicator: its envelope and its bytes. *)
Record Incoming := mkIncoming {
  status : MPI_Status;
  bytes : list Z
}.

(** A [Message] object as the factory builds it from the type and the
    received [Deliverable]. *)
Record Message := mkMessage {
  msg_type : Z;
  deliverable : list Z
}.

Inductive Effect :=
| Iprobe
| Print
| GetCount (count : Z)
| Malloc (count : Z)
| Recv (source tag : Z)
| FactoryCreate (type : Z).

(** The messenger as the two functions see it: [DATA_RAW] (from
    [MessageType.hpp], not among the sources), the tag bound
    [_mpi_ub_tag], the waiting message that [MPI_Iprobe] with any source
    and any tag reports, and which of the library calls succeed.  A call
    that fails makes [MPIErrorHandler::handle] (or the [malloc] check) end
    the process. *)
Record Env := mkEnv {
  DATA_RAW : Z;
  _mpi_ub_tag : Z;
  iprobe : list Incoming -> option Incoming;
  iprobe_ok : bool;
  get_count_ok : bool;
  malloc_ok : bool;
  recv_ok : bool
}.

Inductive Outcome (A : Type) :=
| Returned (a : A) (mailbox : list Incoming) (trace : list Effect)
| Aborted.

Arguments Returned {A} a mailbox trace.
Arguments Aborted {A}.

(** [getTag]: the tag under which raw data of a message id travels. *)
Definition getTag (env : Env) (messageId : Z) : Z :=
  Z.land (_mpi_ub_tag env) (Z.lor (Z.shiftl messageId 8) (DATA_RAW env)).

(** [MPI_Recv] with a source and a tag: the first waiting message with
    that envelope is taken out of the mailbox. *)
Fixpoint receive (source tag : Z) (mailbox : list Incoming)
  : option (Incoming * list Incoming) :=
  match mailbox with
  | [] => None
  | m :: rest =>
      if (MPI_SOURCE (status m) =? source) && (MPI_TAG (status m) =? tag)
      then Some (m, rest)
      else
        match receive source tag rest with
        | None => None
        | Some (m', rest') => Some (m', m :: rest')
        end
  end.

(** [MPIMessenger::checkMail]; [mailbox] holds the messages waiting on
    [INTRA_COMM]. *)
Definition checkMail (env : Env) (mailbox : list Incoming)
  : Outcome (option Message) :=
  let tr := [Iprobe] in
  if negb (iprobe_ok env) then Aborted
  else
    match iprobe env mailbox with
    | None => Returned None mailbox tr
    | Some m =>
        let st := status m in
        let type := Z.land (MPI_TAG st) 255 in
        if type =? DATA_RAW env then Returned None mailbox (tr ++ [Print])
        else
          let count := Z.of_nat (length (bytes m)) in
          let tr := tr ++ [GetCount count] in
          if negb (get_count_ok env) then Aborted
          else
            let tr := tr ++ [Malloc count] in
            if negb (malloc_ok env) then Aborted
            else if count =? 0 then Aborted
            else
              let tr := tr ++ [Recv (MPI_SOURCE st) (MPI_TAG st)] in
              if negb (recv_ok env) then Aborted
              else
                match receive (MPI_SOURCE st) (MPI_TAG st) mailbox with
                | None => Aborted
                | Some (m', mailbox') =>
                    Returned (Some (mkMessage type (bytes m'))) mailbox'
                      (tr ++ [FactoryCreate type])
                end
    end.

(** The blocking path of [MPIMessenger::fetchData] on the communicator of
    raw data: it receives the message from [mpiSrc] whose tag is
    [getTag messageId], and waits (no result, [None]) while there is
    none. *)
Definition fetchData_blocking (env : Env) (mpiSrc messageId : Z)
    (mailbox : list Incoming) : option (list Z * list Incoming) :=
  match receive mpiSrc (getTag env messageId) mailbox with
  | None => None
  | Some (m, mailbox') => Some (bytes m, mailbox')
  end.

(** *** Predicates and sample data for the statements *)

(** The type byte of a tag. *)
Definition typeOf (tag : Z) : Z := Z.land tag 255.

(** Whether a trace holds a receive or a dispatch to the factory. *)
Definition receives (tr : list Effect) : Prop :=
  exists e, In e tr
            /\ match e with
               | Recv _ _ | FactoryCreate _ => True
               | _ => False
               end.

(** A messenger whose library calls succeed and whose probe reports the
    message that arrived first; [DATA_RAW] is given the value 14 and the
    tag bound lets every bit through. *)
Definition sampleEnv : Env := mkEnv 14 (2 ^ 31 - 1) head true true true true.

(** A raw-data stream of message id 3 from rank 1, ahead of an ordinary
    message of type 2. *)
Definition rawData : Incoming := mkIncoming (mkStatus 1 (3 * 256 + 14)) [1; 2; 3].
Definition ordinary : Incoming := mkIncoming (mkStatus 1 (4 * 256 + 2)) [2; 0; 0].

End Messenger.

(** ** ClusterLocalityScheduler::getScheduledNode *)

Module Locality.

(** The location of an access: the directory's memory place or an actual
    one ([Directory::isDirectoryMemoryPlace] tells them apart). *)
Inductive Location :=
| DirectoryMemoryPlace
| Place (m : MemoryPlace).

Definition isDirectoryMemoryPlace (l : Location) : bool :=
  match l with
  | DirectoryMemoryPlace => true
  | Place _ => false
  end.

(** What the scheduler reads of a [DataAccess]. *)
Record DataAccess := mkDataAccess {
  getLocation : option Location;
  isWeak : bool;
  getAccessRegion : DataAccessRegion
}.

(** An entry of the array that [Directory::find] returns. *)
Record HomeNodeEntry := mkHomeNodeEntry {
  entry_region : DataAccessRegion;
  getHomeNode : MemoryPlace
}.

(** What [getScheduledNode] takes from its surroundings; none of these is
    defined in the sources at hand.  [exceedsThreshold ft_bytes max_bytes]
    is the double-precision test [ft_bytes > locality_tuning * max_bytes];
    [getNextFtNode] advances the scheduler's round-robin state of type
    [FtState]. *)
Record Env := mkEnv {
  clusterSize : nat;
  isClusterMemory : DataAccessRegion -> bool;
  is_argo_address : N -> bool;
  get_block_size : N;
  get_homenode : N -> Z;
  Directory_find : DataAccessRegion -> list HomeNodeEntry;
  getNodeIdForLocation : Location -> nat;
  exceedsThreshold : Z -> Z -> bool;
  nanos6_cluster_no_offload : Z;
  FtState : Type;
  getNextFtNode : FtState -> nat * FtState
}.

(** Modelled from the spec: a round-robin [getNextFtNode] over the nodes
    of the cluster ([ClusterLocalityScheduler.hpp] is not among the
    sources): the state is a running count. *)
Definition roundRobin (nodes : nat) (next : nat) : nat * nat :=
  (next mod nodes, S next)%nat.

(** The exact-arithmetic reading of the threshold test for a rational
    tuning factor. *)
Definition exceedsExact (locality_tuning : Q) (ft_bytes max_bytes : Z) : bool :=
  negb (Qle_bool (inject_Z ft_bytes) (locality_tuning * inject_Z max_bytes)).

(** The variables the lambda captures by reference. *)
Record Counters := mkCounters {
  bytes : list Z;
  ft_bytes : Z;
  canBeOffloaded : bool
}.

(** [bytes[i] += n]; an index outside the vector has no defined
    behaviour, which is the result [None]. *)
Definition addBytes (i : nat) (n : Z) (c : Counters) : option Counters :=
  match bytes c !! i with
  | None => None
  | Some b =>
      Some (mkCounters (<[i := size_t_wrap (b + n)]> (bytes c)) (ft_bytes c)
              (canBeOffloaded c))
  end.

(** [ft_bytes += n] *)
Definition addFtBytes (n : Z) (c : Counters) : Counters :=
  mkCounters (bytes c) (size_t_wrap (ft_bytes c + n)) (canBeOffloaded c).

(** The loop over the blocks of an ArgoDSM range,
    [for (addr = startAddress; addr < endAddress; addr += block_size)].
    [fuel] bounds the number of iterations; running out of it (a zero
    block size) is the result [None]. *)
Fixpoint argoBlocks (env : Env) (fuel : nat) (addr endAddress : N)
    (c : Counters) : option Counters :=
  if (addr <? endAddress)%N then
    match fuel with
    | O => None
    | S fuel' =>
        let block_size := get_block_size env in
        let homenode := get_homenode env addr in
        let chunk :=
          Z.of_N (if (addr + block_size <? endAddress)%N then block_size
                  else (endAddress - addr)%N) in
        let c' :=
          if homenode <? 0 then Some (addFtBytes chunk c)
          else addBytes (Z.to_nat homenode) chunk c in
        match c' with
        | None => None
        | Some c' => argoBlocks env fuel' (addr + block_size)%N endAddress c'
        end
    end
  else Some c.

(** The accounting of one ArgoDSM range. *)
Definition argoRange (env : Env) (r : DataAccessRegion) (c : Counters)
  : option Counters :=
  let startAddress := getStartAddress r in
  let endAddress := (startAddress + getSize r)%N in
  argoBlocks env (N.to_nat (getSize r)) startAddress endAddress c.

(** The loop over the home-node entries of a region held by the
    directory. *)
Fixpoint homeNodesLoop (env : Env) (region : DataAccessRegion)
    (homeNodes : list HomeNodeEntry) (c : Counters) : option Counters :=
  match homeNodes with
  | [] => Some c
  | entry :: rest =>
      let subregion := intersect region (entry_region entry) in
      let c' :=
        if is_argo_address env (getStartAddress subregion) then
          argoRange env subregion c
        else
          let nodeId := getNodeIdForLocation env (Place (getHomeNode entry)) in
          addBytes nodeId (Z.of_N (getSize subregion)) c in
      match c' with
      | None => None
      | Some c' => homeNodesLoop env region rest c'
      end
  end.

(** The lambda of [getScheduledNode]: the counters after the access and
    the boolean it returns. *)
Definition accessLambda (env : Env) (access : DataAccess) (c : Counters)
  : option (Counters * bool) :=
  match
    match getLocation access with
    | None => assert (isWeak access) (Some DirectoryMemoryPlace)
    | Some l => Some l
    end
  with
  | None => None
  | Some location =>
      let region := getAccessRegion access in
      if negb (isClusterMemory env region)
         && negb (is_argo_address env (getStartAddress region))
      then Some (mkCounters (bytes c) (ft_bytes c) false, false)
      else
        let c' :=
          if isDirectoryMemoryPlace location then
            homeNodesLoop env region (Directory_find env region) c
          else if is_argo_address env (getStartAddress region) then
            argoRange env region c
          else
            addBytes (getNodeIdForLocation env location)
              (Z.of_N (getSize region)) c in
        match c' with
        | None => None
        | Some c' => Some (c', true)
        end
  end.

(** [DataAccessRegistration::processAllDataAccesses]: the lambda is
    applied to the accesses of the task in order, until it returns
    false. *)
Fixpoint processAllDataAccesses (env : Env) (accesses : list DataAccess)
    (c : Counters) : option Counters :=
  match accesses with
  | [] => Some c
  | access :: rest =>
      match accessLambda env access c with
      | None => None
      | Some (c', true) => processAllDataAccesses env rest c'
      | Some (c', false) => Some c'
      end
  end.

(** [std::max_element]: the position of the first largest element, kept
    in [best] while the scan is at position [i]. *)
Fixpoint max_element_from (best : nat) (bestValue : Z) (i : nat) (l : list Z)
  : nat :=
  match l with
  | [] => best
  | x :: rest =>
      if bestValue <? x then max_element_from i x (S i) rest
      else max_element_from best bestValue (S i) rest
  end.

Definition max_element (l : list Z) : option nat :=
  match l with
  | [] => None
  | x :: rest => Some (max_element_from 0%nat x 1%nat rest)
  end.

(** [std::adjacent_find(first, last, std::not_equal_to<>()) == last]:
    no two neighbours differ. *)
Fixpoint allEqual (l : list Z) : bool :=
  match l with
  | x :: ((y :: _) as rest) => (x =? y) && allEqual rest
  | _ => true
  end.

(** The counters at the start of [getScheduledNode]. *)
Definition initialCounters (env : Env) : Counters :=
  mkCounters (replicate (clusterSize env) 0) 0 true.

(** The counters once all accesses have been processed. *)
Definition touchedBytes (env : Env) (accesses : list DataAccess)
  : option Counters :=
  processAllDataAccesses env accesses (initialCounters env).

(** [ClusterLocalityScheduler::getScheduledNode]; [accesses] are the data
    accesses of the task and [s] the round-robin state. *)
Definition getScheduledNode (env : Env) (accesses : list DataAccess)
    (s : FtState env) : option (Z * FtState env) :=
  match touchedBytes env accesses with
  | None => None
  | Some c =>
      if negb (canBeOffloaded c) then Some (nanos6_cluster_no_offload env, s)
      else
        match max_element (bytes c) with
        | None => None
        | Some imax =>
            let max_bytes := default 0 (bytes c !! imax) in
            if exceedsThreshold env (ft_bytes c) max_bytes then
              let '(nodeId, s') := getNextFtNode env s in
              Some (Z.of_nat nodeId, s')
            else if allEqual (bytes c) then
              let '(nodeId, s') := getNextFtNode env s in
              Some (Z.of_nat nodeId, s')
            else
              Some (Z.of_nat imax, s)
        end
  end.

(** *** Predicates and sample data for the statements *)

(** [r] is the first position of [l] that holds its greatest value. *)
Definition firstMax (l : list Z) (r : nat) : Prop :=
  exists m,
    l !! r = Some m
    /\ (forall j v, l !! j = Some v -> v <= m)
    /\ (forall j v, (j < r)%nat -> l !! j = Some v -> v < m).

(** All the counts are the same. *)
Definition allSame (l : list Z) : Prop :=
  forall i j a b, l !! i = Some a -> l !! j = Some b -> a = b.

(** Node [K] alone holds the greatest count. *)
Definition uniqueMax (l : list Z) (K : nat) (m : Z) : Prop :=
  l !! K = Some m /\ forall j v, j <> K -> l !! j = Some v -> v < m.

(** At least two nodes hold the greatest count [m]. *)
Definition tiedMax (l : list Z) (m : Z) : Prop :=
  (forall j v, l !! j = Some v -> v <= m)
  /\ exists i j, i <> j /\ l !! i = Some m /\ l !! j = Some m.

(** A cluster of three nodes without ArgoDSM memory: every region is
    cluster memory, the node of a location is its index, the tuning factor
    is 1 and [getNextFtNode] goes round the three nodes. *)
Definition threeNodes : Env :=
  mkEnv 3
    (fun _ => true)
    (fun _ => false)
    4096
    (fun _ => -1)
    (fun _ => [])
    (fun l => match l with
              | DirectoryMemoryPlace => 0%nat
              | Place m => Z.to_nat (getIndex m)
              end)
    (exceedsExact 1)
    (-1)
    nat
    (roundRobin 3).

(** An access to [size] bytes at [start] that are held by node [node]. *)
Definition accessOn (node : Z) (start size : N) : DataAccess :=
  mkDataAccess (Some (Place (mkMemoryPlace nanos6_cluster_device node))) false
    (mkRegion start size).

(** Most bytes on node 2. *)
Definition mostOnNode2 : list DataAccess :=
  [accessOn 0 4096 16; accessOn 2 8192 64; accessOn 1 16384 32].

(** Nodes 0 and 1 tie for the greatest count; node 2 holds less. *)
Definition tieOnNodes01 : list DataAccess :=
  [accessOn 0 4096 5; accessOn 1 8192 5; accessOn 2 16384 3].

(** Every node holds the same count. *)
Definition sameOnAll : list DataAccess :=
  [accessOn 0 4096 8; accessOn 1 8192 8; accessOn 2 16384 8].

(** A cluster of two nodes whose memory from address 65536 on is ArgoDSM
    memory in blocks of 4096 bytes: the first two blocks are homed on
    nodes 0 and 1 and the blocks after them have not been touched yet.
    The directory splits any region at address 69632. *)
Definition argoCluster : Env :=
  mkEnv 2
    (fun _ => false)
    (fun a => (65536 <=? a)%N)
    4096
    (fun a => if (a <? 69632)%N then 0
              else if (a <? 73728)%N then 1
              else -1)
    (fun r => [mkHomeNodeEntry (mkRegion 0 69632)
                 (mkMemoryPlace nanos6_cluster_device 0);
               mkHomeNodeEntry (mkRegion 69632 1048576)
                 (mkMemoryPlace nanos6_cluster_device 1)])
    (fun l => match l with
              | DirectoryMemoryPlace => 0%nat
              | Place m => Z.to_nat (getIndex m)
              end)
    (exceedsExact 1)
    (-1)
    nat
    (roundRobin 2).

(** A weak access without a location over three and a half blocks, the
    last one and a half of them untouched. *)
Definition weakArgoAccess : DataAccess :=
  mkDataAccess None true (mkRegion 65536 14336).

(** An access to memory that is neither cluster nor ArgoDSM memory. *)
Definition hostAccess : DataAccess :=
  mkDataAccess (Some (Place (mkMemoryPlace nanos6_host_device 0))) false
    (mkRegion 4096 64).

(** What makes the accounting defined: a positive block size, home nodes
    and node ids within the cluster, and weak accesses wherever the
    location is missing. *)
Definition wellFormed (env : Env) (accesses : list DataAccess) : Prop :=
  (0 < get_block_size env)%N
  /\ (forall a, get_homenode env a < Z.of_nat (clusterSize env))
  /\ (forall l, (getNodeIdForLocation env l < clusterSize env)%nat)
  /\ Forall (fun access => getLocation access = None -> isWeak access = true)
       accesses.

End Locality.

(** ** DefaultCPUManagerImplementation: taking CPUs out of the idle set *)

Module IdlePool.
Import IdleCPUs.

(** An entry of [_cpus]: the CPU and its taskfor group. *)
Record Member := mkMember {
  member_cpu : CPU;
  getGroupId : N
}.

(** Calls to the instrumentation, the monitoring and the thread manager
    made by the functions of this section, in program order. *)
Inductive PoolEffect :=
| ResumedComputePlace (id : N)
| MonitoringCpuBecomesActive (index : Z)
| ResumeIdle (cpu : CPU).

(** [boost::dynamic_bitset<>::find_first]: the lowest position that is
    set, [None] for [npos]. *)
Fixpoint find_first (bits : list bool) : option nat :=
  match bits with
  | [] => None
  | b :: rest => if b then Some 0%nat else S <$> find_first rest
  end.

(** [boost::dynamic_bitset<>::find_next(pos)]: the lowest position above
    [pos] that is set. *)
Definition find_next (bits : list bool) (pos : nat) : option nat :=
  (fun k => (S pos + k)%nat) <$> find_first (drop (S pos) bits).

Definition set_idleCPUs (bits : list bool) (st : State) : State :=
  mkState bits (_numIdleCPUs st) (_cpus_size st) (_idleCPUsLock st) (trace st).

Definition set_numIdleCPUs (n : Z) (st : State) : State :=
  mkState (_idleCPUs st) n (_cpus_size st) (_idleCPUsLock st) (trace st).

(** [_cpus[id]] with its [assert]: [None] when the entry is null or the
    position lies outside the vector. *)
Definition cpuAt (cpus : list (option Member)) (id : nat) : option Member :=
  match cpus !! id with
  | Some (Some m) => Some m
  | _ => None
  end.

(** [DefaultCPUManagerImplementation::getIdleCPU]. *)
Definition getIdleCPU (cpus : list (option Member)) (st : State)
  : option (option Member * State * list PoolEffect) :=
  match lock st with
  | None => None
  | Some st1 =>
      match find_first (_idleCPUs st1) with
      | Some id =>
          match cpuAt cpus id with
          | None => None
          | Some m =>
              let eff := [ResumedComputePlace (getInstrumentationId (member_cpu m));
                          MonitoringCpuBecomesActive (Z.of_nat id)] in
              let st2 := set_idleCPUs (<[id := false]> (_idleCPUs st1)) st1 in
              assert (0 <? _numIdleCPUs st2)
                (let st3 := set_numIdleCPUs
                              (size_t_wrap (_numIdleCPUs st2 - 1)) st2 in
                 Some (Some m, unlock st3, eff))
          end
      | None => Some (None, unlock st1, [])
      end
  end.

(** The [while] loop of [getIdleCPUs]: [id] is the position under
    examination, [obtained] the CPUs placed in the output array so far.
    [fuel] bounds the number of iterations. *)
Fixpoint getIdleCPUs_loop (fuel : nat) (cpus : list (option Member))
    (numCPUs : Z) (id : option nat) (bits : list bool)
    (obtained : list Member) (eff : list PoolEffect)
  : option (list bool * list Member * list PoolEffect) :=
  match id with
  | Some i =>
      if Z.of_nat (length obtained) <? numCPUs then
        match fuel with
        | O => None
        | S fuel' =>
            match cpuAt cpus i with
            | None => None
            | Some m =>
                let eff' :=
                  eff ++ [ResumedComputePlace
                            (getInstrumentationId (member_cpu m));
                          MonitoringCpuBecomesActive (Z.of_nat i)] in
                let bits' := <[i := false]> bits in
                getIdleCPUs_loop fuel' cpus numCPUs (find_next bits' i) bits'
                  (obtained ++ [m]) eff'
            end
        end
      else Some (bits, obtained, eff)
  | None => Some (bits, obtained, eff)
  end.

(** [DefaultCPUManagerImplementation::getIdleCPUs]: the result holds the
    number of CPUs obtained and the CPUs written to [idleCPUs]. *)
Definition getIdleCPUs (cpus : list (option Member)) (numCPUs : Z) (st : State)
  : option (Z * list Member * State * list PoolEffect) :=
  match lock st with
  | None => None
  | Some st1 =>
      let bits := _idleCPUs st1 in
      match getIdleCPUs_loop (length bits) cpus numCPUs (find_first bits) bits
              [] [] with
      | None => None
      | Some (bits', obtained, eff) =>
          let numObtainedCPUs := Z.of_nat (length obtained) in
          let st2 := set_idleCPUs bits' st1 in
          assert (numObtainedCPUs <=? _numIdleCPUs st2)
            (let st3 := set_numIdleCPUs
                          (size_t_wrap (_numIdleCPUs st2 - numObtainedCPUs))
                          st2 in
             Some (numObtainedCPUs, obtained, unlock st3, eff))
      end
  end.

(** The [while] loop of [getIdleCollaborators]. *)
Fixpoint getIdleCollaborators_loop (fuel : nat) (cpus : list (option Member))
    (groupId : N) (id : option nat) (bits : list bool)
    (obtained : list Member) (eff : list PoolEffect)
  : option (list bool * list Member * list PoolEffect) :=
  match id with
  | Some i =>
      match fuel with
      | O => None
      | S fuel' =>
          match cpuAt cpus i with
          | None => None
          | Some collaborator =>
              if (groupId =? getGroupId collaborator)%N then
                let eff' :=
                  eff ++ [ResumedComputePlace
                            (getInstrumentationId (member_cpu collaborator));
                          MonitoringCpuBecomesActive (Z.of_nat i)] in
                let bits' := <[i := false]> bits in
                getIdleCollaborators_loop fuel' cpus groupId
                  (find_next bits' i) bits' (obtained ++ [collaborator]) eff'
              else
                getIdleCollaborators_loop fuel' cpus groupId
                  (find_next bits i) bits obtained eff
          end
      end
  | None => Some (bits, obtained, eff)
  end.

(** [DefaultCPUManagerImplementation::getIdleCollaborators]: [idleCPUs] is
    the vector the collaborators are pushed onto; the counter
    [numObtainedCollaborators], incremented at every push, is read off the
    growth of that vector. *)
Definition getIdleCollaborators (cpus : list (option Member))
    (idleCPUs : list Member) (cpu : option Member) (st : State)
  : option (list Member * State * list PoolEffect) :=
  match cpu with
  | None => None
  | Some cpu =>
      let groupId := getGroupId cpu in
      match lock st with
      | None => None
      | Some st1 =>
          let bits := _idleCPUs st1 in
          match getIdleCollaborators_loop (length bits) cpus groupId
                  (find_first bits) bits idleCPUs [] with
          | None => None
          | Some (bits', idleCPUs', eff) =>
              let numObtainedCollaborators :=
                Z.of_nat (length idleCPUs' - length idleCPUs) in
              let st2 := set_idleCPUs bits' st1 in
              assert (numObtainedCollaborators <=? _numIdleCPUs st2)
                (let st3 := set_numIdleCPUs
                              (size_t_wrap
                                 (_numIdleCPUs st2 - numObtainedCollaborators))
                              st2 in
                 Some (idleCPUs', unlock st3, eff))
          end
      end
  end.

(** [DefaultCPUManagerImplementation::forcefullyResumeCPU]. *)
Definition forcefullyResumeCPU (cpus : list (option Member))
    (systemCPUId : nat) (st : State) : option (State * list PoolEffect) :=
  match lock st with
  | None => None
  | Some st1 =>
      match _idleCPUs st1 !! systemCPUId with
      | None => None
      | Some true =>
          let st2 := set_idleCPUs (<[systemCPUId := false]> (_idleCPUs st1))
                       st1 in
          assert (0 <? _numIdleCPUs st2)
            (let st3 := set_numIdleCPUs
                          (size_t_wrap (_numIdleCPUs st2 - 1)) st2 in
             let st4 := unlock st3 in
             match cpuAt cpus systemCPUId with
             | None => None
             | Some m =>
                 Some (st4,
                       [MonitoringCpuBecomesActive (Z.of_nat systemCPUId);
                        ResumeIdle (member_cpu m)])
             end)
      | Some false => Some (unlock st1, [])
      end
  end.

(** *** Predicates and sample data for the statements *)

(** The number of positions of the bitmap that are set
    ([dynamic_bitset::count]). *)
Fixpoint popcount (bits : list bool) : nat :=
  match bits with
  | [] => 0%nat
  | b :: rest => ((if b then 1 else 0) + popcount rest)%nat
  end.

(** [_cpus] has an entry for every position of the bitmap. *)
Definition covers (cpus : list (option Member)) (bits : list bool) : Prop :=
  forall i, (i < length bits)%nat -> is_Some (cpuAt cpus i).

(** The count of idle CPUs agrees with the bitmap. *)
Definition consistent (st : State) : Prop :=
  _numIdleCPUs st = Z.of_nat (popcount (_idleCPUs st)).

(** Four CPUs in two taskfor groups. *)
Definition fourCPUs : list (option Member) :=
  [Some (mkMember (mkCPU 0 10) 0); Some (mkMember (mkCPU 1 11) 0);
   Some (mkMember (mkCPU 2 12) 1); Some (mkMember (mkCPU 3 13) 1)].

(** CPUs 1 and 3 idle. *)
Definition twoIdle : State := mkState [false; true; false; true] 2 4 false [].

(** No CPU idle. *)
Definition noneIdle : State := mkState [false; false; false; false] 0 4 false [].

End IdlePool.

(** ** MPIMessenger: sending messages and raw data *)

Module Transport.
Import Messenger.

(** Modelled from the spec: the header of a [Message::Deliverable]
    ([Message.hpp] is not among the sources) carries the type, the id and
    the size of the payload.  [object] holds the bytes of the deliverable,
    header first. *)
Record Deliverable := mkDeliverable {
  header_type : Z;
  header_id : Z;
  header_size : Z;
  object : list Z
}.

(** The sending rank: [_wrank], [_wsize], [sizeof(delv->header)], and
    whether [MPI_Send] / [MPI_Isend] and the allocation of the request
    succeed. *)
Record Sender := mkSender {
  _wrank : Z;
  _wsize : Z;
  sizeof_header : Z;
  send_ok : bool;
  alloc_ok : bool
}.

Inductive SendEffect :=
| ClusterSendMessage (mpiDst : Z)
| MarkAsCompleted
| SetMessengerData
| AddPending
| ClusterDataSend (size : Z) (mpiDst : Z) (messageId : Z)
| NewDataTransfer (mpiDst : Z) (messageId : Z).

(** [createTag]: the tag of a message, from its id and its type.  The
    mask by [_mpi_ub_tag], an [int], makes the width at which the shift is
    computed immaterial. *)
Definition createTag (env : Env) (delv : Deliverable) : Z :=
  Z.land (_mpi_ub_tag env)
    (Z.lor (Z.shiftl (header_id delv) 8) (header_type delv)).

(** A send, blocking or not, puts the bytes with their envelope behind
    the messages already waiting at the destination. *)
Definition deliver (source tag : Z) (data : list Z) (mailbox : list Incoming)
  : list Incoming :=
  mailbox ++ [mkIncoming (mkStatus source tag) data].

(** [MPIMessenger::sendMessage]; [mailbox] holds what waits on
    [INTRA_COMM] at rank [mpiDst].  The result [None] is a failed
    [assert] or a failure that ends the process. *)
Definition sendMessage (env : Env) (me : Sender) (delv : Deliverable)
    (mpiDst : Z) (block : bool) (mailbox : list Incoming)
  : option (list Incoming * list SendEffect) :=
  let msgSize := sizeof_header me + header_size delv in
  let tag := createTag env delv in
  assert ((mpiDst <? _wsize me) && negb (mpiDst =? _wrank me))
  (assert (negb (header_size delv =? 0))
    (let eff := [ClusterSendMessage mpiDst] in
     let data := take (Z.to_nat msgSize) (object delv) in
     if block then
       if send_ok me then
         Some (deliver (_wrank me) tag data mailbox,
               eff ++ [ClusterSendMessage (-1); MarkAsCompleted])
       else None
     else
       if alloc_ok me then
         if send_ok me then
           Some (deliver (_wrank me) tag data mailbox,
                 eff ++ [SetMessengerData; ClusterSendMessage (-1);
                         AddPending])
         else None
       else None)).


(** *** Predicates and sample data for the statements *)

(** The tag bound lets the type byte through. *)
Definition keepsTypeByte (env : Env) : Prop :=
  Z.land (_mpi_ub_tag env) 255 = 255.

(** All library calls of the receiving side succeed and the probe reports
    the message that arrived first. *)
Definition receiverOk (env : Env) : Prop :=
  iprobe env = head /\ iprobe_ok env = true /\ get_count_ok env = true
  /\ malloc_ok env = true /\ recv_ok env = true.

(** Rank 0 of two. *)
Definition rank0 : Sender := mkSender 0 2 9 true true.

(** A message of type 2 and id 5 with three bytes of payload. *)
Definition sampleDeliverable : Deliverable :=
  mkDeliverable 2 5 3 [2; 5; 0; 0; 0; 3; 0; 0; 0; 7; 8; 9].

(** The smallest tag bound that MPI allows. *)
Definition smallTags : Env := mkEnv 14 32767 head true true true true.

End Transport.

(** ** ExecutionWorkflow::ClusterDataCopyStep: fragments and completion *)

Module DataCopyFragments.
Import DataCopy.

(** [DataAccessRegion(start, end)], the region between two addresses. *)
Definition regionBetween (start endAddress : N) : DataAccessRegion :=
  mkRegion start (endAddress - start).

(** The loop of the constructor of [ClusterDataCopyStep],
    [for (i = 0; start < region.getEndAddress(); ++i)], which fills
    [_regionsFragments].  [maxSize] is
    [ClusterManager::getMessageMaxSize()] and [nFragments] what
    [ClusterManager::getMPIFragments(region)] returned (neither is among
    the sources).  [fuel] bounds the number of iterations; running out of
    it (a zero [maxSize]) and the failed [assert] are the result
    [None]. *)
Fixpoint fragmentLoop (fuel : nat) (maxSize nFragments i start endAddress : N)
    (_regionsFragments : list DataAccessRegion)
  : option (list DataAccessRegion) :=
  if (start <? endAddress)%N then
    match fuel with
    | O => None
    | S fuel' =>
        assert (i <? nFragments)%N
          (let tmp := (start + maxSize)%N in
           let e := if (tmp <? endAddress)%N then tmp else endAddress in
           fragmentLoop fuel' maxSize nFragments (i + 1) tmp endAddress
             (_regionsFragments ++ [regionBetween start e]))
    end
  else Some _regionsFragments.

(** The fragments that the constructor computes for a region. *)
Definition fragments (maxSize nFragments : N) (region : DataAccessRegion)
  : option (list DataAccessRegion) :=
  fragmentLoop (N.to_nat (getSize region)) maxSize nFragments 0
    (getStartAddress region) (getEndAddress region) [].

(** The step as [_postcallback] sees it: the fragments that are still
    awaited and the rest of the step. *)
Record FragmentedStep := mkFragmentedStep {
  _nFragments : Z;
  world : World
}.

(** [_postcallback], the lambda set up by the constructor and run at the
    completion of the transfer of a fragment. *)
Definition _postcallback (fs : FragmentedStep) : FragmentedStep :=
  let n := size_t_wrap (_nFragments fs - 1) in
  let w := world fs in
  let s := step w in
  if n =? 0 then
    mkFragmentedStep n
      (delete_this
         (emit ReleaseSuccessors
            (emit (UpdateTaskDataAccessLocation (_task s) (_fullRegion s)
                     (_targetMemoryPlace s) (_isTaskwait s)) w)))
  else mkFragmentedStep n w.

(** [k] completions in a row. *)
Fixpoint completions (k : nat) (fs : FragmentedStep) : FragmentedStep :=
  match k with
  | O => fs
  | S k' => completions k' (_postcallback fs)
  end.

(** *** ArgoAcquireStep::requiresDataFetch *)

(** The fields of [ArgoAcquireStep] beyond those it shares with
    [ClusterDataCopyStep]. *)
Record ArgoFlags := mkArgoFlags {
  _simpleDependencies : bool;
  _fullAcquire : bool;
  _fullAcquireDone : bool
}.

Inductive ArgoEffect :=
| Acquire
| SelectiveAcquire (start size : N)
| StepEffect (e : Effect).

Record ArgoWorld := mkArgoWorld {
  argo_step : Step;
  argo_flags : ArgoFlags;
  argo_alive : bool;
  argo_trace : list ArgoEffect
}.

Definition argo_emit (es : list ArgoEffect) (w : ArgoWorld) : ArgoWorld :=
  mkArgoWorld (argo_step w) (argo_flags w) (argo_alive w) (argo_trace w ++ es).

Definition argo_delete_this (w : ArgoWorld) : ArgoWorld :=
  argo_emit [StepEffect DeleteThis]
    (mkArgoWorld (argo_step w) (argo_flags w) false (argo_trace w)).

(** [ArgoAcquireStep::requiresDataFetch]. *)
Definition argo_requiresDataFetch (env : Env) (w : ArgoWorld)
  : option (bool * ArgoWorld) :=
  let s := argo_step w in
  let f := argo_flags w in
  let update :=
    StepEffect (UpdateTaskDataAccessLocation (_task s) (_fullRegion s)
                  (_targetMemoryPlace s) (_isTaskwait s)) in
  assert (MemoryPlace_eqb (getCurrentMemoryNode env) (_targetMemoryPlace s))
  (assert (nanos6_device_t_eqb (getType (_sourceMemoryPlace s)) nanos6_cluster_device)
  (assert (nanos6_device_t_eqb (getType (_targetMemoryPlace s)) nanos6_cluster_device)
  (assert (negb (MemoryPlace_eqb (_sourceMemoryPlace s) (_targetMemoryPlace s)))
    (if negb (_needsTransfer s) then
       let w1 :=
         if negb (_isTaskwait s) && negb (_isWeak s) then argo_emit [update] w
         else w in
       Some (false,
             argo_delete_this (argo_emit [StepEffect ReleaseSuccessors] w1))
     else if checkWriteIDLocal env (_writeID s) (_fullRegion s) then
       Some (false,
             argo_delete_this (argo_emit [StepEffect ReleaseSuccessors] w))
     else
       let w1 :=
         if (_simpleDependencies f || _fullAcquire f)
            && negb (_fullAcquireDone f) then
           argo_emit [Acquire]
             (mkArgoWorld s
                (mkArgoFlags (_simpleDependencies f) (_fullAcquire f) true)
                (argo_alive w) (argo_trace w))
         else
           argo_emit [SelectiveAcquire (getStartAddress (_fullRegion s))
                        (getSize (_fullRegion s))] w in
       Some (true,
             argo_delete_this
               (argo_emit [update; StepEffect ReleaseSuccessors] w1)))))).

(** *** Predicates and sample data for the statements *)

(** The fragments [frs] lie end to end from [s] to [e]: none is empty,
    none is longer than [maxSize], and all but the last are exactly
    [maxSize] long. *)
Fixpoint tiles (maxSize s : N) (frs : list DataAccessRegion) (e : N) : Prop :=
  match frs with
  | [] => s = e
  | r :: rest =>
      getStartAddress r = s
      /\ (0 < getSize r <= maxSize)%N
      /\ (rest <> [] -> getSize r = maxSize)
      /\ tiles maxSize (s + getSize r) rest e
  end.

(** The test of the lambda that [requiresDataFetch] hands to
    [checkPendingQueue]: same target index, and the region of the step
    fully inside the pending one. *)
Definition covered (s : Step) (dtPending : DataTransfer) : bool :=
  (getIndex (getTarget dtPending) =? getIndex (_targetMemoryPlace s))
  && fullyContainedIn (_fullRegion s) (getDataAccessRegion dtPending).

(** The target of a pending transfer is a cluster memory node. *)
Definition clusterTarget (dt : DataTransfer) : Prop :=
  getType (getTarget dt) = nanos6_cluster_device.

(** The callback that the step attaches. *)
Definition callbackOf (s : Step) : CompletionCallback :=
  mkCallback (_task s) (_fullRegion s) (_targetMemoryPlace s) (_isTaskwait s).

(** The sample step of [DataCopy] with three fragments awaited. *)
Definition threeAwaited : FragmentedStep := mkFragmentedStep 3 sampleWorld.

(** The sample step of [DataCopy] as an [ArgoAcquireStep] that takes full
    acquires. *)
Definition argoSample : ArgoWorld :=
  mkArgoWorld sampleStep (mkArgoFlags false true false) true [].

End DataCopyFragments.

(** ** The event counter API: increments and series of calls *)

Module EventCounterSeries.
Import EventCounter.

(** Modelled from the spec: [Task::increaseReleaseCount] adds the amount
    to the release counter ([Task.hpp] is not among the sources). *)
Definition increaseReleaseCount (amount : Z) (t : Task) : Task :=
  mkTask (task_id t) (releaseCount t + amount) (released t).

(** [nanos6_increase_current_task_event_counter]; the result [None] is
    the failed [assert] on a null pointer. *)
Definition nanos6_increase_current_task_event_counter
    (event_counter : option World) (increment : Z) : option World :=
  match event_counter with
  | None => None
  | Some w =>
      if increment =? 0 then Some w
      else Some (mkWorld (increaseReleaseCount increment (task w)) (trace w))
  end.

(** A call of the event counter API on a task. *)
Inductive Call :=
| Increase (increment : Z)
| Decrease (decrement : Z).

(** A series of calls on the same event counter, each from its own thread
    context. *)
Fixpoint calls (rt : Runtime) (cs : list (Context * Call)) (w : World)
  : option World :=
  match cs with
  | [] => Some w
  | (ctx, c) :: rest =>
      match
        match c with
        | Increase n => nanos6_increase_current_task_event_counter (Some w) n
        | Decrease n => nanos6_decrease_task_event_counter rt ctx (Some w) n
        end
      with
      | None => None
      | Some w' => calls rt rest w'
      end
  end.

(** *** Predicates and sample data for the statements *)

Definition isDispose (e : Effect) : bool :=
  match e with
  | DisposeTask _ => true
  | _ => false
  end.

Definition isUnregister (e : Effect) : bool :=
  match e with
  | UnregisterTaskDataAccesses _ _ _ => true
  | _ => false
  end.

(** How many effects of a list are of the given kind. *)
Definition countOf (kind : Effect -> bool) (es : list Effect) : nat :=
  length (List.filter kind es).

(** The runtime calls never clear the [released] flag of a task. *)
Definition keepsReleased (rt : Runtime) : Prop :=
  forall t,
    released t = true ->
    released (afterUnregister rt t) = true
    /\ released (afterTaskFinished rt t) = true.

(** The counter reaches zero, is raised again and reaches zero again. *)
Definition zeroTwice : list (Context * Call) :=
  [(externalThread, Decrease 1);
   (externalThread, Increase 2);
   (externalThread, Decrease 2)].

End EventCounterSeries.

(** ** ExecutionWorkflow::HostExecutionStep::start, on every path *)

Module HostExecutionPaths.
Import HostExecution.

(** The effect is the run of a task body. *)
Definition isBody (e : Effect) : bool :=
  match e with
  | Body _ => true
  | _ => false
  end.

End HostExecutionPaths.

(** ** ClusterLocalityScheduler::getScheduledNode: totals and pinned tasks *)

Module LocalityTotals.
Import Locality.

(** The sum of the counts of a vector. *)
Definition sumZ (l : list Z) : Z := fold_right Z.add 0 l.

(** All the bytes accounted for, homed or not, as a [size_t]. *)
Definition accounted (c : Counters) : Z :=
  size_t_wrap (sumZ (bytes c) + ft_bytes c).

(** The access lies in neither cluster nor ArgoDSM memory. *)
Definition outsideCluster (env : Env) (access : DataAccess) : Prop :=
  isClusterMemory env (getAccessRegion access) = false
  /\ is_argo_address env (getStartAddress (getAccessRegion access)) = false.

(** The location of the access is known and is not the directory. *)
Definition placed (access : DataAccess) : Prop :=
  exists m, getLocation access = Some (Place m).

(** The bytes of a list of accesses. *)
Definition totalSize (accesses : list DataAccess) : Z :=
  fold_right (fun a acc => Z.of_N (getSize (getAccessRegion a)) + acc) 0
    accesses.

(** Two ArgoDSM accesses with a known location: one block homed on node
    1, and one and a half blocks not touched yet. *)
Definition placedArgoAccesses : list DataAccess :=
  [mkDataAccess (Some (Place (mkMemoryPlace nanos6_cluster_device 0))) false
     (mkRegion 69632 4096);
   mkDataAccess (Some (Place (mkMemoryPlace nanos6_cluster_device 0))) false
     (mkRegion 73728 6144)].

(** A cluster of two nodes: cluster memory below address 65536, ArgoDSM
    memory from there up to 1048576 in blocks of 4096 bytes of which the
    first two are homed on nodes 0 and 1, an empty directory, and node ids
    that are the index of the location modulo 2. *)
Definition twoNodes : Env :=
  mkEnv 2
    (fun r => (getStartAddress r <? 65536)%N)
    (fun a => (65536 <=? a)%N && (a <? 1048576)%N)
    4096
    (fun a => if (a <? 69632)%N then 0
              else if (a <? 73728)%N then 1
              else -1)
    (fun _ => [])
    (fun l => match l with
              | DirectoryMemoryPlace => 0%nat
              | Place m => (Z.to_nat (getIndex m) mod 2)%nat
              end)
    (exceedsExact 1)
    (-1)
    nat
    (roundRobin 2).

(** An access to cluster memory on node 1 and an access to memory of the
    process that is shared with no node. *)
Definition withPrivateAccess : list DataAccess :=
  [accessOn 1 4096 64; accessOn 0 2097152 8].

End LocalityTotals.

(** ** ClusterDataLinkStep: series of calls *)

Module DataLinkSeries.
Import DataLink.

(** The arguments of a call of [linkRegion]. *)
Record LinkCall := mkLinkCall {
  call_region : DataAccessRegion;
  call_location : option MemoryPlace;
  call_writeID : WriteID;
  call_read : bool;
  call_write : bool
}.

(** A series of calls of [linkRegion] on the same step. *)
Fixpoint linkRegions (currentNode : MemoryPlace) (cs : list LinkCall)
    (w : World) : option World :=
  match cs with
  | [] => Some w
  | c :: rest =>
      match linkRegion currentNode w (call_region c) (call_location c)
              (call_writeID c) (call_read c) (call_write c) with
      | None => None
      | Some w' => linkRegions currentNode rest w'
      end
  end.

(** The bytes that a series of calls accounts for. *)
Definition linkedBy (cs : list LinkCall) : Z :=
  fold_right (fun c acc => linked (call_region c) (call_read c) (call_write c)
                           + acc) 0 cs.

(** Read satisfiability for the whole region of the sample step arrives
    twice, then write satisfiability. *)
Definition readTwice : list LinkCall :=
  [mkLinkCall (mkRegion 4096 8) (Some node0) 5%N true false;
   mkLinkCall (mkRegion 4096 8) (Some node0) 5%N true false;
   mkLinkCall (mkRegion 4096 8) None 5%N false true].

End DataLinkSeries.

(** ** DefaultCPUManagerImplementation::preinitialize: indices and groups *)

Module Preinitialize.

(** What [preinitialize] reads of a CPU of the host. *)
Record HostCPU := mkHostCPU {
  getSystemCPUId : nat
}.

(** [(unsigned int) ~0UL], the index given to a CPU outside the mask. *)
Definition noIndex : Z := 4294967295.

(** What the loop has written so far.  [fields] lists, for the CPUs
    visited and in the order of the visit, the index given by [setIndex]
    and the group given by [setGroupId] ([None] when it is not called).
    The counters are [size_t] values; with fewer than 2^64 CPUs none of
    the operations on them wraps around, and they are kept as natural
    numbers. *)
Record LoopState := mkLoopState {
  numCPUsPerTaskforGroup : nat;
  groupId : nat;
  virtualCPUId : nat;
  _cpus : list (option HostCPU);
  _systemToVirtualCPUId : list Z;
  fields : list (Z * option nat)
}.

(** The first loop: the greatest system id among the CPUs. *)
Fixpoint maxSystemCPUId (cpus : list HostCPU) (acc : nat) : nat :=
  match cpus with
  | [] => acc
  | cpu :: rest =>
      maxSystemCPUId rest
        (if (acc <? getSystemCPUId cpu)%nat then getSystemCPUId cpu else acc)
  end.

(** The body of the loop that initializes the fields of each CPU;
    [cpuMask] is [CPU_ISSET( . , &_cpuMask)] and [perGroup] is
    [numAvailableCPUs / getNumTaskforGroups()].  A write outside [_cpus]
    or [_systemToVirtualCPUId] is the result [None]. *)
Definition visit (cpuMask : nat -> bool) (perGroup : nat) (cpu : HostCPU)
    (st : LoopState) : option LoopState :=
  if cpuMask (getSystemCPUId cpu) then
    let '(counter, group) :=
      if (numCPUsPerTaskforGroup st =? 0)%nat
      then ((perGroup - 1)%nat, S (groupId st))
      else ((numCPUsPerTaskforGroup st - 1)%nat, groupId st) in
    let index := Z.of_nat (virtualCPUId st) in
    if (virtualCPUId st <? length (_cpus st))%nat
       && (getSystemCPUId cpu <? length (_systemToVirtualCPUId st))%nat
    then
      Some (mkLoopState counter group (S (virtualCPUId st))
              (<[virtualCPUId st := Some cpu]> (_cpus st))
              (<[getSystemCPUId cpu := index]> (_systemToVirtualCPUId st))
              (fields st ++ [(index, Some group)]))
    else None
  else
    if (getSystemCPUId cpu <? length (_systemToVirtualCPUId st))%nat then
      Some (mkLoopState (numCPUsPerTaskforGroup st) (groupId st)
              (virtualCPUId st) (_cpus st)
              (<[getSystemCPUId cpu := noIndex]> (_systemToVirtualCPUId st))
              (fields st ++ [(noIndex, None)]))
    else None.

Fixpoint visitAll (cpuMask : nat -> bool) (perGroup : nat)
    (cpus : list HostCPU) (st : LoopState) : option LoopState :=
  match cpus with
  | [] => Some st
  | cpu :: rest =>
      match visit cpuMask perGroup cpu st with
      | None => None
      | Some st' => visitAll cpuMask perGroup rest st'
      end
  end.

(** The part of [preinitialize] that sizes [_cpus] and
    [_systemToVirtualCPUId] and gives every CPU its index and its taskfor
    group.  [numAvailableCPUs] is [CPU_COUNT(&_cpuMask)] and
    [numTaskforGroups] what [getNumTaskforGroups()] returns once
    [refineTaskforGroups] has run.  The result [None] is a failed
    [assert], a division by zero or a write outside a vector. *)
Definition initializeCPUs (cpuMask : nat -> bool)
    (numAvailableCPUs numTaskforGroups : nat) (cpus : list HostCPU)
  : option LoopState :=
  let numSystemCPUs := S (maxSystemCPUId cpus 0) in
  if (numTaskforGroups =? 0)%nat then None
  else
    let perGroup := (numAvailableCPUs / numTaskforGroups)%nat in
    assert (0 <? perGroup)%nat
      (match visitAll cpuMask perGroup cpus
               (mkLoopState perGroup 0 0 (replicate numAvailableCPUs None)
                  (replicate numSystemCPUs 0) []) with
       | None => None
       | Some st =>
           assert (virtualCPUId st =? numAvailableCPUs)%nat (Some st)
       end).

(** *** Predicates and sample data for the statements *)

(** The CPUs of the list that are in the mask, in order. *)
Definition availableCPUs (cpuMask : nat -> bool) (cpus : list HostCPU)
  : list HostCPU :=
  List.filter (fun cpu => cpuMask (getSystemCPUId cpu)) cpus.

(** The fields one expects: the CPUs in the mask are numbered in order
    from [v] on and the CPU numbered [k] is in group [k / perGroup]; the
    others get [noIndex] and no group. *)
Fixpoint expectedFields (cpuMask : nat -> bool) (perGroup : nat)
    (cpus : list HostCPU) (v : nat) : list (Z * option nat) :=
  match cpus with
  | [] => []
  | cpu :: rest =>
      if cpuMask (getSystemCPUId cpu) then
        (Z.of_nat v, Some (v / perGroup)%nat)
          :: expectedFields cpuMask perGroup rest (S v)
      else (noIndex, None) :: expectedFields cpuMask perGroup rest v
  end.

(** The counter and the group before the CPU numbered [v] is visited. *)
Definition invariant (perGroup : nat) (st : LoopState) : Prop :=
  (virtualCPUId st = 0%nat /\ numCPUsPerTaskforGroup st = perGroup
   /\ groupId st = 0%nat)
  \/ (exists u, virtualCPUId st = S u
                /\ groupId st = (u / perGroup)%nat
                /\ numCPUsPerTaskforGroup st
                   = (perGroup - 1 - u mod perGroup)%nat).

(** Six CPUs with system ids 0 to 5, of which CPU 2 is outside the
    mask. *)
Definition sixCPUs : list HostCPU :=
  [mkHostCPU 0; mkHostCPU 1; mkHostCPU 2; mkHostCPU 3; mkHostCPU 4;
   mkHostCPU 5].

Definition allButCPU2 (systemCPUId : nat) : bool :=
  negb (systemCPUId =? 2)%nat.

End Preinitialize.

(** * Properties *)

(** ** CPUDependencyData::TaskAndRegion *)

Module TaskAndRegionProperties.
Import TaskAndRegion.

Lemma op_eq_refl (a : t) : op_eq a a = true.
Proof.
  unfold op_eq, Region.eqb.
  rewrite !N.eqb_refl. reflexivity.
Qed.

(** C10.  For all [a] and [b], [a != b] yields the same boolean as
    [a == b] (both compute the conjunction of the task and the region
    equalities), so [operator!=] is never the negation of [operator==]. *)
Theorem op_ne_is_op_eq (a b : t) :
  op_ne a b = op_eq a b /\ op_ne a b <> negb (op_eq a b).
Proof.
  split; [reflexivity|].
  unfold op_ne, op_eq.
  destruct (_ && _); intros H; discriminate H.
Qed.

(** On equal arguments [!=] answers true. *)
Example op_ne_on_equal_values :
  op_ne (mk 7%N (mkRegion 4096 64)) (mk 7%N (mkRegion 4096 64)) = true.
Proof. reflexivity. Qed.

(** On different arguments [!=] answers false. *)
Example op_ne_on_different_values :
  op_ne (mk 7%N (mkRegion 4096 64)) (mk 8%N (mkRegion 4096 64)) = false.
Proof. reflexivity. Qed.

End TaskAndRegionProperties.

(** ** ExecutionWorkflow::ClusterDataLinkStep *)

Module DataLinkProperties.
Import DataLink.

Lemma size_t_wrap_idem (z : Z) : size_t_wrap (size_t_wrap z) = size_t_wrap z.
Proof. unfold size_t_wrap. apply Z.mod_mod. lia. Qed.

Lemma size_t_wrap_small (z : Z) : 0 <= z < 2 ^ 64 -> size_t_wrap z = z.
Proof. intros H. unfold size_t_wrap. apply Z.mod_small. exact H. Qed.

Lemma size_t_wrap_minus_wrap (a b : Z) :
  size_t_wrap (a - size_t_wrap b) = size_t_wrap (a - b).
Proof. unfold size_t_wrap. apply Zminus_mod_idemp_r. Qed.

Lemma locationIndex_defined currentNode location read write :
  (location = None -> write = true /\ read = false) ->
  exists idx, locationIndex currentNode location read write = Some idx.
Proof.
  intros H. destruct location as [l|]; simpl.
  - eexists; reflexivity.
  - destruct (H eq_refl) as [-> ->]. simpl. eexists; reflexivity.
Qed.

(** What the locked block of [linkRegion] does to the world. *)
Lemma linkRegion_locked_spec currentNode w region location writeID read write :
  linkRegion_asserts w location read write ->
  exists idx w',
    locationIndex currentNode location read write = Some idx
    /\ linkRegion_locked currentNode w region location writeID read write
       = Some (w', _started (step w) && (_bytesToLink (step w') =? 0))
    /\ _bytesToLink (step w')
       = size_t_wrap (_bytesToLink (step w) - linked region read write)
    /\ _started (step w') = _started (step w)
    /\ alive w' = alive w
    /\ trace w'
       = trace w ++ [SendSatisfiability (_task (step w)) (remoteNode (step w))
                       (mkSatInfo region idx read write writeID None)].
Proof.
  intros [Htarget Hloc].
  destruct (locationIndex_defined currentNode location read write Hloc)
    as [idx Hidx].
  unfold linkRegion_locked.
  rewrite bool_decide_eq_true_2 by exact Htarget. simpl.
  rewrite Hidx.
  eexists idx, _. split; [reflexivity|].
  split; [apply f_equal; apply f_equal2; reflexivity|].
  simpl. repeat split.
  unfold linked. destruct (read && write).
  - rewrite size_t_wrap_minus_wrap. f_equal. lia.
  - reflexivity.
Qed.

Lemma linkRegion_of_locked currentNode w region location writeID read write w' d :
  linkRegion_locked currentNode w region location writeID read write = Some (w', d) ->
  linkRegion currentNode w region location writeID read write = Some w'.
Proof.
  intros H. unfold linkRegion. rewrite H. destruct d; reflexivity.
Qed.

Lemma linkRegion_inv currentNode w region location writeID read write w' :
  linkRegion currentNode w region location writeID read write = Some w' ->
  exists d,
    linkRegion_locked currentNode w region location writeID read write
    = Some (w', d).
Proof.
  unfold linkRegion.
  destruct (linkRegion_locked _ _ _ _ _ _ _) as [[w1 d]|]; [|discriminate].
  intros Heq. exists d.
  destruct d; injection Heq as <-; reflexivity.
Qed.

Lemma linkRegion_Some_asserts currentNode w region location writeID read write w' :
  linkRegion currentNode w region location writeID read write = Some w' ->
  linkRegion_asserts w location read write.
Proof.
  intros H. apply linkRegion_inv in H as [d H].
  unfold linkRegion_locked, assert in H.
  destruct (bool_decide (is_Some (_targetMemoryPlace (step w)))) eqn:Ht;
    [|discriminate].
  apply bool_decide_eq_true_1 in Ht.
  split; [exact Ht|].
  intros ->. simpl in H. unfold assert in H.
  destruct write; [|discriminate]. destruct read; [discriminate|].
  split; reflexivity.
Qed.

(** C9.  A call of [linkRegion] whose asserts hold returns, and the new
    [_bytesToLink] is the old one minus [2 * region.size] when both [read]
    and [write] are set and minus [region.size] otherwise, in [size_t]
    arithmetic; when the old count is a [size_t] at least as large as the
    amount, the difference is exact. *)
Theorem linkRegion_bytesToLink currentNode w region location writeID read write :
  linkRegion_asserts w location read write ->
  exists w',
    linkRegion currentNode w region location writeID read write = Some w'
    /\ _bytesToLink (step w')
       = size_t_wrap (_bytesToLink (step w)
                      - (if read && write then 2 * Z.of_N (getSize region)
                         else Z.of_N (getSize region)))
    /\ (linked region read write <= _bytesToLink (step w) < 2 ^ 64 ->
        _bytesToLink (step w')
        = _bytesToLink (step w) - linked region read write).
Proof.
  intros Hpre.
  destruct (linkRegion_locked_spec currentNode w region location writeID
              read write Hpre)
    as (idx & w' & _ & Hrun & Hbytes & _).
  exists w'. split; [eapply linkRegion_of_locked; exact Hrun|].
  split; [exact Hbytes|].
  intros Hrange. rewrite Hbytes. apply size_t_wrap_small.
  assert (0 <= linked region read write)
    by (unfold linked; destruct (read && write); lia).
  lia.
Qed.

Example start_sampleWorld : start sampleWorld = Some startedWorld.
Proof. reflexivity. Qed.

Lemma linkRegion_bytesToLink_witness :
  linkRegion_asserts startedWorld (Some node0) true true
  /\ exists w',
      linkRegion node0 startedWorld (mkRegion 4096 4) (Some node0) 5%N true true
      = Some w'
      /\ _bytesToLink (step w') = size_t_wrap (8 - 2 * 4)
      /\ (linked (mkRegion 4096 4) true true <= 8 < 2 ^ 64 ->
          _bytesToLink (step w') = 8 - linked (mkRegion 4096 4) true true).
Proof.
  assert (Hpre : linkRegion_asserts startedWorld (Some node0) true true).
  { split; [eexists; reflexivity | discriminate]. }
  split; [exact Hpre|].
  exact (linkRegion_bytesToLink node0 startedWorld (mkRegion 4096 4)
           (Some node0) 5%N true true Hpre).
Defined.

(** A call of [linkRegion] that returns sets its local flag [deleteStep]
    exactly when the step has started and the new [_bytesToLink] is zero,
    and does not delete the step whatever the flag: the step is as alive
    as before and the only effect of the call is the satisfiability
    message. *)
Lemma linkRegion_never_deletes currentNode w region location writeID read write w' :
  linkRegion currentNode w region location writeID read write = Some w' ->
  linkRegion_locked currentNode w region location writeID read write
  = Some (w', _started (step w) && (_bytesToLink (step w') =? 0))
  /\ alive w' = alive w
  /\ exists satInfo,
      trace w'
      = trace w ++ [SendSatisfiability (_task (step w)) (remoteNode (step w))
                      satInfo].
Proof.
  intros Hrun.
  pose proof (linkRegion_Some_asserts _ _ _ _ _ _ _ _ Hrun) as Hpre.
  destruct (linkRegion_locked_spec currentNode w region location writeID
              read write Hpre)
    as (idx & w1 & _ & Hlocked & _ & _ & Halive & Htrace).
  pose proof (linkRegion_of_locked _ _ _ _ _ _ _ _ _ Hlocked) as Hrun'.
  rewrite Hrun in Hrun'. injection Hrun' as ->.
  split; [exact Hlocked|]. split; [exact Halive|].
  eexists. exact Htrace.
Qed.

(** C1.  The code at a concrete input: in the sample world [start] runs
    without deleting the step and sets [_started]; the following call of
    [linkRegion] with write satisfiability for the whole region brings
    [_bytesToLink] to zero and raises the local flag [deleteStep], yet the
    step is still alive afterwards and no deletion is among the effects:
    the step is not deleted when the count reaches zero after it has
    started. *)
Theorem linkRegion_at_zero_leaves_step :
  start sampleWorld = Some startedWorld
  /\ alive startedWorld = true
  /\ _started (step startedWorld) = true
  /\ exists w',
      linkRegion node0 startedWorld (mkRegion 4096 8) (Some node0) 5%N
        false true
      = Some w'
      /\ linkRegion_locked node0 startedWorld (mkRegion 4096 8) (Some node0)
           5%N false true
         = Some (w', true)
      /\ _bytesToLink (step w') = 0
      /\ alive w' = true
      /\ ~ In DeleteThis (trace w').
Proof.
  split; [reflexivity|]. split; [reflexivity|]. split; [reflexivity|].
  eexists. split; [reflexivity|]. split; [reflexivity|].
  split; [reflexivity|]. split; [reflexivity|].
  simpl. intros H. repeat destruct H as [H | H]; try discriminate H.
  exact H.
Qed.

(** The step is never deleted by a call of [linkRegion] that brings the
    count to zero after [start]. *)
Lemma linkRegion_zero_after_start_alive currentNode w0 w region location
    writeID read write w' :
  start w0 = Some w -> alive w = true -> _started (step w) = true ->
  linkRegion currentNode w region location writeID read write = Some w' ->
  _bytesToLink (step w') = 0 ->
  alive w' = true.
Proof.
  intros _ Halive _ Hrun _.
  destruct (linkRegion_never_deletes _ _ _ _ _ _ _ _ Hrun) as (_ & Ha & _).
  congruence.
Qed.

(** [start] deletes the step exactly when the access was both read and
    write satisfied at offload; otherwise it sets [_started]. *)
Lemma start_deletes_iff w w' :
  start w = Some w' ->
  alive w = true ->
  (alive w' = false <-> _read (step w) && _write (step w) = true)
  /\ (_read (step w) && _write (step w) = false ->
      _started (step w') = true
      /\ _bytesToLink (step w')
         = size_t_wrap (_bytesToLink (step w)
                        - Z.of_N (getSize (_region (step w))))).
Proof.
  unfold start, assert. intros H Halive.
  destruct (bool_decide _); [|discriminate].
  destruct (sourceLocation (step w)) as [loc|]; [|discriminate].
  destruct (length (_successors (step w)) =? 1)%nat; [|discriminate].
  destruct (_successors (step w)) as [|[|] ?]; try discriminate.
  destruct (_read (step w) && _write (step w)) eqn:Hrw;
    injection H as <-; simpl.
  - split; [split; reflexivity | discriminate].
  - rewrite Halive. split; [split; discriminate|].
    intros _. split; reflexivity.
Qed.

End DataLinkProperties.

(** ** ExecutionWorkflow::ClusterDataCopyStep::requiresDataFetch *)

Module DataCopyProperties.
Import DataCopy.

Lemma requiresDataFetch_unfold env w :
  requiresDataFetch_asserts env (step w) = true ->
  requiresDataFetch env w
  = let s := step w in
    if negb (_needsTransfer s) then
      let w1 :=
        if negb (_isTaskwait s) && negb (_isWeak s) then
          emit (UpdateTaskDataAccessLocation (_task s) (_fullRegion s)
                  (_targetMemoryPlace s) (_isTaskwait s)) w
        else w in
      Some (false, delete_this (emit ReleaseSuccessors w1))
    else if checkWriteIDLocal env (_writeID s) (_fullRegion s) then
      Some (false, delete_this (emit ReleaseSuccessors w))
    else
      match checkPendingQueue (pendingMatch s) (pending w) with
      | None => None
      | Some (q', handled) =>
          Some (negb handled, mkWorld (step w) (alive w) (trace w) q')
      end.
Proof.
  unfold requiresDataFetch_asserts, requiresDataFetch, assert.
  intros H.
  apply andb_prop in H as [H H4].
  apply andb_prop in H as [H H3].
  apply andb_prop in H as [H1 H2].
  rewrite H1, H2, H3, H4. reflexivity.
Qed.

(** C6.  When the step needs a transfer and the local node already holds
    the write ID of the region, [requiresDataFetch] returns false (no
    fetch is to be issued), and all it does is release the successors of
    the step and delete the step: the queue of pending transfers is left
    as it was. *)
Theorem requiresDataFetch_writeID_local env w :
  requiresDataFetch_asserts env (step w) = true ->
  _needsTransfer (step w) = true ->
  checkWriteIDLocal env (_writeID (step w)) (_fullRegion (step w)) = true ->
  requiresDataFetch env w
  = Some (false,
          mkWorld (step w) false (trace w ++ [ReleaseSuccessors; DeleteThis])
                  (pending w)).
Proof.
  intros Hpre Hneeds Hlocal.
  rewrite requiresDataFetch_unfold by exact Hpre.
  simpl. rewrite Hneeds, Hlocal. simpl.
  unfold delete_this, emit. simpl.
  rewrite <- app_assoc. reflexivity.
Qed.

Lemma requiresDataFetch_writeID_local_witness :
  requiresDataFetch holds9 sampleWorld
  = Some (false,
          mkWorld sampleStep false [ReleaseSuccessors; DeleteThis]
                  [samplePending]).
Proof.
  exact (requiresDataFetch_writeID_local holds9 sampleWorld
           eq_refl eq_refl eq_refl).
Defined.

(** Without the write ID, the same step attaches itself to the pending
    transfer that covers its region. *)
Example requiresDataFetch_pending :
  requiresDataFetch holdsNothing sampleWorld
  = Some (false,
          mkWorld sampleStep true []
            [mkDataTransfer (mkRegion 4096 128) here
               [mkCallback 3%N (mkRegion 4096 64) here false]]).
Proof. reflexivity. Qed.

End DataCopyProperties.

(** ** ExecutionWorkflow::HostExecutionStep::start *)

Module HostExecutionProperties.
Import HostExecution.

(** The test of [start] in words: there is no current worker thread, or
    it has no CPU, or it has no task. *)
Lemma outsideWorkerContext_iff currentThread :
  outsideWorkerContext currentThread = true
  <-> currentThread = None
      \/ exists t, currentThread = Some t
                   /\ (getComputePlace t = None \/ getTask t = None).
Proof.
  unfold outsideWorkerContext, currentCPU.
  destruct currentThread as [t|].
  - rewrite orb_true_iff, !bool_decide_eq_true. split.
    + intros H. right. exists t. split; [reflexivity | exact H].
    + intros [H | (t' & [= <-] & H)]; [discriminate | exact H].
  - split; [left; reflexivity | reflexivity].
Qed.

(** C7.  When [start] is called with no current worker thread, or with
    one that has no CPU or no task, the step only records itself as the
    execution step of the task and adds the task to the scheduler with a
    null compute place and the busy-compute-place hint, and returns: the
    body of the task is not run and the step is not deleted. *)
Theorem start_outside_worker_requeues currentThread tableSize cpuAfter w :
  (currentThread = None
   \/ exists t, currentThread = Some t
                /\ (getComputePlace t = None \/ getTask t = None)) ->
  let id := task_id (_task w) in
  start currentThread tableSize cpuAfter w
  = mkWorld (_task w) (alive w)
      (trace w ++ [SetExecutionStep id;
                   EnterAddReadyTask id;
                   InstanceAddReadyTask id None BUSY_COMPUTE_PLACE_TASK_HINT;
                   ExitAddReadyTask]).
Proof.
  intros H id. apply outsideWorkerContext_iff in H.
  unfold start. rewrite H.
  unfold requeue, Scheduler_addReadyTask, emits. simpl.
  rewrite <- app_assoc. reflexivity.
Qed.

Lemma start_outside_worker_requeues_witness :
  start (Some threadWithoutTask) 0 1%N sampleWorld
  = mkWorld sampleTask true
      [SetExecutionStep 4%N;
       EnterAddReadyTask 4%N;
       InstanceAddReadyTask 4%N None BUSY_COMPUTE_PLACE_TASK_HINT;
       ExitAddReadyTask].
Proof.
  apply (start_outside_worker_requeues (Some threadWithoutTask) 0 1%N
           sampleWorld).
  right. exists threadWithoutTask. split; [reflexivity|].
  right. reflexivity.
Defined.

(** Inside a worker context the same step runs the body, releases its
    successors and deletes itself. *)
Example start_inside_worker :
  start (Some busyThread) 0 1%N sampleWorld
  = mkWorld sampleTask false
      [SetThread 4%N 2%N;
       GenerateTranslationTable 4%N 0%N;
       UpdateRuntimeCounters;
       InstrumentStart 4%N false;
       MonitoringStatusExecuting 4%N;
       Body 4%N;
       UpdateTaskCounters 4%N;
       MonitoringStatusPaused 4%N;
       MonitoringCompletedUserCode 4%N;
       InstrumentEnd 4%N false;
       CombineTaskReductions 4%N 1%N;
       ReleaseSuccessors;
       DeleteThis].
Proof. reflexivity. Qed.

End HostExecutionProperties.

(** ** nanos6_decrease_task_event_counter *)

Module EventCounterProperties.
Import EventCounter.

Lemma decreaseReleaseCount_zero amount t :
  fst (decreaseReleaseCount amount t) = true <-> releaseCount t - amount = 0.
Proof. unfold decreaseReleaseCount. simpl. apply Z.eqb_eq. Qed.

Lemma markAsReleased_succeeds t :
  fst (markAsReleased t) = true <-> released t = false.
Proof.
  unfold markAsReleased. destruct (released t); simpl; split; congruence.
Qed.

Lemma markAsReleased_sets t : released (snd (markAsReleased t)) = true.
Proof.
  unfold markAsReleased. destruct (released t) eqn:H; simpl; congruence.
Qed.



(** A task already marked as released is unregistered but not disposed. *)
Example release_without_dispose :
  nanos6_decrease_task_event_counter quietRuntime externalThread
    (Some (mkWorld (mkTask 6%N 2 true) [])) 2
  = Some (mkWorld (mkTask 6%N 0 true)
            [UnregisterTaskDataAccesses 6%N None LocalDependencyData;
             TaskFinished 6%N None]).
Proof. reflexivity. Qed.

(** A decrement that leaves events pending does nothing else. *)
Example decrement_not_last :
  nanos6_decrease_task_event_counter quietRuntime externalThread
    (Some (mkWorld (mkTask 6%N 3 false) [])) 2
  = Some (mkWorld (mkTask 6%N 1 false) []).
Proof. reflexivity. Qed.

End EventCounterProperties.

(** ** DefaultCPUManagerImplementation::cpuBecomesIdle *)

Module IdleCPUsProperties.
Import IdleCPUs.

Lemma size_t_wrap_succ (n bound : Z) :
  0 <= n -> n + 1 <= bound -> bound < 2 ^ 64 -> size_t_wrap (n + 1) = n + 1.
Proof.
  intros H0 H1 H2. unfold size_t_wrap. apply Z.mod_small. lia.
Qed.

(** C5.  Called with the lock free, [cpuBecomesIdle] asks
    [Scheduler::hasAvailableWork] after taking the idle-set lock and
    before releasing it.  When work is available it returns false with the
    bitmap and the count as they were.  Otherwise, between the same [Lock]
    and [Unlock], it sets the bit of the CPU in the bitmap and increments
    the count, and returns true. *)
Theorem cpuBecomesIdle_rechecks_under_lock hasAvailableWork cpu st :
  _idleCPUsLock st = false ->
  (hasAvailableWork cpu = true ->
   cpuBecomesIdle hasAvailableWork (Some cpu) st
   = Some (false,
           mkState (_idleCPUs st) (_numIdleCPUs st) (_cpus_size st) false
             (trace st ++ [Lock; HasAvailableWork cpu true; Unlock])))
  /\ (hasAvailableWork cpu = false ->
      0 <= cpu_index cpu < Z.of_nat (length (_idleCPUs st)) ->
      0 <= _numIdleCPUs st ->
      _numIdleCPUs st + 1 <= _cpus_size st < 2 ^ 64 ->
      cpuBecomesIdle hasAvailableWork (Some cpu) st
      = Some (true,
              mkState (<[Z.to_nat (cpu_index cpu) := true]> (_idleCPUs st))
                (_numIdleCPUs st + 1) (_cpus_size st) false
                (trace st ++ [Lock;
                              HasAvailableWork cpu false;
                              MonitoringCpuBecomesIdle (cpu_index cpu);
                              SuspendingComputePlace (getInstrumentationId cpu);
                              SetIdleBit (cpu_index cpu);
                              IncrementNumIdleCPUs;
                              Unlock]))).
Proof.
  intros Hfree. unfold cpuBecomesIdle, lock. rewrite Hfree. split.
  - intros ->. unfold unlock, emit. simpl.
    rewrite <- !app_assoc. reflexivity.
  - intros -> Hidx Hnum Hcount.
    unfold setIdleBit. simpl.
    replace ((0 <=? cpu_index cpu)
             && (cpu_index cpu <? Z.of_nat (length (_idleCPUs st))))
      with true
      by (symmetry; apply andb_true_intro; split;
          [apply Z.leb_le | apply Z.ltb_lt]; lia).
    unfold incrementNumIdleCPUs, unlock, emit, assert. simpl.
    rewrite (size_t_wrap_succ _ (_cpus_size st)) by lia.
    replace (_numIdleCPUs st + 1 <=? _cpus_size st) with true
      by (symmetry; apply Z.leb_le; lia).
    rewrite <- !app_assoc. reflexivity.
Qed.

Lemma cpuBecomesIdle_rechecks_under_lock_witness :
  (cpuBecomesIdle (fun _ => true) (Some cpu1) sampleState
   = Some (false,
           mkState [false; false; false; true] 1 4 false
             [Lock; HasAvailableWork cpu1 true; Unlock]))
  /\ (cpuBecomesIdle (fun _ => false) (Some cpu1) sampleState
      = Some (true,
              mkState [false; true; false; true] 2 4 false
                [Lock;
                 HasAvailableWork cpu1 false;
                 MonitoringCpuBecomesIdle 1;
                 SuspendingComputePlace 11;
                 SetIdleBit 1;
                 IncrementNumIdleCPUs;
                 Unlock])).
Proof.
  split.
  - apply (cpuBecomesIdle_rechecks_under_lock (fun _ => true) cpu1 sampleState
             eq_refl).
    reflexivity.
  - apply (cpuBecomesIdle_rechecks_under_lock (fun _ => false) cpu1 sampleState
             eq_refl); [reflexivity | simpl; lia | simpl; lia | simpl; lia].
Defined.

End IdleCPUsProperties.

(** ** MPIMessenger::checkMail *)

Module MessengerProperties.
Import Messenger.

Lemma receive_head m rest :
  receive (MPI_SOURCE (status m)) (MPI_TAG (status m)) (m :: rest)
  = Some (m, rest).
Proof. simpl. rewrite !Z.eqb_refl. reflexivity. Qed.

(** C8.  [checkMail] never returns a message of type [DATA_RAW]; when the
    probed message has [DATA_RAW] in the low byte of its tag, [checkMail]
    returns null, has neither received nor dispatched anything, and leaves
    the mailbox as it was (or the process was ended by a failed probe). *)
Theorem checkMail_skips_DATA_RAW env mailbox :
  (forall msg mailbox' tr,
     checkMail env mailbox = Returned (Some msg) mailbox' tr ->
     msg_type msg <> DATA_RAW env)
  /\ (forall m,
        iprobe env mailbox = Some m ->
        typeOf (MPI_TAG (status m)) = DATA_RAW env ->
        (iprobe_ok env = false /\ checkMail env mailbox = Aborted)
        \/ (iprobe_ok env = true
            /\ checkMail env mailbox = Returned None mailbox [Iprobe; Print]
            /\ ~ receives [Iprobe; Print])).
Proof.
  split.
  - intros msg mailbox' tr. unfold checkMail.
    destruct (iprobe_ok env); simpl; [|discriminate].
    destruct (iprobe env mailbox) as [m|]; [|discriminate].
    destruct (Z.land (MPI_TAG (status m)) 255 =? DATA_RAW env) eqn:Htype;
      [discriminate|].
    apply Z.eqb_neq in Htype.
    destruct (get_count_ok env); simpl; [|discriminate].
    destruct (malloc_ok env); simpl; [|discriminate].
    destruct (Z.of_nat (length (bytes m)) =? 0); [discriminate|].
    destruct (recv_ok env); simpl; [|discriminate].
    destruct (receive _ _ mailbox) as [[m' mb]|]; [|discriminate].
    intros [= <- _ _]. exact Htype.
  - intros m Hprobe Htype. unfold checkMail, typeOf in *.
    destruct (iprobe_ok env); simpl.
    + right. split; [reflexivity|].
      rewrite Hprobe, Htype, Z.eqb_refl.
      split; [reflexivity|].
      intros (e & [<- | [<- | []]] & He); exact He.
    + left. split; reflexivity.
Qed.

Example checkMail_raw_first :
  checkMail sampleEnv [rawData; ordinary]
  = Returned None [rawData; ordinary] [Iprobe; Print].
Proof. reflexivity. Qed.

Example checkMail_ordinary_first :
  checkMail sampleEnv [ordinary; rawData]
  = Returned (Some (mkMessage 2 [2; 0; 0])) [rawData]
      [Iprobe; GetCount 3; Malloc 3; Recv 1 1026; FactoryCreate 2].
Proof. reflexivity. Qed.

(** The stream that [checkMail] left in place is the one a blocking
    [fetchData] for its message id takes. *)
Example fetchData_takes_raw :
  fetchData_blocking sampleEnv 1 3 [rawData; ordinary]
  = Some ([1; 2; 3], [ordinary]).
Proof. reflexivity. Qed.

Lemma checkMail_skips_DATA_RAW_witness :
  typeOf (MPI_TAG (status rawData)) = DATA_RAW sampleEnv
  /\ checkMail sampleEnv [rawData; ordinary]
     = Returned None [rawData; ordinary] [Iprobe; Print].
Proof.
  split; [reflexivity|].
  destruct (checkMail_skips_DATA_RAW sampleEnv [rawData; ordinary]) as [_ H].
  destruct (H rawData eq_refl eq_refl)
    as [[Hf _] | (_ & Hr & _)]; [discriminate Hf | exact Hr].
Defined.

(** [fetchData] only matches tags made by [getTag]: when the tag bound
    lets the low byte through, their type byte is [DATA_RAW]. *)
Lemma getTag_type env messageId :
  Z.land (_mpi_ub_tag env) 255 = 255 ->
  0 <= DATA_RAW env < 256 ->
  typeOf (getTag env messageId) = DATA_RAW env.
Proof.
  intros Hub Hraw. unfold typeOf, getTag.
  rewrite (Z.land_comm (_mpi_ub_tag env)), <- Z.land_assoc, Hub.
  rewrite Z.land_lor_distr_l.
  change 255 with (Z.ones 8).
  rewrite !Z.land_ones by lia.
  rewrite Z.shiftl_mul_pow2 by lia.
  rewrite Z.mod_mul by lia.
  rewrite Z.lor_0_l. apply Z.mod_small. change (2 ^ 8) with 256. lia.
Qed.

End MessengerProperties.

(** ** ClusterLocalityScheduler::getScheduledNode *)

Module LocalityProperties.
Import Locality.

(** *** The vector of counts keeps its length *)

Lemma addBytes_length i n c c' :
  addBytes i n c = Some c' -> length (bytes c') = length (bytes c).
Proof.
  unfold addBytes. destruct (bytes c !! i); [|discriminate].
  intros [= <-]. simpl. apply length_insert.
Qed.

Lemma argoBlocks_length env fuel : forall addr endAddress c c',
  argoBlocks env fuel addr endAddress c = Some c' ->
  length (bytes c') = length (bytes c).
Proof.
  induction fuel as [|fuel IH]; intros addr endAddress c c'; simpl.
  - destruct (addr <? endAddress)%N; [discriminate|]. intros [= <-]. reflexivity.
  - destruct (addr <? endAddress)%N; [|intros [= <-]; reflexivity].
    destruct (get_homenode env addr <? 0).
    + intros H. apply IH in H. exact H.
    + destruct (addBytes _ _ c) as [c1|] eqn:Hadd; [|discriminate].
      intros H. apply IH in H. rewrite H.
      eapply addBytes_length. exact Hadd.
Qed.

Lemma argoRange_length env r c c' :
  argoRange env r c = Some c' -> length (bytes c') = length (bytes c).
Proof. unfold argoRange. apply argoBlocks_length. Qed.

Lemma homeNodesLoop_length env region homeNodes : forall c c',
  homeNodesLoop env region homeNodes c = Some c' ->
  length (bytes c') = length (bytes c).
Proof.
  induction homeNodes as [|entry rest IH]; intros c c'; simpl.
  - intros [= <-]. reflexivity.
  - destruct (is_argo_address env _).
    + destruct (argoRange env _ c) as [c1|] eqn:H1; [|discriminate].
      intros H. apply IH in H. rewrite H. eapply argoRange_length. exact H1.
    + destruct (addBytes _ _ c) as [c1|] eqn:H1; [|discriminate].
      intros H. apply IH in H. rewrite H. eapply addBytes_length. exact H1.
Qed.

Lemma accessLambda_length env access c c' b :
  accessLambda env access c = Some (c', b) ->
  length (bytes c') = length (bytes c).
Proof.
  unfold accessLambda.
  destruct (match getLocation access with
            | Some l => Some l
            | None => assert (isWeak access) (Some DirectoryMemoryPlace)
            end) as [location|]; [|discriminate].
  destruct (negb _ && negb _).
  - intros [= <- _]. reflexivity.
  - destruct (isDirectoryMemoryPlace location).
    + destruct (homeNodesLoop _ _ _ c) as [c1|] eqn:H1; [|discriminate].
      intros [= <- _]. eapply homeNodesLoop_length. exact H1.
    + destruct (is_argo_address env _).
      * destruct (argoRange env _ c) as [c1|] eqn:H1; [|discriminate].
        intros [= <- _]. eapply argoRange_length. exact H1.
      * destruct (addBytes _ _ c) as [c1|] eqn:H1; [|discriminate].
        intros [= <- _]. eapply addBytes_length. exact H1.
Qed.

Lemma processAllDataAccesses_length env accesses : forall c c',
  processAllDataAccesses env accesses c = Some c' ->
  length (bytes c') = length (bytes c).
Proof.
  induction accesses as [|access rest IH]; intros c c'; simpl.
  - intros [= <-]. reflexivity.
  - destruct (accessLambda env access c) as [[c1 b]|] eqn:H1; [|discriminate].
    apply accessLambda_length in H1.
    destruct b.
    + intros H. apply IH in H. congruence.
    + intros [= <-]. exact H1.
Qed.

Lemma touchedBytes_length env accesses c :
  touchedBytes env accesses = Some c ->
  length (bytes c) = clusterSize env.
Proof.
  unfold touchedBytes. intros H.
  apply processAllDataAccesses_length in H. rewrite H.
  simpl. apply length_replicate.
Qed.

(** *** The block loop finishes *)

Lemma argoBlocks_defined env fuel : forall addr endAddress c,
  (0 < get_block_size env)%N ->
  (forall a, get_homenode env a < Z.of_nat (length (bytes c))) ->
  (N.to_nat (endAddress - addr) <= fuel)%nat ->
  is_Some (argoBlocks env fuel addr endAddress c).
Proof.
  induction fuel as [|fuel IH]; intros addr endAddress c Hbs Hhome Hfuel; simpl.
  - destruct (addr <? endAddress)%N eqn:Hlt; [|eexists; reflexivity].
    apply N.ltb_lt in Hlt. lia.
  - destruct (addr <? endAddress)%N eqn:Hlt; [|eexists; reflexivity].
    apply N.ltb_lt in Hlt.
    destruct (get_homenode env addr <? 0) eqn:Hneg.
    + apply IH; [exact Hbs | exact Hhome | lia].
    + apply Z.ltb_ge in Hneg.
      unfold addBytes.
      destruct (bytes c !! Z.to_nat (get_homenode env addr)) as [b|] eqn:Hb.
      * apply IH; [exact Hbs | | lia].
        simpl. rewrite length_insert. exact Hhome.
      * apply lookup_ge_None in Hb. specialize (Hhome addr). lia.
Qed.

(** *** [std::max_element] and [std::adjacent_find] *)

Lemma max_element_from_firstMax l : forall pre best bestValue,
  pre !! best = Some bestValue ->
  (forall j v, pre !! j = Some v -> v <= bestValue) ->
  (forall j v, (j < best)%nat -> pre !! j = Some v -> v < bestValue) ->
  firstMax (pre ++ l) (max_element_from best bestValue (length pre) l).
Proof.
  induction l as [|x rest IH]; intros pre best bv Hbest Hle Hlt; simpl.
  - rewrite app_nil_r. exists bv. auto.
  - replace (pre ++ x :: rest) with ((pre ++ [x]) ++ rest)
      by (rewrite <- app_assoc; reflexivity).
    replace (S (length pre)) with (length (pre ++ [x]))
      by (rewrite length_app; simpl; lia).
    destruct (bv <? x) eqn:Hcmp.
    + apply Z.ltb_lt in Hcmp. apply IH.
      * rewrite lookup_app_r by lia. rewrite Nat.sub_diag. reflexivity.
      * intros j v Hj. apply lookup_app_Some in Hj as [Hj | [_ Hj]].
        -- apply Hle in Hj. lia.
        -- destruct (j - length pre)%nat; simpl in Hj; [|discriminate].
           injection Hj as <-. lia.
      * intros j v Hjl Hj. rewrite lookup_app_l in Hj by exact Hjl.
        apply Hle in Hj. lia.
    + apply Z.ltb_ge in Hcmp. apply IH.
      * rewrite lookup_app_l by (eapply lookup_lt_Some; exact Hbest).
        exact Hbest.
      * intros j v Hj. apply lookup_app_Some in Hj as [Hj | [_ Hj]].
        -- eapply Hle. exact Hj.
        -- destruct (j - length pre)%nat; simpl in Hj; [|discriminate].
           injection Hj as <-. lia.
      * intros j v Hjl Hj.
        assert (best < length pre)%nat by (eapply lookup_lt_Some; exact Hbest).
        rewrite lookup_app_l in Hj by lia.
        eapply Hlt; [exact Hjl | exact Hj].
Qed.

Lemma max_element_firstMax l r :
  max_element l = Some r -> firstMax l r.
Proof.
  destruct l as [|x rest]; [discriminate|]. simpl. intros [= <-].
  apply (max_element_from_firstMax rest [x] 0%nat x).
  - reflexivity.
  - intros [|j] v Hj; simpl in Hj; [|discriminate]. injection Hj as <-. lia.
  - intros j v Hj. lia.
Qed.

Lemma max_element_defined l :
  (0 < length l)%nat -> exists r, max_element l = Some r.
Proof.
  destruct l; simpl; [lia|]. intros _. eexists. reflexivity.
Qed.

Lemma allEqual_cons x l :
  allEqual (x :: l) = true <-> Forall (eq x) l.
Proof.
  revert x. induction l as [|y rest IH]; intros x.
  - simpl. split; [constructor | reflexivity].
  - change (allEqual (x :: y :: rest))
      with ((x =? y) && allEqual (y :: rest)).
    rewrite andb_true_iff, Z.eqb_eq, IH, Forall_cons. split.
    + intros [-> H]. split; [reflexivity | exact H].
    + intros [-> H]. split; [reflexivity | exact H].
Qed.

Lemma allEqual_allSame l : allEqual l = true <-> allSame l.
Proof.
  destruct l as [|x rest].
  - split; [|reflexivity]. intros _ i j a b H. discriminate H.
  - rewrite allEqual_cons, Forall_lookup. unfold allSame. split.
    + intros H i j a b Hi Hj.
      assert (Hx : forall k v, (x :: rest) !! k = Some v -> v = x).
      { intros [|k] v Hk; simpl in Hk.
        - congruence.
        - symmetry. eapply H. exact Hk. }
      rewrite (Hx _ _ Hi), (Hx _ _ Hj). reflexivity.
    + intros H k v Hk. apply (H 0%nat (S k)); [reflexivity | exact Hk].
Qed.

(** *** The node that is chosen *)

Lemma firstMax_uniqueMax l r K m :
  firstMax l r -> uniqueMax l K m -> r = K /\ l !! r = Some m.
Proof.
  intros (m' & Hr & Hle & _) [HK Hlt].
  destruct (decide (r = K)) as [->|Hne]; [split; [reflexivity | exact HK]|].
  specialize (Hlt r m' Hne Hr). specialize (Hle K m HK). lia.
Qed.

Lemma allSame_uniqueMax l K m :
  allSame l -> uniqueMax l K m -> length l = 1%nat /\ K = 0%nat.
Proof.
  intros Hsame [HK Hlt].
  assert (Hall : forall j, (j < length l)%nat -> j = K).
  { intros j Hj. destruct (decide (j = K)) as [|Hne]; [assumption|].
    destruct (lookup_lt_is_Some_2 l j Hj) as [v Hv].
    specialize (Hlt j v Hne Hv). specialize (Hsame j K v m Hv HK). lia. }
  pose proof (lookup_lt_Some _ _ _ HK) as HKlt.
  assert (K = 0%nat) as -> by (symmetry; apply Hall; lia).
  split; [|reflexivity].
  destruct (decide (length l = 1%nat)) as [|Hlen]; [assumption|].
  assert (1 = 0)%nat by (apply Hall; lia). lia.
Qed.

(** What [getScheduledNode] does once the counters are known. *)
Lemma getScheduledNode_unfold env accesses s c imax :
  touchedBytes env accesses = Some c ->
  canBeOffloaded c = true ->
  max_element (bytes c) = Some imax ->
  getScheduledNode env accesses s
  = if exceedsThreshold env (ft_bytes c) (default 0 (bytes c !! imax)) then
      let '(nodeId, s') := getNextFtNode env s in Some (Z.of_nat nodeId, s')
    else if allEqual (bytes c) then
      let '(nodeId, s') := getNextFtNode env s in Some (Z.of_nat nodeId, s')
    else Some (Z.of_nat imax, s).
Proof.
  intros Ht Hoff Hmax. unfold getScheduledNode.
  rewrite Ht, Hoff, Hmax. reflexivity.
Qed.

(** C2.  For an offloadable task whose counts of touched bytes have their
    only maximum at node [K], and whose first-touch bytes do not exceed
    the tuning multiple of that maximum, [getScheduledNode] returns [K]
    ([getNextFtNode] is taken to yield a node of the cluster). *)
Theorem getScheduledNode_unique_max env accesses s c K m :
  touchedBytes env accesses = Some c ->
  canBeOffloaded c = true ->
  uniqueMax (bytes c) K m ->
  exceedsThreshold env (ft_bytes c) m = false ->
  (forall s0, (fst (getNextFtNode env s0) < clusterSize env)%nat) ->
  exists s', getScheduledNode env accesses s = Some (Z.of_nat K, s').
Proof.
  intros Ht Hoff Huniq Hthr Hrange.
  pose proof (touchedBytes_length _ _ _ Ht) as Hlen.
  assert (Hpos : (0 < length (bytes c))%nat).
  { destruct Huniq as [HK _]. apply lookup_lt_Some in HK. lia. }
  destruct (max_element_defined _ Hpos) as [imax Hmax].
  pose proof (max_element_firstMax _ _ Hmax) as Hfirst.
  destruct (firstMax_uniqueMax _ _ _ _ Hfirst Huniq) as [-> Hval].
  rewrite (getScheduledNode_unfold env accesses s c K Ht Hoff Hmax).
  rewrite Hval. simpl. rewrite Hthr.
  destruct (allEqual (bytes c)) eqn:Heq.
  - apply allEqual_allSame in Heq.
    destruct (allSame_uniqueMax _ _ _ Heq Huniq) as [Hone ->].
    specialize (Hrange s).
    destruct (getNextFtNode env s) as [nodeId s'] eqn:Hnext. simpl in Hrange.
    exists s'. replace nodeId with 0%nat by lia. reflexivity.
  - exists s. reflexivity.
Qed.

Example touchedBytes_mostOnNode2 :
  touchedBytes threeNodes mostOnNode2 = Some (mkCounters [16; 32; 64] 0 true).
Proof. reflexivity. Qed.

Lemma getScheduledNode_unique_max_witness :
  exists s', getScheduledNode threeNodes mostOnNode2 1%nat = Some (2, s').
Proof.
  apply (getScheduledNode_unique_max threeNodes mostOnNode2 1%nat
           (mkCounters [16; 32; 64] 0 true) 2%nat 64).
  - reflexivity.
  - reflexivity.
  - split; [reflexivity|].
    intros [|[|[|j]]] v Hne Hj; simpl in Hj; try discriminate;
      injection Hj as <-; lia.
  - reflexivity.
  - intros s0. change (s0 mod 3 < 3)%nat. apply Nat.mod_upper_bound. lia.
Defined.

Example touchedBytes_tieOnNodes01 :
  touchedBytes threeNodes tieOnNodes01 = Some (mkCounters [5; 5; 3] 0 true).
Proof. reflexivity. Qed.

(** Whatever the round-robin state, the tie goes to node 0. *)
Example getScheduledNode_tieOnNodes01 (s : nat) :
  getScheduledNode threeNodes tieOnNodes01 s = Some (0, s).
Proof. reflexivity. Qed.

(** C3, as stated, fails: nodes 0 and 1 tie for the greatest count and the
    first-touch bytes are below the threshold, the round-robin state
    designates node 1, and [getScheduledNode] returns node 0, the tied
    node of lowest index, and leaves the round-robin state alone. *)
Lemma tie_not_broken_by_round_robin :
  ~ (forall env accesses s c m,
       touchedBytes env accesses = Some c ->
       canBeOffloaded c = true ->
       tiedMax (bytes c) m ->
       exceedsThreshold env (ft_bytes c) m = false ->
       getScheduledNode env accesses s
       = Some (Z.of_nat (fst (getNextFtNode env s)),
               snd (getNextFtNode env s))).
Proof.
  intros H.
  specialize (H threeNodes tieOnNodes01 1%nat (mkCounters [5; 5; 3] 0 true) 5
                eq_refl eq_refl).
  assert (Htie : tiedMax [5; 5; 3] 5).
  { split.
    - intros [|[|[|j]]] v Hj; simpl in Hj; try discriminate;
        injection Hj as <-; lia.
    - exists 0%nat, 1%nat. repeat split. lia. }
  specialize (H Htie eq_refl).
  discriminate H.
Qed.

(** C3, amended.  With the first-touch bytes below the threshold:
    when all nodes hold the same count, [getScheduledNode] returns the
    node that [getNextFtNode] yields; otherwise, tie or not, it returns
    the node of lowest index among those that hold the greatest count and
    leaves the round-robin state alone. *)
Theorem getScheduledNode_ties env accesses s c imax :
  touchedBytes env accesses = Some c ->
  canBeOffloaded c = true ->
  max_element (bytes c) = Some imax ->
  exceedsThreshold env (ft_bytes c) (default 0 (bytes c !! imax)) = false ->
  firstMax (bytes c) imax
  /\ (allSame (bytes c) ->
      getScheduledNode env accesses s
      = Some (Z.of_nat (fst (getNextFtNode env s)), snd (getNextFtNode env s)))
  /\ (~ allSame (bytes c) ->
      getScheduledNode env accesses s = Some (Z.of_nat imax, s)).
Proof.
  intros Ht Hoff Hmax Hthr.
  split; [apply max_element_firstMax; exact Hmax|].
  rewrite (getScheduledNode_unfold env accesses s c imax Ht Hoff Hmax), Hthr.
  split; intros Hsame.
  - apply allEqual_allSame in Hsame. rewrite Hsame.
    destruct (getNextFtNode env s). reflexivity.
  - destruct (allEqual (bytes c)) eqn:Heq; [|reflexivity].
    apply allEqual_allSame in Heq. contradiction.
Qed.

Lemma getScheduledNode_ties_witness :
  firstMax [5; 5; 3] 0
  /\ getScheduledNode threeNodes tieOnNodes01 1%nat = Some (0, 1%nat)
  /\ getScheduledNode threeNodes sameOnAll 1%nat = Some (1, 2%nat).
Proof.
  destruct (getScheduledNode_ties threeNodes tieOnNodes01 1%nat
              (mkCounters [5; 5; 3] 0 true) 0%nat
              eq_refl eq_refl eq_refl eq_refl) as (Hfirst & _ & Hlow).
  split; [exact Hfirst|]. split.
  - apply Hlow. intros Hsame.
    specialize (Hsame 0%nat 2%nat 5 3 eq_refl eq_refl). discriminate Hsame.
  - reflexivity.
Defined.

(** *** The accounting is defined on well-formed input *)

Lemma addBytes_defined i n c :
  (i < length (bytes c))%nat -> is_Some (addBytes i n c).
Proof.
  intros Hi. unfold addBytes.
  destruct (lookup_lt_is_Some_2 _ _ Hi) as [b ->]. eexists. reflexivity.
Qed.

Lemma argoRange_defined env r c :
  (0 < get_block_size env)%N ->
  (forall a, get_homenode env a < Z.of_nat (length (bytes c))) ->
  is_Some (argoRange env r c).
Proof.
  intros Hbs Hhome. unfold argoRange.
  apply argoBlocks_defined; [exact Hbs | exact Hhome | lia].
Qed.

Lemma homeNodesLoop_defined env region homeNodes : forall c,
  (0 < get_block_size env)%N ->
  (forall a, get_homenode env a < Z.of_nat (clusterSize env)) ->
  (forall l, (getNodeIdForLocation env l < clusterSize env)%nat) ->
  length (bytes c) = clusterSize env ->
  is_Some (homeNodesLoop env region homeNodes c).
Proof.
  induction homeNodes as [|entry rest IH]; intros c Hbs Hhome Hnode Hlen;
    cbn [homeNodesLoop].
  - eexists. reflexivity.
  - destruct (is_argo_address env _).
    + destruct (argoRange_defined env (intersect region (entry_region entry)) c
                  Hbs) as [c1 H1]; [rewrite Hlen; exact Hhome|].
      rewrite H1. apply IH; try assumption.
      apply argoRange_length in H1. congruence.
    + destruct (addBytes_defined
                  (getNodeIdForLocation env (Place (getHomeNode entry)))
                  (Z.of_N (getSize (intersect region (entry_region entry)))) c)
        as [c1 H1]; [rewrite Hlen; apply Hnode|].
      rewrite H1. apply IH; try assumption.
      apply addBytes_length in H1. congruence.
Qed.

Lemma accessLambda_defined env access c :
  (0 < get_block_size env)%N ->
  (forall a, get_homenode env a < Z.of_nat (clusterSize env)) ->
  (forall l, (getNodeIdForLocation env l < clusterSize env)%nat) ->
  (getLocation access = None -> isWeak access = true) ->
  length (bytes c) = clusterSize env ->
  is_Some (accessLambda env access c).
Proof.
  intros Hbs Hhome Hnode Hweak Hlen. unfold accessLambda.
  assert (Hloc : exists location,
            match getLocation access with
            | Some l => Some l
            | None => assert (isWeak access) (Some DirectoryMemoryPlace)
            end = Some location).
  { destruct (getLocation access) as [l|]; [eexists; reflexivity|].
    rewrite Hweak by reflexivity. eexists. reflexivity. }
  destruct Hloc as [location ->].
  destruct (negb _ && negb _); [eexists; reflexivity|].
  destruct (isDirectoryMemoryPlace location).
  - destruct (homeNodesLoop_defined env (getAccessRegion access)
                (Directory_find env (getAccessRegion access)) c
                Hbs Hhome Hnode Hlen) as [c1 ->].
    eexists. reflexivity.
  - destruct (is_argo_address env _).
    + destruct (argoRange_defined env (getAccessRegion access) c Hbs)
        as [c1 ->]; [rewrite Hlen; exact Hhome|].
      eexists. reflexivity.
    + destruct (addBytes_defined (getNodeIdForLocation env location)
                  (Z.of_N (getSize (getAccessRegion access))) c)
        as [c1 ->]; [rewrite Hlen; apply Hnode|].
      eexists. reflexivity.
Qed.

Lemma processAllDataAccesses_defined env accesses : forall c,
  wellFormed env accesses ->
  length (bytes c) = clusterSize env ->
  is_Some (processAllDataAccesses env accesses c).
Proof.
  induction accesses as [|access rest IH];
    intros c (Hbs & Hhome & Hnode & Hweak) Hlen; simpl.
  - eexists. reflexivity.
  - apply Forall_cons in Hweak as [Hweak Hrest].
    destruct (accessLambda_defined env access c Hbs Hhome Hnode Hweak Hlen)
      as [[c1 b] H1].
    rewrite H1. destruct b; [|eexists; reflexivity].
    apply IH.
    + repeat split; assumption.
    + apply accessLambda_length in H1. congruence.
Qed.

(** On well-formed input the counters are computed, and on a cluster with
    at least one node [getScheduledNode] returns. *)
Lemma getScheduledNode_defined env accesses s :
  wellFormed env accesses ->
  (0 < clusterSize env)%nat ->
  is_Some (touchedBytes env accesses)
  /\ is_Some (getScheduledNode env accesses s).
Proof.
  intros Hwf Hpos.
  destruct (processAllDataAccesses_defined env accesses (initialCounters env)
              Hwf) as [c Hc]; [simpl; apply length_replicate|].
  fold (touchedBytes env accesses) in Hc.
  split; [eexists; exact Hc|].
  unfold getScheduledNode. rewrite Hc.
  destruct (negb (canBeOffloaded c)); [eexists; reflexivity|].
  destruct (max_element_defined (bytes c)) as [imax ->].
  { rewrite (touchedBytes_length _ _ _ Hc). exact Hpos. }
  destruct (exceedsThreshold env _ _).
  - destruct (getNextFtNode env s). eexists. reflexivity.
  - destruct (allEqual (bytes c)).
    + destruct (getNextFtNode env s). eexists. reflexivity.
    + eexists. reflexivity.
Qed.

(** The blocks of the weak access: 4096 bytes on each node and 6144
    bytes not touched yet, which is more than the tuning factor times the
    greatest count, so the round-robin node is taken. *)
Example touchedBytes_weakArgoAccess :
  touchedBytes argoCluster [weakArgoAccess]
  = Some (mkCounters [4096; 4096] 6144 true).
Proof. reflexivity. Qed.

Example getScheduledNode_weakArgoAccess :
  getScheduledNode argoCluster [weakArgoAccess] 5%nat = Some (1, 6%nat).
Proof. reflexivity. Qed.

(** An access outside cluster and ArgoDSM memory pins the task. *)
Example getScheduledNode_hostAccess :
  getScheduledNode argoCluster [weakArgoAccess; hostAccess] 5%nat
  = Some (-1, 5%nat).
Proof. reflexivity. Qed.

End LocalityProperties.

(** ** DefaultCPUManagerImplementation: taking CPUs out of the idle set *)

Module IdlePoolProperties.
Import IdleCPUs IdlePool.

Example getIdleCPU_twoIdle :
  getIdleCPU fourCPUs twoIdle
  = Some (Some (mkMember (mkCPU 1 11) 0),
          mkState [false; false; false; true] 1 4 false [Lock; Unlock],
          [ResumedComputePlace 11; MonitoringCpuBecomesActive 1]).
Proof. reflexivity. Qed.

Example getIdleCPUs_twoIdle :
  getIdleCPUs fourCPUs 5 twoIdle
  = Some (2, [mkMember (mkCPU 1 11) 0; mkMember (mkCPU 3 13) 1],
          mkState [false; false; false; false] 0 4 false [Lock; Unlock],
          [ResumedComputePlace 11; MonitoringCpuBecomesActive 1;
           ResumedComputePlace 13; MonitoringCpuBecomesActive 3]).
Proof. reflexivity. Qed.

Example getIdleCollaborators_twoIdle :
  getIdleCollaborators fourCPUs [] (Some (mkMember (mkCPU 2 12) 1)) twoIdle
  = Some ([mkMember (mkCPU 3 13) 1],
          mkState [false; true; false; false] 1 4 false [Lock; Unlock],
          [ResumedComputePlace 13; MonitoringCpuBecomesActive 3]).
Proof. reflexivity. Qed.

Example forcefullyResumeCPU_twoIdle :
  forcefullyResumeCPU fourCPUs 3 twoIdle
  = Some (mkState [false; true; false; false] 1 4 false [Lock; Unlock],
          [MonitoringCpuBecomesActive 3; ResumeIdle (mkCPU 3 13)]).
Proof. reflexivity. Qed.

(** *** The bitmap *)

Lemma find_first_None (bits : list bool) :
  find_first bits = None <-> popcount bits = 0%nat.
Proof.
  induction bits as [|b rest IH]; simpl; [tauto|].
  destruct b; simpl.
  - split; [discriminate | lia].
  - rewrite fmap_None. exact IH.
Qed.

Lemma find_first_Some (bits : list bool) (i : nat) :
  find_first bits = Some i ->
  bits !! i = Some true /\ forall j, (j < i)%nat -> bits !! j = Some false.
Proof.
  revert i. induction bits as [|b rest IH]; intros i; simpl; [discriminate|].
  destruct b.
  - intros [= <-]. split; [reflexivity | lia].
  - intros H. apply fmap_Some in H as (k & Hk & ->).
    destruct (IH k Hk) as [Hset Hclear]. split; [exact Hset|].
    intros [|j] Hj; simpl; [reflexivity | apply Hclear; lia].
Qed.

Lemma find_first_lowest (bits : list bool) (i : nat) :
  bits !! i = Some true -> (forall j, (j < i)%nat -> bits !! j = Some false) ->
  find_first bits = Some i.
Proof.
  revert i. induction bits as [|b rest IH]; intros i Hset Hclear;
    [discriminate|].
  destruct i as [|i]; simpl in *.
  - injection Hset as ->. reflexivity.
  - specialize (Hclear 0%nat ltac:(lia)) as Hb. simpl in Hb.
    injection Hb as ->.
    rewrite (IH i Hset); [reflexivity|].
    intros j Hj. apply (Hclear (S j)). lia.
Qed.

Lemma popcount_clear (bits : list bool) (i : nat) :
  bits !! i = Some true ->
  (popcount bits = S (popcount (<[i := false]> bits)))%nat.
Proof.
  revert i. induction bits as [|b rest IH]; intros i; [discriminate|].
  destruct i as [|i]; simpl.
  - intros [= ->]. reflexivity.
  - intros H. rewrite (IH i H). lia.
Qed.

Lemma popcount_set (bits : list bool) (i : nat) :
  bits !! i = Some false ->
  (popcount (<[i := true]> bits) = S (popcount bits))%nat.
Proof.
  revert i. induction bits as [|b rest IH]; intros i; [discriminate|].
  destruct i as [|i]; simpl.
  - intros [= ->]. reflexivity.
  - intros H. rewrite (IH i H). lia.
Qed.

Lemma popcount_set_again (bits : list bool) (i : nat) :
  bits !! i = Some true -> <[i := true]> bits = bits.
Proof. apply list_insert_id. Qed.

Lemma set_then_clear (bits : list bool) (i : nat) :
  bits !! i = Some false -> <[i := false]> (<[i := true]> bits) = bits.
Proof.
  intros H. rewrite list_insert_insert_eq. apply list_insert_id. exact H.
Qed.

(** Once the lowest set position is cleared, [find_next] from it is
    [find_first]. *)
Lemma find_next_after_clear (bits : list bool) (i : nat) :
  find_first bits = Some i ->
  find_next (<[i := false]> bits) i = find_first (<[i := false]> bits).
Proof.
  revert i. induction bits as [|b rest IH]; intros i; simpl; [discriminate|].
  destruct b.
  - intros [= <-]. unfold find_next. simpl. rewrite drop_0.
    destruct (find_first rest); reflexivity.
  - intros H. apply fmap_Some in H as (k & Hk & ->). simpl.
    rewrite <- (IH k Hk). unfold find_next. simpl.
    destruct (find_first (drop (S k) (<[k := false]> rest))); reflexivity.
Qed.

Lemma find_next_Some (bits : list bool) (i j : nat) :
  find_next bits i = Some j ->
  (i < j)%nat /\ bits !! j = Some true.
Proof.
  unfold find_next. intros H. apply fmap_Some in H as (k & Hk & ->).
  apply find_first_Some in Hk as [Hset _].
  rewrite lookup_drop in Hset. split; [lia | exact Hset].
Qed.

Lemma wrap_pred (n : Z) : 0 < n < 2 ^ 64 -> size_t_wrap (n - 1) = n - 1.
Proof. intros H. unfold size_t_wrap. apply Z.mod_small. lia. Qed.

Lemma wrap_sub (n k : Z) : 0 <= k <= n -> n < 2 ^ 64 -> size_t_wrap (n - k) = n - k.
Proof. intros H1 H2. unfold size_t_wrap. apply Z.mod_small. lia. Qed.

(** *** getIdleCPU *)

(** X1.  [getIdleCPU] on a consistent idle set: it returns null exactly when no
    CPU is idle, and then changes neither the bitmap nor the count;
    otherwise it returns the idle CPU of lowest index, clears its bit and
    takes one off the count, so that the idle set stays consistent. *)
Theorem getIdleCPU_lowest cpus st :
  _idleCPUsLock st = false ->
  consistent st ->
  covers cpus (_idleCPUs st) ->
  _numIdleCPUs st < 2 ^ 64 ->
  (popcount (_idleCPUs st) = 0%nat
   /\ getIdleCPU cpus st
      = Some (None,
              mkState (_idleCPUs st) (_numIdleCPUs st) (_cpus_size st) false
                (trace st ++ [Lock; Unlock]),
              []))
  \/ (exists i m st',
        _idleCPUs st !! i = Some true
        /\ (forall j, (j < i)%nat -> _idleCPUs st !! j = Some false)
        /\ cpuAt cpus i = Some m
        /\ getIdleCPU cpus st
           = Some (Some m, st',
                   [ResumedComputePlace (getInstrumentationId (member_cpu m));
                    MonitoringCpuBecomesActive (Z.of_nat i)])
        /\ _idleCPUs st' = <[i := false]> (_idleCPUs st)
        /\ _numIdleCPUs st' = _numIdleCPUs st - 1
        /\ _idleCPUsLock st' = false
        /\ consistent st').
Proof.
  intros Hfree Hcons Hcover Hsmall.
  unfold getIdleCPU, lock. rewrite Hfree. simpl.
  destruct (find_first (_idleCPUs st)) as [i|] eqn:Hfirst.
  - right. destruct (find_first_Some _ _ Hfirst) as [Hset Hclear].
    destruct (Hcover i (lookup_lt_Some _ _ _ Hset)) as [m Hm].
    pose proof (popcount_clear _ _ Hset) as Hpop.
    unfold consistent in Hcons.
    rewrite Hm. unfold assert. simpl.
    replace (0 <? _numIdleCPUs st) with true
      by (symmetry; apply Z.ltb_lt; lia).
    rewrite wrap_pred by lia.
    eexists i, m, _. repeat split; try reflexivity; try assumption.
    unfold consistent, unlock, emit. simpl. lia.
  - left. apply find_first_None in Hfirst. split; [exact Hfirst|].
    unfold unlock, emit. simpl. rewrite <- app_assoc. reflexivity.
Qed.

Lemma twoIdle_ready :
  _idleCPUsLock twoIdle = false /\ consistent twoIdle
  /\ covers fourCPUs (_idleCPUs twoIdle) /\ _numIdleCPUs twoIdle < 2 ^ 64.
Proof.
  split; [reflexivity|]. split; [reflexivity|]. split; [|reflexivity].
  intros [|[|[|[|i]]]] Hi; simpl in Hi; try lia; eexists; reflexivity.
Qed.

Lemma getIdleCPU_lowest_witness :
  exists i m st',
    _idleCPUs twoIdle !! i = Some true
    /\ getIdleCPU fourCPUs twoIdle
       = Some (Some m, st',
               [ResumedComputePlace (getInstrumentationId (member_cpu m));
                MonitoringCpuBecomesActive (Z.of_nat i)])
    /\ consistent st'.
Proof.
  destruct twoIdle_ready as (H1 & H2 & H3 & H4).
  destruct (getIdleCPU_lowest fourCPUs twoIdle H1 H2 H3 H4)
    as [[Hnone _] | (i & m & st' & Hset & _ & _ & Hrun & _ & _ & _ & Hcons)].
  - discriminate Hnone.
  - exists i, m, st'. split; [exact Hset|]. split; [exact Hrun | exact Hcons].
Defined.

(** X2.  [cpuBecomesIdle] followed by [getIdleCPU]: when no CPU of lower or
    equal index is idle, the CPU that has just gone idle is the one handed
    back, and the bitmap and the count are what they were before the two
    calls. *)
Theorem cpuBecomesIdle_getIdleCPU hasAvailableWork cpus cpu m st :
  _idleCPUsLock st = false ->
  hasAvailableWork cpu = false ->
  0 <= cpu_index cpu ->
  (forall j, (j <= Z.to_nat (cpu_index cpu))%nat ->
             _idleCPUs st !! j = Some false) ->
  cpuAt cpus (Z.to_nat (cpu_index cpu)) = Some m ->
  0 <= _numIdleCPUs st ->
  _numIdleCPUs st + 1 <= _cpus_size st < 2 ^ 64 ->
  exists st1 st2 eff,
    cpuBecomesIdle hasAvailableWork (Some cpu) st = Some (true, st1)
    /\ getIdleCPU cpus st1 = Some (Some m, st2, eff)
    /\ _idleCPUs st2 = _idleCPUs st
    /\ _numIdleCPUs st2 = _numIdleCPUs st
    /\ _idleCPUsLock st2 = false.
Proof.
  intros Hfree Hwork Hidx Hclear Hm Hnum Hcount.
  pose proof (Hclear _ (Nat.le_refl _)) as Hbit.
  pose proof (lookup_lt_Some _ _ _ Hbit) as Hlt.
  unfold cpuBecomesIdle, lock. rewrite Hfree, Hwork.
  unfold setIdleBit. simpl.
  replace ((0 <=? cpu_index cpu)
           && (cpu_index cpu <? Z.of_nat (length (_idleCPUs st))))
    with true
    by (symmetry; apply andb_true_intro; split;
        [apply Z.leb_le | apply Z.ltb_lt]; lia).
  unfold incrementNumIdleCPUs, assert. simpl.
  replace (size_t_wrap (_numIdleCPUs st + 1)) with (_numIdleCPUs st + 1)
    by (symmetry; unfold size_t_wrap; apply Z.mod_small; lia).
  replace (_numIdleCPUs st + 1 <=? _cpus_size st) with true
    by (symmetry; apply Z.leb_le; lia).
  eexists _, _, _. split; [reflexivity|].
  unfold getIdleCPU, lock, unlock, emit. simpl.
  rewrite (find_first_lowest (<[Z.to_nat (cpu_index cpu) := true]> (_idleCPUs st))
             (Z.to_nat (cpu_index cpu))).
  - rewrite Hm. unfold assert. simpl.
    replace (0 <? _numIdleCPUs st + 1) with true
      by (symmetry; apply Z.ltb_lt; lia).
    split; [reflexivity|]. simpl.
    split; [apply set_then_clear; exact Hbit|].
    split; [|reflexivity].
    unfold size_t_wrap. rewrite Z.mod_small by lia. lia.
  - apply list_lookup_insert_eq. exact Hlt.
  - intros j Hj. rewrite list_lookup_insert_ne by lia. apply Hclear. lia.
Qed.

Lemma cpuBecomesIdle_getIdleCPU_witness :
  exists st1 st2 eff,
    cpuBecomesIdle (fun _ => false) (Some (mkCPU 0 10)) twoIdle
    = Some (true, st1)
    /\ getIdleCPU fourCPUs st1 = Some (Some (mkMember (mkCPU 0 10) 0), st2, eff)
    /\ _idleCPUs st2 = [false; true; false; true]
    /\ _numIdleCPUs st2 = 2
    /\ _idleCPUsLock st2 = false.
Proof.
  apply (cpuBecomesIdle_getIdleCPU (fun _ => false) fourCPUs (mkCPU 0 10)
           (mkMember (mkCPU 0 10) 0) twoIdle);
    try reflexivity; simpl; try lia.
  intros j Hj. replace j with 0%nat by lia. reflexivity.
Defined.

(** X3.  [cpuBecomesIdle] and the count: marking a CPU that was not idle keeps
    the count equal to the number of set bits; marking a CPU that is idle
    already leaves the bitmap as it is and still adds one to the count. *)
Theorem cpuBecomesIdle_count hasAvailableWork cpu st st' :
  consistent st ->
  cpuBecomesIdle hasAvailableWork (Some cpu) st = Some (true, st') ->
  0 <= _numIdleCPUs st < 2 ^ 64 - 1 ->
  (_idleCPUs st !! Z.to_nat (cpu_index cpu) = Some false -> consistent st')
  /\ (_idleCPUs st !! Z.to_nat (cpu_index cpu) = Some true ->
      _idleCPUs st' = _idleCPUs st
      /\ _numIdleCPUs st' = Z.of_nat (popcount (_idleCPUs st')) + 1).
Proof.
  unfold consistent. intros Hcons Hrun Hnum.
  unfold cpuBecomesIdle, lock in Hrun.
  destruct (_idleCPUsLock st); [discriminate|].
  destruct (hasAvailableWork cpu); [discriminate|].
  unfold setIdleBit in Hrun. simpl in Hrun.
  destruct ((0 <=? cpu_index cpu)
            && (cpu_index cpu <? Z.of_nat (length (_idleCPUs st))));
    [|discriminate].
  unfold incrementNumIdleCPUs, assert in Hrun. simpl in Hrun.
  destruct (size_t_wrap (_numIdleCPUs st + 1) <=? _cpus_size st);
    [|discriminate].
  injection Hrun as <-. simpl.
  replace (size_t_wrap (_numIdleCPUs st + 1)) with (_numIdleCPUs st + 1)
    by (symmetry; unfold size_t_wrap; apply Z.mod_small; lia).
  split; intros Hbit.
  - rewrite (popcount_set _ _ Hbit). lia.
  - rewrite (popcount_set_again _ _ Hbit). split; [reflexivity | lia].
Qed.

Lemma cpuBecomesIdle_count_witness :
  exists st',
    cpuBecomesIdle (fun _ => false) (Some (mkCPU 1 11)) twoIdle
    = Some (true, st')
    /\ _idleCPUs st' = [false; true; false; true]
    /\ _numIdleCPUs st' = 3.
Proof.
  eexists. split; [reflexivity|].
  destruct (cpuBecomesIdle_count (fun _ => false) (mkCPU 1 11) twoIdle _
              eq_refl eq_refl ltac:(simpl; lia)) as [_ H].
  destruct (H eq_refl) as [Hbits Hnum].
  split; [exact Hbits | exact Hnum].
Defined.

(** *** getIdleCPUs *)

Lemma covers_insert cpus (bits : list bool) (i : nat) b :
  covers cpus bits -> covers cpus (<[i := b]> bits).
Proof. unfold covers. intros H j. rewrite length_insert. apply H. Qed.

Lemma getIdleCPUs_loop_spec cpus numCPUs fuel :
  forall bits obtained eff,
    (popcount bits <= fuel)%nat ->
    covers cpus bits ->
    exists bits' more eff',
      getIdleCPUs_loop fuel cpus numCPUs (find_first bits) bits obtained eff
      = Some (bits', obtained ++ more, eff')
      /\ length more
         = Nat.min (Z.to_nat (numCPUs - Z.of_nat (length obtained)))
             (popcount bits)
      /\ (popcount bits = popcount bits' + length more)%nat
      /\ length bits' = length bits.
Proof.
  induction fuel as [|fuel IH]; intros bits obtained eff Hfuel Hcover.
  - assert (Hnone : find_first bits = None) by (apply find_first_None; lia).
    rewrite Hnone. simpl. exists bits, [], eff. rewrite app_nil_r.
    split; [reflexivity|]. simpl. split; [lia|]. split; [lia | reflexivity].
  - destruct (find_first bits) as [i|] eqn:Hfirst; simpl.
    + destruct (Z.of_nat (length obtained) <? numCPUs) eqn:Hmore.
      * apply Z.ltb_lt in Hmore.
        destruct (find_first_Some _ _ Hfirst) as [Hset _].
        destruct (Hcover i (lookup_lt_Some _ _ _ Hset)) as [m Hm].
        rewrite Hm.
        pose proof (popcount_clear _ _ Hset) as Hpop.
        rewrite (find_next_after_clear _ _ Hfirst).
        destruct (IH (<[i := false]> bits) (obtained ++ [m])
                    (eff ++ [ResumedComputePlace
                               (getInstrumentationId (member_cpu m));
                             MonitoringCpuBecomesActive (Z.of_nat i)]))
          as (bits' & more & eff' & Hrun & Hlen & Hcount & Hsize).
        { lia. }
        { apply covers_insert. exact Hcover. }
        exists bits', (m :: more), eff'.
        rewrite Hrun, <- app_assoc. split; [reflexivity|].
        rewrite length_app in Hlen. simpl in *.
        rewrite length_insert in Hsize.
        split; [lia|]. split; [lia | exact Hsize].
      * apply Z.ltb_ge in Hmore.
        exists bits, [], eff. rewrite app_nil_r.
        split; [reflexivity|]. simpl. split; [lia|]. split; [lia | reflexivity].
    + apply find_first_None in Hfirst.
      exists bits, [], eff. rewrite app_nil_r.
      split; [reflexivity|]. simpl. split; [lia|]. split; [lia | reflexivity].
Qed.

Lemma popcount_le_length bits : (popcount bits <= length bits)%nat.
Proof. induction bits as [|[] rest IH]; simpl; lia. Qed.

(** X4.  [getIdleCPUs] on a consistent idle set returns: the number of CPUs it
    hands out is the smaller of the number asked for and the number of
    idle CPUs, as many bits are cleared, and the idle set stays
    consistent. *)
Theorem getIdleCPUs_count cpus numCPUs st :
  _idleCPUsLock st = false ->
  consistent st ->
  covers cpus (_idleCPUs st) ->
  _numIdleCPUs st < 2 ^ 64 ->
  exists obtained st' eff,
    getIdleCPUs cpus numCPUs st
    = Some (Z.of_nat (length obtained), obtained, st', eff)
    /\ length obtained
       = Nat.min (Z.to_nat numCPUs) (popcount (_idleCPUs st))
    /\ (popcount (_idleCPUs st)
        = popcount (_idleCPUs st') + length obtained)%nat
    /\ consistent st'
    /\ _idleCPUsLock st' = false.
Proof.
  intros Hfree Hcons Hcover Hsmall.
  unfold getIdleCPUs, lock. rewrite Hfree. simpl.
  destruct (getIdleCPUs_loop_spec cpus numCPUs (length (_idleCPUs st))
              (_idleCPUs st) [] [] (popcount_le_length _) Hcover)
    as (bits' & more & eff' & Hrun & Hlen & Hcount & _).
  simpl in Hrun, Hlen. rewrite Hrun.
  unfold consistent in *. unfold assert. simpl.
  replace (Z.of_nat (length more) <=? _numIdleCPUs st) with true
    by (symmetry; apply Z.leb_le; lia).
  rewrite wrap_sub by lia.
  eexists more, _, eff'. split; [reflexivity|].
  replace (numCPUs - Z.of_nat 0) with numCPUs in Hlen by lia.
  split; [exact Hlen|]. simpl. split; [exact Hcount|].
  split; [lia | reflexivity].
Qed.

Lemma getIdleCPUs_count_witness :
  exists obtained st' eff,
    getIdleCPUs fourCPUs 1 twoIdle
    = Some (Z.of_nat (length obtained), obtained, st', eff)
    /\ length obtained = 1%nat
    /\ consistent st'.
Proof.
  destruct twoIdle_ready as (H1 & H2 & H3 & H4).
  destruct (getIdleCPUs_count fourCPUs 1 twoIdle H1 H2 H3 H4)
    as (obtained & st' & eff & Hrun & Hlen & _ & Hcons & _).
  exists obtained, st', eff.
  split; [exact Hrun|]. split; [exact Hlen | exact Hcons].
Defined.

(** *** forcefullyResumeCPU *)

(** X6.  [forcefullyResumeCPU] on a consistent idle set: for a CPU that is not
    idle it changes neither the bitmap nor the count and resumes nothing;
    for an idle one it clears the bit, takes one off the count and resumes
    the CPU; either way the idle set stays consistent. *)
Theorem forcefullyResumeCPU_spec cpus (systemCPUId : nat) (st : State)
    (b : bool) :
  _idleCPUsLock st = false ->
  consistent st ->
  covers cpus (_idleCPUs st) ->
  _numIdleCPUs st < 2 ^ 64 ->
  _idleCPUs st !! systemCPUId = Some b ->
  exists st' eff,
    forcefullyResumeCPU cpus systemCPUId st = Some (st', eff)
    /\ _idleCPUs st' = <[systemCPUId := false]> (_idleCPUs st)
    /\ _numIdleCPUs st' = _numIdleCPUs st - (if b then 1 else 0)
    /\ consistent st'
    /\ (b = false -> eff = [])
    /\ (b = true ->
        exists m, cpuAt cpus systemCPUId = Some m
                  /\ eff = [MonitoringCpuBecomesActive (Z.of_nat systemCPUId);
                            ResumeIdle (member_cpu m)]).
Proof.
  intros Hfree Hcons Hcover Hsmall Hbit.
  unfold forcefullyResumeCPU, lock. rewrite Hfree. simpl. rewrite Hbit.
  unfold consistent in *.
  destruct b.
  - pose proof (popcount_clear _ _ Hbit) as Hpop.
    destruct (Hcover systemCPUId (lookup_lt_Some _ _ _ Hbit)) as [m Hm].
    unfold assert. simpl.
    replace (0 <? _numIdleCPUs st) with true
      by (symmetry; apply Z.ltb_lt; lia).
    rewrite Hm, wrap_pred by lia.
    eexists _, _. split; [reflexivity|]. simpl.
    split; [reflexivity|]. split; [reflexivity|]. split; [lia|].
    split; [discriminate|]. intros _. exists m. split; reflexivity.
  - eexists _, _. split; [reflexivity|]. simpl.
    rewrite list_insert_id by exact Hbit.
    split; [reflexivity|]. split; [lia|]. split; [exact Hcons|].
    split; [reflexivity | discriminate].
Qed.

Lemma forcefullyResumeCPU_spec_witness :
  exists st' eff,
    forcefullyResumeCPU fourCPUs 0 twoIdle = Some (st', eff)
    /\ _idleCPUs st' = [false; true; false; true]
    /\ _numIdleCPUs st' = 2
    /\ eff = [].
Proof.
  destruct twoIdle_ready as (H1 & H2 & H3 & H4).
  destruct (forcefullyResumeCPU_spec fourCPUs 0 twoIdle false H1 H2 H3 H4
              eq_refl)
    as (st' & eff & Hrun & Hbits & Hnum & _ & Heff & _).
  exists st', eff. split; [exact Hrun|]. split; [exact Hbits|].
  split; [exact Hnum | exact (Heff eq_refl)].
Defined.

(** *** getIdleCollaborators *)

Lemma getIdleCollaborators_loop_spec cpus groupId fuel :
  forall id bits obtained eff,
    (forall i, id = Some i ->
               bits !! i = Some true /\ (length bits - i <= fuel)%nat) ->
    covers cpus bits ->
    exists bits' more eff',
      getIdleCollaborators_loop fuel cpus groupId id bits obtained eff
      = Some (bits', obtained ++ more, eff')
      /\ Forall (fun m => getGroupId m = groupId) more
      /\ (popcount bits = popcount bits' + length more)%nat
      /\ length bits' = length bits.
Proof.
  induction fuel as [|fuel IH]; intros id bits obtained eff Hid Hcover.
  - destruct id as [i|]; simpl.
    + destruct (Hid i eq_refl) as [Hset Hfuel].
      apply lookup_lt_Some in Hset. lia.
    + exists bits, [], eff. rewrite app_nil_r.
      split; [reflexivity|]. split; [constructor|]. simpl.
      split; [lia | reflexivity].
  - destruct id as [i|]; simpl.
    + destruct (Hid i eq_refl) as [Hset Hfuel].
      pose proof (lookup_lt_Some _ _ _ Hset) as Hlt.
      destruct (Hcover i Hlt) as [m Hm]. rewrite Hm.
      destruct (groupId =? getGroupId m)%N eqn:Hgroup.
      * apply N.eqb_eq in Hgroup.
        destruct (IH (find_next (<[i := false]> bits) i) (<[i := false]> bits)
                    (obtained ++ [m])
                    (eff ++ [ResumedComputePlace
                               (getInstrumentationId (member_cpu m));
                             MonitoringCpuBecomesActive (Z.of_nat i)]))
          as (bits' & more & eff' & Hrun & Hall & Hcount & Hsize).
        { intros j Hj. apply find_next_Some in Hj as [Hij Hjset].
          split; [exact Hjset|]. rewrite length_insert. lia. }
        { apply covers_insert. exact Hcover. }
        exists bits', (m :: more), eff'.
        rewrite Hrun, <- app_assoc. split; [reflexivity|].
        split; [constructor; [symmetry; exact Hgroup | exact Hall]|].
        pose proof (popcount_clear _ _ Hset) as Hpop.
        rewrite length_insert in Hsize. simpl.
        split; [lia | exact Hsize].
      * destruct (IH (find_next bits i) bits obtained eff)
          as (bits' & more & eff' & Hrun & Hall & Hcount & Hsize).
        { intros j Hj. apply find_next_Some in Hj as [Hij Hjset].
          split; [exact Hjset | lia]. }
        { exact Hcover. }
        exists bits', more, eff'. rewrite Hrun.
        split; [reflexivity|]. split; [exact Hall|].
        split; [exact Hcount | exact Hsize].
    + exists bits, [], eff. rewrite app_nil_r.
      split; [reflexivity|]. split; [constructor|]. simpl.
      split; [lia | reflexivity].
Qed.

(** X5.  [getIdleCollaborators] on a consistent idle set returns: every CPU it
    pushes onto the vector belongs to the taskfor group of the calling
    CPU, one bit is cleared per CPU pushed, and the idle set stays
    consistent. *)
Theorem getIdleCollaborators_same_group cpus idleCPUs cpu st :
  _idleCPUsLock st = false ->
  consistent st ->
  covers cpus (_idleCPUs st) ->
  _numIdleCPUs st < 2 ^ 64 ->
  exists more st' eff,
    getIdleCollaborators cpus idleCPUs (Some cpu) st
    = Some (idleCPUs ++ more, st', eff)
    /\ Forall (fun m => getGroupId m = getGroupId cpu) more
    /\ (popcount (_idleCPUs st)
        = popcount (_idleCPUs st') + length more)%nat
    /\ consistent st'
    /\ _idleCPUsLock st' = false.
Proof.
  intros Hfree Hcons Hcover Hsmall.
  unfold getIdleCollaborators, lock. rewrite Hfree. simpl.
  destruct (getIdleCollaborators_loop_spec cpus (getGroupId cpu)
              (length (_idleCPUs st)) (find_first (_idleCPUs st))
              (_idleCPUs st) idleCPUs [])
    as (bits' & more & eff' & Hrun & Hall & Hcount & _).
  { intros i Hi. apply find_first_Some in Hi as [Hset _].
    split; [exact Hset | lia]. }
  { exact Hcover. }
  rewrite Hrun. unfold consistent in *. unfold assert. simpl.
  rewrite length_app.
  replace (length idleCPUs + length more - length idleCPUs)%nat
    with (length more) by lia.
  replace (Z.of_nat (length more) <=? _numIdleCPUs st) with true
    by (symmetry; apply Z.leb_le; lia).
  rewrite wrap_sub by lia.
  eexists more, _, eff'. split; [reflexivity|].
  split; [exact Hall|]. simpl. split; [exact Hcount|].
  split; [lia | reflexivity].
Qed.

Lemma getIdleCollaborators_same_group_witness :
  exists more st' eff,
    getIdleCollaborators fourCPUs [] (Some (mkMember (mkCPU 2 12) 1)) twoIdle
    = Some ([] ++ more, st', eff)
    /\ Forall (fun m => getGroupId m = 1%N) more
    /\ consistent st'.
Proof.
  destruct twoIdle_ready as (H1 & H2 & H3 & H4).
  destruct (getIdleCollaborators_same_group fourCPUs []
              (mkMember (mkCPU 2 12) 1) twoIdle H1 H2 H3 H4)
    as (more & st' & eff & Hrun & Hall & _ & Hcons & _).
  exists more, st', eff.
  split; [exact Hrun|]. split; [exact Hall | exact Hcons].
Defined.

End IdlePoolProperties.

(** ** MPIMessenger: sending messages and raw data *)

Module TransportProperties.
Import Messenger Transport.

Example sendMessage_sample :
  sendMessage sampleEnv rank0 sampleDeliverable 1 true []
  = Some ([mkIncoming (mkStatus 0 1282) [2; 5; 0; 0; 0; 3; 0; 0; 0; 7; 8; 9]],
          [ClusterSendMessage 1; ClusterSendMessage (-1); MarkAsCompleted]).
Proof. reflexivity. Qed.

(** The low byte of a tag made from a type below 256 is that type, when
    the tag bound lets it through. *)
Lemma tag_type_byte (ub x t : Z) :
  Z.land ub 255 = 255 -> 0 <= t < 256 ->
  Z.land (Z.land ub (Z.lor (Z.shiftl x 8) t)) 255 = t.
Proof.
  intros Hub Ht.
  rewrite (Z.land_comm ub), <- Z.land_assoc, Hub.
  rewrite Z.land_lor_distr_l.
  change 255 with (Z.ones 8).
  rewrite !Z.land_ones by lia.
  rewrite Z.shiftl_mul_pow2 by lia.
  rewrite Z.mod_mul by lia.
  rewrite Z.lor_0_l. apply Z.mod_small. change (2 ^ 8) with 256. lia.
Qed.

(** X8.  A message sent by [sendMessage] to a rank with nothing waiting is what
    the next [checkMail] of that rank returns: the type is the one of the
    header and the bytes are the ones sent (the type is a byte other than
    [DATA_RAW], the tag bound lets the type byte through, and the library
    calls succeed). *)
Theorem sendMessage_checkMail env me delv mpiDst block :
  keepsTypeByte env ->
  receiverOk env ->
  0 <= header_type delv < 256 ->
  header_type delv <> DATA_RAW env ->
  mpiDst < _wsize me -> mpiDst <> _wrank me ->
  header_size delv <> 0 ->
  send_ok me = true -> alloc_ok me = true ->
  take (Z.to_nat (sizeof_header me + header_size delv)) (object delv) <> [] ->
  exists mailbox eff tr,
    sendMessage env me delv mpiDst block [] = Some (mailbox, eff)
    /\ checkMail env mailbox
       = Returned
           (Some (mkMessage (header_type delv)
                    (take (Z.to_nat (sizeof_header me + header_size delv))
                       (object delv))))
           [] tr.
Proof.
  intros Hub (Hprobe & Hpok & Hcount & Hmalloc & Hrecv) Htype Hraw Hdst Hself
         Hsize Hsend Halloc Hdata.
  set (data := take _ (object delv)) in *.
  assert (Hrun : exists eff,
            sendMessage env me delv mpiDst block []
            = Some ([mkIncoming (mkStatus (_wrank me) (createTag env delv)) data],
                    eff)).
  { unfold sendMessage, assert.
    replace ((mpiDst <? _wsize me) && negb (mpiDst =? _wrank me)) with true
      by (symmetry; apply andb_true_intro; split;
          [apply Z.ltb_lt; lia | apply negb_true_iff, Z.eqb_neq; lia]).
    replace (header_size delv =? 0) with false
      by (symmetry; apply Z.eqb_neq; lia).
    simpl. rewrite Hsend, Halloc. fold data.
    destruct block; eexists; reflexivity. }
  destruct Hrun as [eff Hrun].
  eexists _, eff, _. split; [exact Hrun|].
  unfold checkMail. rewrite Hpok, Hprobe. simpl.
  unfold createTag. rewrite (tag_type_byte _ _ _ Hub Htype).
  replace (header_type delv =? DATA_RAW env) with false
    by (symmetry; apply Z.eqb_neq; exact Hraw).
  rewrite Hcount, Hmalloc, Hrecv. simpl.
  replace (Z.of_nat (length data) =? 0) with false
    by (symmetry; apply Z.eqb_neq; destruct data; [contradiction | simpl; lia]).
  rewrite !Z.eqb_refl. simpl. reflexivity.
Qed.

Lemma sampleEnv_receiverOk : receiverOk sampleEnv.
Proof. repeat split. Qed.

Lemma sendMessage_checkMail_witness :
  exists mailbox eff tr,
    sendMessage sampleEnv rank0 sampleDeliverable 1 false [] = Some (mailbox, eff)
    /\ checkMail sampleEnv mailbox
       = Returned (Some (mkMessage 2 [2; 5; 0; 0; 0; 3; 0; 0; 0; 7; 8; 9]))
           [] tr.
Proof.
  apply (sendMessage_checkMail sampleEnv rank0 sampleDeliverable 1 false);
    try reflexivity; try (simpl; lia); try discriminate.
  exact sampleEnv_receiverOk.
Defined.



(** X10.  The tag of raw data only keeps the low bits of the message id: with a
    tag bound of [2^k - 1], two message ids that agree modulo [2^(k-8)]
    get the same tag, and [fetchData] for the one matches exactly what
    [fetchData] for the other matches. *)
Theorem getTag_collision env k id1 id2 :
  _mpi_ub_tag env = 2 ^ k - 1 ->
  8 <= k ->
  id1 mod 2 ^ (k - 8) = id2 mod 2 ^ (k - 8) ->
  getTag env id1 = getTag env id2
  /\ forall mpiSrc mailbox,
      fetchData_blocking env mpiSrc id1 mailbox
      = fetchData_blocking env mpiSrc id2 mailbox.
Proof.
  intros Hub Hk Hmod.
  assert (Htag : getTag env id1 = getTag env id2).
  { unfold getTag. rewrite Hub.
    change (2 ^ k - 1) with (Z.pred (2 ^ k)). rewrite <- Z.ones_equiv.
    apply Z.bits_inj'. intros n Hn.
    rewrite !Z.land_spec, !Z.lor_spec, !Z.shiftl_spec by lia.
    destruct (Z.lt_ge_cases n k) as [Hlt | Hge].
    - f_equal. f_equal.
      destruct (Z.lt_ge_cases n 8) as [Hlow | Hhigh].
      + rewrite !Z.testbit_neg_r by lia. reflexivity.
      + rewrite <- (Z.mod_pow2_bits_low id1 (k - 8) (n - 8)) by lia.
        rewrite <- (Z.mod_pow2_bits_low id2 (k - 8) (n - 8)) by lia.
        rewrite Hmod. reflexivity.
    - rewrite Z.ones_spec_high by lia. reflexivity. }
  split; [exact Htag|].
  intros mpiSrc mailbox. unfold fetchData_blocking. rewrite Htag. reflexivity.
Qed.

Lemma getTag_collision_witness :
  getTag smallTags 3 = getTag smallTags 131.
Proof.
  apply (getTag_collision smallTags 15 3 131); [reflexivity | lia | reflexivity].
Defined.

End TransportProperties.

(** ** ExecutionWorkflow::ClusterDataCopyStep: fragments and completion *)

Module DataCopyFragmentsProperties.
Import DataCopy DataCopyFragments.

Example fragments_10_by_4 :
  fragments 4 3 (mkRegion 100 10)
  = Some [mkRegion 100 4; mkRegion 104 4; mkRegion 108 2].
Proof. reflexivity. Qed.

Example fragments_too_few_announced :
  fragments 4 2 (mkRegion 100 10) = None.
Proof. reflexivity. Qed.

Example argo_requiresDataFetch_sample :
  argo_requiresDataFetch holdsNothing argoSample
  = Some (true,
          mkArgoWorld sampleStep (mkArgoFlags false true true) false
            [Acquire;
             StepEffect (UpdateTaskDataAccessLocation 3%N (mkRegion 4096 64)
                           here false);
             StepEffect ReleaseSuccessors;
             StepEffect DeleteThis]).
Proof. reflexivity. Qed.

Lemma fragmentLoop_done fuel maxSize nFragments i start endAddress acc :
  (endAddress <= start)%N ->
  fragmentLoop fuel maxSize nFragments i start endAddress acc = Some acc.
Proof.
  intros H. destruct fuel; simpl;
    (replace (start <? endAddress)%N with false
       by (symmetry; apply N.ltb_ge; exact H)); reflexivity.
Qed.

Lemma fragmentLoop_tiles maxSize nFragments endAddress fuel :
  forall i start acc,
    (0 < maxSize)%N ->
    (start <= endAddress)%N ->
    (N.to_nat (endAddress - start) <= fuel)%nat ->
    (endAddress - start <= (nFragments - i) * maxSize)%N ->
    exists frs,
      fragmentLoop fuel maxSize nFragments i start endAddress acc
      = Some (acc ++ frs)
      /\ tiles maxSize start frs endAddress
      /\ (N.of_nat (length frs) <= nFragments - i)%N.
Proof.
  induction fuel as [|fuel IH]; intros i start acc Hmax Hle Hfuel Hbudget.
  - assert (start = endAddress) as -> by lia.
    exists []. rewrite app_nil_r. simpl. rewrite N.ltb_irrefl.
    split; [reflexivity|]. split; [reflexivity | simpl; lia].
  - simpl. destruct (start <? endAddress)%N eqn:Hlt.
    + apply N.ltb_lt in Hlt.
      assert (Hi : (i < nFragments)%N) by nia.
      unfold assert.
      replace (i <? nFragments)%N with true
        by (symmetry; apply N.ltb_lt; exact Hi).
      destruct (start + maxSize <? endAddress)%N eqn:Hfull.
      * apply N.ltb_lt in Hfull.
        destruct (IH (i + 1)%N (start + maxSize)%N
                    (acc ++ [regionBetween start (start + maxSize)]))
          as (frs & Hrun & Htiles & Hlen); try lia.
        { nia. }
        exists (regionBetween start (start + maxSize) :: frs).
        rewrite Hrun, <- app_assoc. split; [reflexivity|].
        split.
        -- simpl. replace (start + maxSize - start)%N with maxSize by lia.
           split; [reflexivity|]. split; [lia|]. split; [reflexivity|].
           exact Htiles.
        -- simpl length. lia.
      * apply N.ltb_ge in Hfull.
        rewrite fragmentLoop_done by lia.
        exists [regionBetween start endAddress].
        split; [reflexivity|]. split.
        -- simpl. split; [reflexivity|]. split; [lia|].
           split; [intros H; contradiction | lia].
        -- simpl length. lia.
    + apply N.ltb_ge in Hlt. assert (start = endAddress) as -> by lia.
      exists []. rewrite app_nil_r.
      split; [reflexivity|]. split; [reflexivity | simpl; lia].
Qed.

(** The sizes of fragments that lie end to end add up to the distance
    they span. *)
Lemma tiles_total maxSize frs : forall s e,
  tiles maxSize s frs e ->
  (s + fold_right (fun r acc => getSize r + acc) 0 frs = e)%N.
Proof.
  induction frs as [|r rest IH]; intros s e; simpl.
  - intros ->. lia.
  - intros (_ & _ & _ & Hrest). apply IH in Hrest. lia.
Qed.

(** X11.  The constructor of [ClusterDataCopyStep] cuts the region into
    fragments that lie end to end from the start of the region to its end:
    none is empty or longer than the maximal message size, all but the
    last have exactly that size, and their sizes add up to the size of the
    region (the maximal size is positive and the announced number of
    fragments is enough for the region). *)
Theorem fragments_cover_region maxSize nFragments region :
  (0 < maxSize)%N ->
  (getSize region <= nFragments * maxSize)%N ->
  exists frs,
    fragments maxSize nFragments region = Some frs
    /\ tiles maxSize (getStartAddress region) frs (getEndAddress region)
    /\ fold_right (fun r acc => getSize r + acc)%N 0%N frs = getSize region
    /\ (N.of_nat (length frs) <= nFragments)%N.
Proof.
  intros Hmax Hbudget. unfold fragments, getEndAddress.
  destruct (fragmentLoop_tiles maxSize nFragments
              (getStartAddress region + getSize region)
              (N.to_nat (getSize region)) 0 (getStartAddress region) [])
    as (frs & Hrun & Htiles & Hlen); try lia.
  exists frs. split; [exact Hrun|]. split; [exact Htiles|].
  split; [|lia].
  apply tiles_total in Htiles. lia.
Qed.

Lemma fragments_cover_region_witness :
  exists frs,
    fragments 4 3 (mkRegion 100 10) = Some frs
    /\ tiles 4 100 frs 110
    /\ fold_right (fun r acc => getSize r + acc)%N 0%N frs = 10%N
    /\ (N.of_nat (length frs) <= 3)%N.
Proof.
  apply (fragments_cover_region 4 3 (mkRegion 100 10)); simpl; lia.
Defined.

(** *** The completion callback *)

Lemma completions_idle k : forall fs,
  (Z.of_nat k < _nFragments fs < 2 ^ 64) ->
  completions k fs = mkFragmentedStep (_nFragments fs - Z.of_nat k) (world fs).
Proof.
  induction k as [|k IH]; intros [n w] Hn; simpl in *.
  - f_equal. lia.
  - unfold _postcallback. simpl.
    assert (Hw : size_t_wrap (n - 1) = n - 1)
      by (unfold size_t_wrap; apply Z.mod_small; lia).
    rewrite Hw.
    replace (n - 1 =? 0) with false by (symmetry; apply Z.eqb_neq; lia).
    rewrite IH by (simpl; lia). simpl. f_equal. lia.
Qed.

(** X12.  With [n] fragments awaited, the first [n - 1] runs of [_postcallback]
    leave the step untouched and the [n]-th one updates the location of
    the access, releases the successors and deletes the step. *)
Theorem postcallback_fires_at_last_fragment fs (n : nat) :
  _nFragments fs = Z.of_nat n ->
  (0 < n)%nat ->
  Z.of_nat n < 2 ^ 64 ->
  (forall k, (k < n)%nat -> world (completions k fs) = world fs)
  /\ world (completions n fs)
     = let s := step (world fs) in
       mkWorld s false
         (trace (world fs)
          ++ [UpdateTaskDataAccessLocation (_task s) (_fullRegion s)
                (_targetMemoryPlace s) (_isTaskwait s);
              ReleaseSuccessors; DeleteThis])
         (pending (world fs)).
Proof.
  intros Hn Hpos Hsmall. split.
  - intros k Hk. rewrite completions_idle by lia. reflexivity.
  - destruct n as [|n]; [lia|].
    replace (S n) with (n + 1)%nat by lia.
    assert (Hsplit : forall a b fs0,
              completions (a + b) fs0 = completions b (completions a fs0)).
    { induction a as [|a IHa]; intros b fs0; simpl; [reflexivity | apply IHa]. }
    rewrite Hsplit.
    rewrite (completions_idle n fs) by lia.
    simpl. unfold _postcallback. simpl.
    replace (_nFragments fs - Z.of_nat n - 1) with 0 by lia.
    simpl. unfold delete_this, emit. simpl.
    rewrite <- !app_assoc. reflexivity.
Qed.

Lemma postcallback_fires_at_last_fragment_witness :
  world (completions 2 threeAwaited) = sampleWorld
  /\ world (completions 3 threeAwaited)
     = mkWorld sampleStep false
         [UpdateTaskDataAccessLocation 3%N (mkRegion 4096 64) here false;
          ReleaseSuccessors; DeleteThis]
         [samplePending].
Proof.
  destruct (postcallback_fires_at_last_fragment threeAwaited 3 eq_refl
              ltac:(lia) ltac:(lia)) as [Hidle Hfire].
  split; [apply Hidle; lia | exact Hfire].
Defined.

(** With no fragment awaited (an empty region), the count wraps around
    on the first run of [_postcallback], which does nothing. *)
Example postcallback_empty_region :
  _postcallback (mkFragmentedStep 0 sampleWorld)
  = mkFragmentedStep (2 ^ 64 - 1) sampleWorld.
Proof. reflexivity. Qed.

(** *** The queue of pending transfers *)

Lemma pendingMatch_covered s dt :
  clusterTarget dt ->
  pendingMatch s dt
  = Some (if covered s dt then addCompletionCallback (callbackOf s) dt else dt,
          covered s dt).
Proof.
  unfold clusterTarget, pendingMatch, covered, callbackOf, assert.
  intros ->. simpl. destruct (_ && _); reflexivity.
Qed.

Lemma checkPendingQueue_no_match s q :
  Forall clusterTarget q ->
  Forall (fun dt => covered s dt = false) q ->
  checkPendingQueue (pendingMatch s) q = Some (q, false).
Proof.
  induction q as [|dt rest IH]; intros Hc Hn; simpl; [reflexivity|].
  apply Forall_cons in Hc as [Hdt Hc]. apply Forall_cons in Hn as [Hno Hn].
  rewrite (pendingMatch_covered s dt Hdt), Hno, (IH Hc Hn). reflexivity.
Qed.

Lemma checkPendingQueue_first_match s pre dt post :
  Forall clusterTarget pre ->
  Forall (fun dt => covered s dt = false) pre ->
  clusterTarget dt ->
  covered s dt = true ->
  checkPendingQueue (pendingMatch s) (pre ++ dt :: post)
  = Some (pre ++ addCompletionCallback (callbackOf s) dt :: post, true).
Proof.
  induction pre as [|x pre IH]; intros Hc Hn Hdt Hyes; simpl.
  - rewrite (pendingMatch_covered s dt Hdt), Hyes. reflexivity.
  - apply Forall_cons in Hc as [Hx Hc]. apply Forall_cons in Hn as [Hno Hn].
    rewrite (pendingMatch_covered s x Hx), Hno, (IH Hc Hn Hdt Hyes).
    reflexivity.
Qed.

(** X13.  When a transfer is needed and the write ID is not held locally,
    [requiresDataFetch] looks at the pending transfers in order.  If none
    of them goes to this node and covers the region, it returns true (the
    caller has to fetch) and changes nothing.  Otherwise it returns false,
    attaches its callback to the first such transfer and to no other, and
    the step stays alive with its successors not released. *)
Theorem requiresDataFetch_pending_queue env w :
  requiresDataFetch_asserts env (step w) = true ->
  _needsTransfer (step w) = true ->
  checkWriteIDLocal env (_writeID (step w)) (_fullRegion (step w)) = false ->
  (Forall clusterTarget (pending w) ->
   Forall (fun dt => covered (step w) dt = false) (pending w) ->
   requiresDataFetch env w = Some (true, w))
  /\ (forall pre dt post,
        pending w = pre ++ dt :: post ->
        Forall clusterTarget pre ->
        Forall (fun dt => covered (step w) dt = false) pre ->
        clusterTarget dt ->
        covered (step w) dt = true ->
        requiresDataFetch env w
        = Some (false,
                mkWorld (step w) (alive w) (trace w)
                  (pre ++ addCompletionCallback (callbackOf (step w)) dt
                       :: post))).
Proof.
  intros Hpre Hneeds Hlocal.
  unfold requiresDataFetch_asserts in Hpre.
  apply andb_prop in Hpre as [Hpre H4].
  apply andb_prop in Hpre as [Hpre H3].
  apply andb_prop in Hpre as [H1 H2].
  unfold requiresDataFetch, assert.
  rewrite H1, H2, H3, H4, Hneeds, Hlocal. simpl.
  split.
  - intros Hc Hn. rewrite (checkPendingQueue_no_match _ _ Hc Hn).
    destruct w; reflexivity.
  - intros pre dt post -> Hc Hn Hdt Hyes.
    rewrite (checkPendingQueue_first_match _ _ _ _ Hc Hn Hdt Hyes).
    reflexivity.
Qed.

Lemma requiresDataFetch_pending_queue_witness :
  requiresDataFetch holdsNothing sampleWorld
  = Some (false,
          mkWorld sampleStep true []
            ([] ++ addCompletionCallback (callbackOf sampleStep) samplePending
                :: [])).
Proof.
  destruct (requiresDataFetch_pending_queue holdsNothing sampleWorld
              eq_refl eq_refl eq_refl) as [_ H].
  apply (H [] samplePending []); try reflexivity; constructor.
Defined.

(** *** ArgoAcquireStep *)

(** X14.  Whatever its path, [ArgoAcquireStep::requiresDataFetch] releases the
    successors of the step and deletes the step before it returns, and it
    returns true exactly when a transfer is needed and the write ID is not
    held locally; in that case it has acquired the region (wholly or
    selectively) and updated the location of the access first. *)
Theorem argo_requiresDataFetch_always_deletes env w :
  requiresDataFetch_asserts env (argo_step w) = true ->
  exists added w',
    argo_requiresDataFetch env w
    = Some (_needsTransfer (argo_step w)
            && negb (checkWriteIDLocal env (_writeID (argo_step w))
                       (_fullRegion (argo_step w))),
            w')
    /\ argo_alive w' = false
    /\ argo_trace w'
       = argo_trace w ++ added
              ++ [StepEffect ReleaseSuccessors; StepEffect DeleteThis]
    /\ ~ In (StepEffect DeleteThis) added
    /\ ~ In (StepEffect ReleaseSuccessors) added.
Proof.
  intros Hpre.
  unfold requiresDataFetch_asserts in Hpre.
  apply andb_prop in Hpre as [Hpre H4].
  apply andb_prop in Hpre as [Hpre H3].
  apply andb_prop in Hpre as [H1 H2].
  unfold argo_requiresDataFetch, assert.
  rewrite H1, H2, H3, H4.
  destruct (_needsTransfer (argo_step w)); simpl.
  - destruct (checkWriteIDLocal env _ _); simpl.
    + eexists [], _. split; [reflexivity|]. simpl.
      split; [reflexivity|]. rewrite <- app_assoc.
      split; [reflexivity|]. split; intros [].
    + destruct ((_simpleDependencies (argo_flags w) || _fullAcquire (argo_flags w))
                && negb (_fullAcquireDone (argo_flags w))); simpl;
        eexists [_; _], _; (split; [reflexivity|]); simpl;
        (split; [reflexivity|]); rewrite <- !app_assoc; simpl;
        (split; [reflexivity|]);
        split; intros [H | [H | []]]; discriminate H.
  - destruct (negb (_isTaskwait (argo_step w)) && negb (_isWeak (argo_step w)));
      simpl.
    + eexists [_], _. split; [reflexivity|]. simpl.
      split; [reflexivity|]. rewrite <- !app_assoc. simpl.
      split; [reflexivity|]. split; intros [H | []]; discriminate H.
    + eexists [], _. split; [reflexivity|]. simpl.
      split; [reflexivity|]. rewrite <- app_assoc.
      split; [reflexivity|]. split; intros [].
Qed.

Lemma argo_requiresDataFetch_always_deletes_witness :
  exists added w',
    argo_requiresDataFetch holdsNothing argoSample = Some (true, w')
    /\ argo_alive w' = false
    /\ argo_trace w'
       = [] ++ added ++ [StepEffect ReleaseSuccessors; StepEffect DeleteThis].
Proof.
  destruct (argo_requiresDataFetch_always_deletes holdsNothing argoSample
              eq_refl) as (added & w' & Hrun & Halive & Htrace & _).
  exists added, w'. split; [exact Hrun|]. split; [exact Halive | exact Htrace].
Defined.

End DataCopyFragmentsProperties.

(** ** ExecutionWorkflow::HostExecutionStep::start, on every path *)

Module HostExecutionPathsProperties.
Import HostExecution HostExecutionPaths.

(** X15.  On every path of [start]: the body of the task is run once when the
    call comes from a worker thread with a CPU and a task and the task has
    code, and not at all otherwise; the step survives the call exactly
    when the task was handed back to the scheduler; and when it does not,
    the last things done are the combination of the reductions (on the CPU
    of the thread after the body, if a body was run), the release of the
    successors and the deletion of the step. *)
Theorem start_body_once currentThread tableSize cpuAfter w :
  exists added,
    trace (start currentThread tableSize cpuAfter w) = trace w ++ added
    /\ length (List.filter isBody added)
       = (if negb (outsideWorkerContext currentThread) && hasCode (_task w)
          then 1%nat else 0%nat)
    /\ alive (start currentThread tableSize cpuAfter w)
       = outsideWorkerContext currentThread && alive w
    /\ (outsideWorkerContext currentThread = false ->
        exists before cpu,
          currentCPU currentThread = Some cpu
          /\ added
             = before
               ++ [CombineTaskReductions (task_id (_task w))
                     (if hasCode (_task w) then cpuAfter else cpu);
                   ReleaseSuccessors; DeleteThis]).
Proof.
  unfold start.
  destruct (outsideWorkerContext currentThread) eqn:Hout.
  - eexists. unfold requeue, Scheduler_addReadyTask, emits. simpl.
    rewrite <- app_assoc. split; [reflexivity|]. simpl.
    split; [reflexivity|]. split; [reflexivity | discriminate].
  - destruct currentThread as [[tid [cpu|] task]|]; try discriminate Hout.
    simpl. unfold runInline, emits, delete_this.
    destruct (hasCode (_task w)); simpl.
    + destruct (0 <? tableSize)%N; simpl; rewrite <- !app_assoc; simpl;
        eexists; (split; [reflexivity|]); simpl;
        (split; [reflexivity|]); (split; [reflexivity|]); intros _;
        eexists _, cpu; (split; [reflexivity|]).
      * instantiate (1 := [_; _; _; _; _; _; _; _; _; _; _]). reflexivity.
      * instantiate (1 := [_; _; _; _; _; _; _; _; _; _]). reflexivity.
    + rewrite <- !app_assoc. simpl.
      eexists. split; [reflexivity|]. simpl.
      split; [reflexivity|]. split; [reflexivity|]. intros _.
      eexists [_; _; _], cpu. split; reflexivity.
Qed.

Lemma start_body_once_witness :
  exists added before cpu,
    trace (start (Some busyThread) 0 1%N sampleWorld) = [] ++ added
    /\ length (List.filter isBody added) = 1%nat
    /\ added = before ++ [CombineTaskReductions 4%N cpu; ReleaseSuccessors;
                          DeleteThis].
Proof.
  destruct (start_body_once (Some busyThread) 0 1%N sampleWorld)
    as (added & Htrace & Hbody & _ & Hlast).
  destruct (Hlast eq_refl) as (before & cpu & _ & Hadded).
  exists added, before, 1%N. split; [exact Htrace|].
  split; [exact Hbody | exact Hadded].
Defined.

End HostExecutionPathsProperties.

(** ** The event counter API: increments and series of calls *)

Module EventCounterSeriesProperties.
Import EventCounter EventCounterSeries.

Example calls_zeroTwice :
  calls quietRuntime zeroTwice lastEvent
  = Some (mkWorld (mkTask 6%N 0 true)
            [UnregisterTaskDataAccesses 6%N None LocalDependencyData;
             TaskFinished 6%N None;
             DisposeTask 6%N;
             UnregisterTaskDataAccesses 6%N None LocalDependencyData;
             TaskFinished 6%N None]).
Proof. reflexivity. Qed.

(** An increment followed by a decrement of the same amount on a task
    with events pending leaves the task as it was and triggers nothing. *)
Theorem increase_then_decrease rt ctx w n :
  releaseCount (task w) <> 0 ->
  exists w1,
    nanos6_increase_current_task_event_counter (Some w) n = Some w1
    /\ nanos6_decrease_task_event_counter rt ctx (Some w1) n = Some w.
Proof.
  intros Hpending.
  unfold nanos6_increase_current_task_event_counter,
    nanos6_decrease_task_event_counter.
  destruct (n =? 0) eqn:Hn.
  - exists w. split; reflexivity.
  - eexists. split; [reflexivity|].
    unfold decreaseReleaseCount, increaseReleaseCount. simpl.
    replace (releaseCount (task w) + n - n) with (releaseCount (task w)) by lia.
    replace (releaseCount (task w) =? 0) with false
      by (symmetry; apply Z.eqb_neq; exact Hpending).
    destruct w as [[id c r] tr]. reflexivity.
Qed.

Lemma increase_then_decrease_witness :
  exists w1,
    nanos6_increase_current_task_event_counter (Some lastEvent) 3 = Some w1
    /\ nanos6_decrease_task_event_counter quietRuntime workerOnCPU0 (Some w1) 3
       = Some lastEvent.
Proof.
  apply (increase_then_decrease quietRuntime workerOnCPU0 lastEvent 3).
  discriminate.
Defined.

Lemma countOf_app kind es es' :
  countOf kind (es ++ es') = (countOf kind es + countOf kind es')%nat.
Proof. unfold countOf. rewrite List.filter_app, length_app. reflexivity. Qed.

(** One call: what it adds to the trace and what becomes of the
    [released] flag. *)
Lemma call_step rt ctx c w w' :
  keepsReleased rt ->
  match c with
  | Increase n => nanos6_increase_current_task_event_counter (Some w) n
  | Decrease n => nanos6_decrease_task_event_counter rt ctx (Some w) n
  end = Some w' ->
  exists added,
    trace w' = trace w ++ added
    /\ (released (task w) = true ->
        countOf isDispose added = 0%nat /\ released (task w') = true)
    /\ (countOf isDispose added <= 1)%nat
    /\ (countOf isDispose added = 1%nat -> released (task w') = true).
Proof.
  intros Hkeep. destruct c as [n | n].
  - unfold nanos6_increase_current_task_event_counter.
    destruct (n =? 0); intros [= <-]; exists []; rewrite app_nil_r;
      (split; [reflexivity|]); unfold countOf; simpl; repeat split; auto; discriminate.
  - unfold nanos6_decrease_task_event_counter.
    destruct (n =? 0).
    { intros [= <-]. exists []. rewrite app_nil_r.
      split; [reflexivity|]. unfold countOf; simpl. repeat split; auto; discriminate. }
    unfold decreaseReleaseCount. simpl.
    destruct (releaseCount (task w) - n =? 0).
    + destruct (selectCPU ctx) as [cpu|]; [|discriminate].
      set (t1 := mkTask (task_id (task w)) (releaseCount (task w) - n)
                   (released (task w))).
      set (t3 := afterTaskFinished rt (afterUnregister rt t1)).
      assert (Hrel : released (task w) = true -> released t3 = true).
      { intros H. apply Hkeep. apply Hkeep. exact H. }
      unfold markAsReleased. destruct (released t3) eqn:Ht3.
      * intros [= <-]. simpl. rewrite <- app_assoc. eexists.
        split; [reflexivity|]. unfold countOf; simpl.
        repeat split; auto; discriminate.
      * intros [= <-]. simpl. rewrite <- !app_assoc. eexists.
        split; [reflexivity|]. unfold countOf; simpl.
        split; [intros H; specialize (Hrel H); discriminate|].
        split; [lia | reflexivity].
    + intros [= <-]. exists []. rewrite app_nil_r.
      split; [reflexivity|]. unfold countOf; simpl. repeat split; auto; discriminate.
Qed.

(** X16.  Over any series of increments and decrements of the event counter of
    a task, from any threads, the task is disposed at most once, and not
    at all if it was released before, provided the runtime calls in
    between never clear the [released] flag. *)
Theorem disposed_at_most_once rt cs : forall w w',
  keepsReleased rt ->
  calls rt cs w = Some w' ->
  exists added,
    trace w' = trace w ++ added
    /\ (countOf isDispose added <= 1)%nat
    /\ (released (task w) = true -> countOf isDispose added = 0%nat).
Proof.
  induction cs as [|[ctx c] rest IH]; intros w w' Hkeep; simpl.
  - intros [= <-]. exists []. rewrite app_nil_r.
    split; [reflexivity|]. unfold countOf. simpl. split; [lia | reflexivity].
  - destruct (match c with
              | Increase n => _
              | Decrease n => _
              end) as [w1|] eqn:Hcall; [|discriminate].
    intros Hrest.
    destruct (call_step rt ctx c w w1 Hkeep Hcall)
      as (a1 & Htr1 & Hrel1 & Hle1 & Hone1).
    destruct (IH w1 w' Hkeep Hrest) as (a2 & Htr2 & Hle2 & Hrel2).
    exists (a1 ++ a2). rewrite Htr2, Htr1, <- app_assoc.
    split; [reflexivity|]. rewrite countOf_app. split.
    + destruct (countOf isDispose a1) as [|[|k]] eqn:Hc1; [lia| |lia].
      rewrite (Hrel2 (Hone1 eq_refl)). lia.
    + intros Hrel. destruct (Hrel1 Hrel) as [-> Hrel']. rewrite (Hrel2 Hrel').
      reflexivity.
Qed.

Lemma quietRuntime_keepsReleased : keepsReleased quietRuntime.
Proof. intros t H. split; exact H. Qed.

Lemma disposed_at_most_once_witness :
  exists added,
    [UnregisterTaskDataAccesses 6%N None LocalDependencyData;
     TaskFinished 6%N None;
     DisposeTask 6%N;
     UnregisterTaskDataAccesses 6%N None LocalDependencyData;
     TaskFinished 6%N None]
    = [] ++ added
    /\ (countOf isDispose added <= 1)%nat.
Proof.
  destruct (disposed_at_most_once quietRuntime zeroTwice lastEvent _
              quietRuntime_keepsReleased eq_refl) as (added & Htr & Hle & _).
  exists added. split; [exact Htr | exact Hle].
Defined.

End EventCounterSeriesProperties.

(** ** CPUDependencyData::TaskAndRegion: the order *)

Module TaskAndRegionOrder.
Import TaskAndRegion.

(** X23.  [operator<] is a strict order that [operator>] mirrors: no value is
    below itself, the relation is transitive, and [a > b] is [b < a]. *)
Theorem lt_strict_order :
  (forall a, lt a a = false)
  /\ (forall a b c, lt a b = true -> lt b c = true -> lt a c = true)
  /\ (forall a b, gt a b = lt b a).
Proof.
  unfold lt, gt. repeat split.
  - intros a. rewrite !N.ltb_irrefl. reflexivity.
  - intros a b c.
    destruct (N.ltb_spec (_task a) (_task b)),
             (N.ltb_spec (_task b) (_task a)),
             (N.ltb_spec (_task b) (_task c)),
             (N.ltb_spec (_task c) (_task b)),
             (N.ltb_spec (_task a) (_task c)),
             (N.ltb_spec (_task c) (_task a));
      try lia; try discriminate; try reflexivity.
    rewrite !N.ltb_lt. lia.
Qed.

Lemma lt_strict_order_witness :
  lt (mk 1%N (mkRegion 0 8)) (mk 2%N (mkRegion 0 8)) = true
  /\ lt (mk 2%N (mkRegion 0 8)) (mk 2%N (mkRegion 64 8)) = true
  /\ lt (mk 1%N (mkRegion 0 8)) (mk 2%N (mkRegion 64 8)) = true.
Proof.
  destruct lt_strict_order as (_ & Htrans & _).
  split; [reflexivity|]. split; [reflexivity|].
  apply (Htrans _ (mk 2%N (mkRegion 0 8))); reflexivity.
Defined.

(** X24.  Values that [operator==] holds equal are not ordered by [operator<]
    or [operator>]; the converse fails for two regions of the same task
    that start at the same address and differ in size: neither is below
    the other and they are not equal. *)
Theorem eq_and_order a b :
  (op_eq a b = true -> lt a b = false /\ gt a b = false)
  /\ (_task a = _task b ->
      getStartAddress (_region a) = getStartAddress (_region b) ->
      getSize (_region a) <> getSize (_region b) ->
      lt a b = false /\ gt a b = false /\ op_eq a b = false).
Proof.
  unfold op_eq, lt, gt, Region.eqb. split.
  - intros H. apply andb_prop in H as [Ht Hr].
    apply andb_prop in Hr as [Hs _].
    apply N.eqb_eq in Ht, Hs. rewrite Ht, Hs, !N.ltb_irrefl.
    split; reflexivity.
  - intros Ht Hs Hsz. rewrite Ht, Hs, !N.ltb_irrefl, !N.eqb_refl.
    replace (getSize (_region a) =? getSize (_region b))%N with false
      by (symmetry; apply N.eqb_neq; exact Hsz).
    repeat split.
Qed.

Lemma eq_and_order_witness :
  lt (mk 7%N (mkRegion 4096 64)) (mk 7%N (mkRegion 4096 128)) = false
  /\ gt (mk 7%N (mkRegion 4096 64)) (mk 7%N (mkRegion 4096 128)) = false
  /\ op_eq (mk 7%N (mkRegion 4096 64)) (mk 7%N (mkRegion 4096 128)) = false.
Proof.
  destruct (eq_and_order (mk 7%N (mkRegion 4096 64)) (mk 7%N (mkRegion 4096 128)))
    as [_ H].
  apply H; [reflexivity | reflexivity | discriminate].
Defined.

End TaskAndRegionOrder.

(** ** ClusterDataLinkStep: series of calls *)

Module DataLinkSeriesProperties.
Import DataLink DataLinkSeries.

Example linkRegions_readTwice :
  option_map (fun w => (_bytesToLink (step w), alive w, length (trace w)))
    (linkRegions node0 readTwice startedWorld)
  = Some (2 ^ 64 - 16, true, 6%nat).
Proof. reflexivity. Qed.

Lemma wrap_wrap_minus (a b c : Z) :
  size_t_wrap (size_t_wrap (a - b) - c) = size_t_wrap (a - (b + c)).
Proof.
  unfold size_t_wrap. rewrite Zminus_mod_idemp_l. f_equal. lia.
Qed.

(** X21.  What [start] does when it returns: it logs, hands the data link to
    the execution step and releases the successors, in this order; when
    the access is both read and write satisfied it then deletes the step
    and leaves the count alone; otherwise the step stays, [_started] is
    set and the size of the region is taken off the count. *)
Theorem start_outcome w w' :
  start w = Some w' ->
  exists location,
    sourceLocation (step w) = Some location
    /\ let s := step w in
       let link := AddDataLink (mkSatInfo (_region s) location (_read s)
                                  (_write s) (_writeID s)
                                  (_namespacePredecessor s)) in
       if _read s && _write s then
         w' = mkWorld s false
                (trace w ++ [LogMessage location; link; ReleaseSuccessors;
                             DeleteThis])
       else
         w' = mkWorld
                (set_started true
                   (set_bytesToLink
                      (size_t_wrap (_bytesToLink s
                                    - Z.of_N (getSize (_region s)))) s))
                (alive w)
                (trace w ++ [LogMessage location; link; ReleaseSuccessors]).
Proof.
  unfold start, assert. intros H.
  destruct (bool_decide _); [|discriminate].
  destruct (sourceLocation (step w)) as [loc|]; [|discriminate].
  destruct (length (_successors (step w)) =? 1)%nat; [|discriminate].
  destruct (_successors (step w)) as [|[|] ?]; try discriminate.
  exists loc. split; [reflexivity|]. simpl.
  destruct (_read (step w) && _write (step w)); injection H as <-;
    unfold delete_this, emit, update_step; simpl;
    rewrite <- !app_assoc; reflexivity.
Qed.

Lemma start_outcome_witness :
  exists location,
    sourceLocation sampleStep = Some location
    /\ startedWorld
       = mkWorld (set_started true (set_bytesToLink (size_t_wrap (16 - 8))
                                      sampleStep))
           true
           ([] ++ [LogMessage location;
                   AddDataLink (mkSatInfo (mkRegion 4096 8) location true false
                                  5%N None);
                   ReleaseSuccessors]).
Proof.
  exact (start_outcome sampleWorld startedWorld eq_refl).
Defined.

Lemma linkRegion_facts currentNode w region location writeID read write w' :
  linkRegion currentNode w region location writeID read write = Some w' ->
  _bytesToLink (step w')
  = size_t_wrap (_bytesToLink (step w) - linked region read write)
  /\ length (trace w') = S (length (trace w))
  /\ alive w' = alive w
  /\ _started (step w') = _started (step w).
Proof.
  intros Hrun.
  pose proof (DataLinkProperties.linkRegion_Some_asserts _ _ _ _ _ _ _ _ Hrun)
    as Hpre.
  destruct (DataLinkProperties.linkRegion_locked_spec currentNode w region
              location writeID read write Hpre)
    as (idx & w1 & _ & Hlocked & Hbytes & Hstarted & Halive & Htrace).
  pose proof (DataLinkProperties.linkRegion_of_locked _ _ _ _ _ _ _ _ _ Hlocked)
    as Hrun'.
  rewrite Hrun in Hrun'. injection Hrun' as ->.
  split; [exact Hbytes|]. split; [|split; assumption].
  rewrite Htrace, length_app. simpl. lia.
Qed.

(** X22.  Over any series of calls of [linkRegion] that return, the count ends
    at the initial count minus the bytes of all the calls, in [size_t]
    arithmetic and whatever their order; one satisfiability message is
    sent per call; and the step is neither deleted nor started by them. *)
Theorem linkRegions_total currentNode cs : forall w w',
  0 <= _bytesToLink (step w) < 2 ^ 64 ->
  linkRegions currentNode cs w = Some w' ->
  _bytesToLink (step w') = size_t_wrap (_bytesToLink (step w) - linkedBy cs)
  /\ length (trace w') = (length (trace w) + length cs)%nat
  /\ alive w' = alive w
  /\ _started (step w') = _started (step w).
Proof.
  induction cs as [|c rest IH]; intros w w' Hrange; simpl.
  - intros [= <-]. unfold linkedBy. simpl.
    rewrite Z.sub_0_r. unfold size_t_wrap. rewrite Z.mod_small by exact Hrange.
    repeat split. lia.
  - destruct (linkRegion currentNode w (call_region c) (call_location c)
                (call_writeID c) (call_read c) (call_write c))
      as [w1|] eqn:Hcall; [|discriminate].
    intros Hrest.
    destruct (linkRegion_facts _ _ _ _ _ _ _ _ Hcall)
      as (Hb1 & Ht1 & Ha1 & Hs1).
    destruct (IH w1 w') as (Hb & Ht & Ha & Hs); [|exact Hrest|].
    { rewrite Hb1. unfold size_t_wrap. apply Z.mod_pos_bound. lia. }
    split.
    + rewrite Hb, Hb1. apply wrap_wrap_minus.
    + split; [lia|]. split; congruence.
Qed.

Lemma linkRegions_total_witness :
  exists w',
    linkRegions node0 readTwice startedWorld = Some w'
    /\ _bytesToLink (step w') = size_t_wrap (8 - 24)
    /\ alive w' = true.
Proof.
  eexists. split; [reflexivity|].
  destruct (linkRegions_total node0 readTwice startedWorld _
              ltac:(simpl; lia) eq_refl) as (Hb & _ & Ha & _).
  split; [exact Hb | exact Ha].
Defined.

End DataLinkSeriesProperties.

(** ** ClusterLocalityScheduler::getScheduledNode: totals and pinned tasks *)

Module LocalityTotalsProperties.
Import Locality LocalityTotals.

Example touchedBytes_placedArgoAccesses :
  touchedBytes argoCluster placedArgoAccesses
  = Some (mkCounters [0; 4096] 6144 true).
Proof. reflexivity. Qed.

(** *** Every byte is accounted for *)

(** The unwrapped total of the counters. *)
Local Abbreviation total c := (sumZ (bytes c) + ft_bytes c).

Lemma wrap_add_r (a b : Z) : size_t_wrap (a + size_t_wrap b) = size_t_wrap (a + b).
Proof. unfold size_t_wrap. apply Zplus_mod_idemp_r. Qed.

Lemma wrap_shift (a b n : Z) :
  size_t_wrap a = size_t_wrap b -> size_t_wrap (a + n) = size_t_wrap (b + n).
Proof.
  unfold size_t_wrap. intros H.
  rewrite (Zplus_mod a), H, <- Zplus_mod. reflexivity.
Qed.

Lemma sumZ_insert (l : list Z) (i : nat) (b v : Z) :
  l !! i = Some b -> sumZ (<[i := v]> l) = sumZ l - b + v.
Proof.
  revert i. induction l as [|x rest IH]; intros i; [discriminate|].
  destruct i as [|i]; simpl.
  - intros [= ->]. lia.
  - intros H. rewrite (IH i H). lia.
Qed.

Lemma sumZ_replicate_0 n : sumZ (replicate n 0) = 0.
Proof. induction n as [|n IH]; simpl; [reflexivity | exact IH]. Qed.

Lemma addBytes_total i n c c' :
  addBytes i n c = Some c' ->
  size_t_wrap (total c') = size_t_wrap (total c + n)
  /\ canBeOffloaded c' = canBeOffloaded c.
Proof.
  unfold addBytes. destruct (bytes c !! i) as [b|] eqn:Hb; [|discriminate].
  intros [= <-]. simpl. split; [|reflexivity].
  rewrite (sumZ_insert _ _ _ _ Hb).
  replace (sumZ (bytes c) - b + size_t_wrap (b + n) + ft_bytes c)
    with ((sumZ (bytes c) - b + ft_bytes c) + size_t_wrap (b + n)) by lia.
  rewrite wrap_add_r. f_equal. lia.
Qed.

Lemma addFtBytes_total n c :
  size_t_wrap (total (addFtBytes n c)) = size_t_wrap (total c + n)
  /\ canBeOffloaded (addFtBytes n c) = canBeOffloaded c.
Proof.
  unfold addFtBytes. simpl. split; [|reflexivity].
  rewrite wrap_add_r. f_equal. lia.
Qed.

Lemma argoBlocks_total env endAddress fuel : forall addr c c',
  argoBlocks env fuel addr endAddress c = Some c' ->
  size_t_wrap (total c') = size_t_wrap (total c + Z.of_N (endAddress - addr))
  /\ canBeOffloaded c' = canBeOffloaded c.
Proof.
  induction fuel as [|fuel IH]; intros addr c c'; simpl.
  - destruct (addr <? endAddress)%N eqn:Hlt; [discriminate|].
    apply N.ltb_ge in Hlt. intros [= <-].
    split; [f_equal; lia | reflexivity].
  - destruct (addr <? endAddress)%N eqn:Hlt.
    + apply N.ltb_lt in Hlt.
      set (chunk := Z.of_N (if (addr + get_block_size env <? endAddress)%N
                            then get_block_size env
                            else (endAddress - addr)%N)).
      assert (Hsplit : chunk + Z.of_N (endAddress - (addr + get_block_size env))
                       = Z.of_N (endAddress - addr)).
      { unfold chunk.
        destruct (addr + get_block_size env <? endAddress)%N eqn:Hfull;
          [apply N.ltb_lt in Hfull | apply N.ltb_ge in Hfull]; lia. }
      destruct (if get_homenode env addr <? 0 then Some (addFtBytes chunk c)
                else addBytes (Z.to_nat (get_homenode env addr)) chunk c)
        as [c1|] eqn:Hstep; [|discriminate].
      assert (H1 : size_t_wrap (total c1) = size_t_wrap (total c + chunk)
                   /\ canBeOffloaded c1 = canBeOffloaded c).
      { destruct (get_homenode env addr <? 0).
        - injection Hstep as <-. apply addFtBytes_total.
        - eapply addBytes_total. exact Hstep. }
      destruct H1 as [Ht1 Hc1].
      intros Hrest. destruct (IH _ _ _ Hrest) as [Ht Hc].
      split; [|congruence].
      rewrite Ht.
      rewrite (wrap_shift _ _ _ Ht1). f_equal. lia.
    + apply N.ltb_ge in Hlt. intros [= <-].
      split; [f_equal; lia | reflexivity].
Qed.

(** X17.  The loop over the blocks of an ArgoDSM range drops no byte and counts
    none twice: what it adds to the counts of the nodes and to the
    first-touch bytes is, in [size_t] arithmetic, the size of the range,
    whatever the block size and the homes of the blocks. *)
Theorem argoRange_accounts_every_byte env r c c' :
  argoRange env r c = Some c' ->
  accounted c'
  = size_t_wrap (sumZ (bytes c) + ft_bytes c + Z.of_N (getSize r)).
Proof.
  unfold argoRange, accounted. intros H.
  apply argoBlocks_total in H as [Ht _]. rewrite Ht. f_equal. lia.
Qed.

Lemma argoRange_accounts_every_byte_witness :
  exists c',
    argoRange argoCluster (mkRegion 69632 10240)
      (mkCounters [0; 0] 0 true) = Some c'
    /\ accounted c' = size_t_wrap (0 + 0 + 10240).
Proof.
  eexists. split; [reflexivity|].
  apply (argoRange_accounts_every_byte argoCluster (mkRegion 69632 10240)
           (mkCounters [0; 0] 0 true)).
  reflexivity.
Defined.

Lemma accessLambda_stops env access c c' :
  accessLambda env access c = Some (c', false) -> canBeOffloaded c' = false.
Proof.
  unfold accessLambda.
  destruct (match getLocation access with
            | Some l => Some l
            | None => assert (isWeak access) (Some DirectoryMemoryPlace)
            end) as [location|]; [|discriminate].
  destruct (negb _ && negb _).
  - intros [= <-]. reflexivity.
  - destruct (if isDirectoryMemoryPlace location then _ else _);
      discriminate.
Qed.

Lemma accessLambda_placed_total env access c c' :
  placed access ->
  accessLambda env access c = Some (c', true) ->
  size_t_wrap (total c')
  = size_t_wrap (total c + Z.of_N (getSize (getAccessRegion access)))
  /\ canBeOffloaded c' = canBeOffloaded c.
Proof.
  intros [m Hloc]. unfold accessLambda. rewrite Hloc.
  destruct (negb _ && negb _); [discriminate|]. simpl.
  destruct (is_argo_address env _).
  - destruct (argoRange env _ c) as [c1|] eqn:H1; [|discriminate].
    intros [= <-]. unfold argoRange in H1.
    apply argoBlocks_total in H1 as [Ht Hc]. split; [|exact Hc].
    rewrite Ht. f_equal. lia.
  - destruct (addBytes _ _ c) as [c1|] eqn:H1; [|discriminate].
    intros [= <-]. eapply addBytes_total. exact H1.
Qed.

Lemma processAllDataAccesses_placed_total env accesses : forall c c',
  Forall placed accesses ->
  processAllDataAccesses env accesses c = Some c' ->
  canBeOffloaded c' = true ->
  size_t_wrap (total c') = size_t_wrap (total c + totalSize accesses).
Proof.
  induction accesses as [|access rest IH]; intros c c' Hplaced; simpl.
  - intros [= <-] _. f_equal. lia.
  - apply Forall_cons in Hplaced as [Hp Hrest].
    destruct (accessLambda env access c) as [[c1 b]|] eqn:H1; [|discriminate].
    destruct b.
    + destruct (accessLambda_placed_total _ _ _ _ Hp H1) as [Ht1 _].
      intros Hrun Hoff. rewrite (IH _ _ Hrest Hrun Hoff).
      rewrite (wrap_shift _ _ _ Ht1). f_equal. unfold totalSize. simpl. lia.
    + intros [= <-] Hoff. apply accessLambda_stops in H1. congruence.
Qed.

(** X18.  For an offloadable task all of whose accesses have a known location,
    the counts of the nodes and the first-touch bytes add up, in [size_t]
    arithmetic, to the bytes of its accesses. *)
Theorem touchedBytes_accounts_every_byte env accesses c :
  Forall placed accesses ->
  touchedBytes env accesses = Some c ->
  canBeOffloaded c = true ->
  accounted c = size_t_wrap (totalSize accesses).
Proof.
  unfold touchedBytes, accounted. intros Hplaced Hrun Hoff.
  rewrite (processAllDataAccesses_placed_total _ _ _ _ Hplaced Hrun Hoff).
  simpl. rewrite sumZ_replicate_0. f_equal.
Qed.

Lemma touchedBytes_accounts_every_byte_witness :
  accounted (mkCounters [0; 4096] 6144 true) = size_t_wrap 10240.
Proof.
  apply (touchedBytes_accounts_every_byte argoCluster placedArgoAccesses).
  - repeat constructor; eexists; reflexivity.
  - reflexivity.
  - reflexivity.
Defined.

(** *** Pinned tasks and the range of the result *)

Lemma processAllDataAccesses_pinned env accesses : forall c,
  wellFormed env accesses ->
  length (bytes c) = clusterSize env ->
  Exists (outsideCluster env) accesses ->
  exists c',
    processAllDataAccesses env accesses c = Some c'
    /\ canBeOffloaded c' = false.
Proof.
  induction accesses as [|access rest IH];
    intros c (Hbs & Hhome & Hnode & Hweak) Hlen Hex.
  - inversion Hex.
  - apply Forall_cons in Hweak as [Hweak Hrest]. simpl.
    destruct (LocalityProperties.accessLambda_defined env access c Hbs Hhome
                Hnode Hweak Hlen) as [[c1 b] H1].
    rewrite H1. destruct b.
    + apply Exists_cons in Hex as [[Hcm Hargo] | Hex].
      * exfalso. unfold accessLambda in H1.
        destruct (match getLocation access with
                  | Some l => Some l
                  | None => assert (isWeak access) (Some DirectoryMemoryPlace)
                  end); [|discriminate].
        rewrite Hcm, Hargo in H1. discriminate H1.
      * apply IH; [repeat split; assumption | | exact Hex].
        apply LocalityProperties.accessLambda_length in H1. congruence.
    + exists c1. split; [reflexivity|].
      eapply accessLambda_stops. exact H1.
Qed.

(** X19.  A task with an access that lies in neither cluster nor ArgoDSM memory
    is not offloaded: [getScheduledNode] returns
    [nanos6_cluster_no_offload] and does not advance the round-robin
    state, whatever the other accesses are. *)
Theorem getScheduledNode_pinned env accesses s :
  wellFormed env accesses ->
  Exists (outsideCluster env) accesses ->
  getScheduledNode env accesses s = Some (nanos6_cluster_no_offload env, s).
Proof.
  intros Hwf Hex. unfold getScheduledNode, touchedBytes.
  destruct (processAllDataAccesses_pinned env accesses (initialCounters env)
              Hwf) as (c & -> & ->); [simpl; apply length_replicate | exact Hex|].
  reflexivity.
Qed.

Lemma twoNodes_wellFormed accesses :
  Forall (fun access => getLocation access = None -> isWeak access = true)
    accesses ->
  wellFormed twoNodes accesses.
Proof.
  intros H. split; [reflexivity|]. split.
  - intros a. simpl.
    destruct (a <? 69632)%N; [lia|]. destruct (a <? 73728)%N; lia.
  - split; [|exact H].
    intros [|m]; [simpl; lia|].
    change (Z.to_nat (getIndex m) mod 2 < 2)%nat.
    apply Nat.mod_upper_bound. lia.
Qed.

Lemma getScheduledNode_pinned_witness :
  getScheduledNode twoNodes withPrivateAccess 7%nat = Some (-1, 7%nat).
Proof.
  apply (getScheduledNode_pinned twoNodes withPrivateAccess 7%nat).
  - apply twoNodes_wellFormed. repeat constructor; discriminate.
  - apply Exists_cons_tl, Exists_cons_hd. split; reflexivity.
Defined.

(** X20.  On well-formed input and a cluster with at least one node,
    [getScheduledNode] returns either [nanos6_cluster_no_offload] or the
    index of a node of the cluster (given that [getNextFtNode] yields
    one). *)
Theorem getScheduledNode_in_cluster env accesses s :
  wellFormed env accesses ->
  (0 < clusterSize env)%nat ->
  (forall s0, (fst (getNextFtNode env s0) < clusterSize env)%nat) ->
  exists node s',
    getScheduledNode env accesses s = Some (node, s')
    /\ (node = nanos6_cluster_no_offload env
        \/ 0 <= node < Z.of_nat (clusterSize env)).
Proof.
  intros Hwf Hpos Hrange.
  destruct (LocalityProperties.getScheduledNode_defined env accesses s Hwf Hpos)
    as [[c Hc] _].
  unfold getScheduledNode. rewrite Hc.
  destruct (negb (canBeOffloaded c)).
  { eexists _, _. split; [reflexivity | left; reflexivity]. }
  pose proof (LocalityProperties.touchedBytes_length _ _ _ Hc) as Hlen.
  destruct (LocalityProperties.max_element_defined (bytes c)) as [imax Hmax];
    [lia|].
  rewrite Hmax.
  assert (Himax : (imax < clusterSize env)%nat).
  { apply LocalityProperties.max_element_firstMax in Hmax as (m & Hm & _).
    apply lookup_lt_Some in Hm. lia. }
  pose proof (Hrange s) as Hs.
  destruct (exceedsThreshold env _ _).
  - destruct (getNextFtNode env s) as [n s']. simpl in Hs.
    eexists _, _. split; [reflexivity | right; lia].
  - destruct (allEqual (bytes c)).
    + destruct (getNextFtNode env s) as [n s']. simpl in Hs.
      eexists _, _. split; [reflexivity | right; lia].
    + eexists _, _. split; [reflexivity | right; lia].
Qed.

Lemma getScheduledNode_in_cluster_witness :
  exists node s',
    getScheduledNode twoNodes [accessOn 1 4096 64] 7%nat = Some (node, s')
    /\ (node = -1 \/ 0 <= node < 2).
Proof.
  apply (getScheduledNode_in_cluster twoNodes [accessOn 1 4096 64] 7%nat).
  - apply twoNodes_wellFormed. repeat constructor; discriminate.
  - simpl. lia.
  - intros s0. change (s0 mod 2 < 2)%nat. apply Nat.mod_upper_bound. lia.
Defined.

End LocalityTotalsProperties.

(** ** DefaultCPUManagerImplementation::preinitialize: indices and groups *)

Module PreinitializeProperties.
Import Preinitialize.

Example initializeCPUs_sixCPUs :
  option_map (fun st => (fields st, _systemToVirtualCPUId st))
    (initializeCPUs allButCPU2 5 2 sixCPUs)
  = Some ([(0, Some 0%nat); (1, Some 0%nat); (noIndex, None);
           (2, Some 1%nat); (3, Some 1%nat); (4, Some 2%nat)],
          [0; 1; noIndex; 2; 3; 4]).
Proof. reflexivity. Qed.

Lemma succ_div_mod (per u : nat) :
  (0 < per)%nat ->
  (S u / per = if (S (u mod per) =? per) then S (u / per) else u / per)%nat
  /\ (S u mod per = if (S (u mod per) =? per) then 0 else S (u mod per))%nat.
Proof.
  intros Hper.
  pose proof (Nat.div_mod_eq u per) as Heq.
  pose proof (Nat.mod_upper_bound u per ltac:(lia)) as Hlt.
  destruct (S (u mod per) =? per)%nat eqn:Hcase.
  - apply Nat.eqb_eq in Hcase. split.
    + symmetry. apply (Nat.div_unique _ _ _ 0%nat); nia.
    + symmetry. apply (Nat.mod_unique _ _ (S (u / per))); nia.
  - apply Nat.eqb_neq in Hcase. split.
    + symmetry. apply (Nat.div_unique _ _ _ (S (u mod per))); nia.
    + symmetry. apply (Nat.mod_unique _ _ (u / per)); nia.
Qed.

Lemma visit_available cpuMask perGroup cpu st :
  (0 < perGroup)%nat ->
  invariant perGroup st ->
  cpuMask (getSystemCPUId cpu) = true ->
  (virtualCPUId st < length (_cpus st))%nat ->
  (getSystemCPUId cpu < length (_systemToVirtualCPUId st))%nat ->
  exists st',
    visit cpuMask perGroup cpu st = Some st'
    /\ invariant perGroup st'
    /\ virtualCPUId st' = S (virtualCPUId st)
    /\ fields st'
       = fields st ++ [(Z.of_nat (virtualCPUId st),
                        Some (virtualCPUId st / perGroup)%nat)]
    /\ _cpus st' = <[virtualCPUId st := Some cpu]> (_cpus st)
    /\ length (_systemToVirtualCPUId st') = length (_systemToVirtualCPUId st).
Proof.
  intros Hper Hinv Hmask Hv Hsys. unfold visit. rewrite Hmask.
  replace ((virtualCPUId st <? length (_cpus st))%nat
           && (getSystemCPUId cpu <? length (_systemToVirtualCPUId st))%nat)
    with true
    by (symmetry; apply andb_true_intro; split; apply Nat.ltb_lt; assumption).
  destruct Hinv as [(Hv0 & Hc & Hg) | (u & Hvu & Hg & Hc)].
  - rewrite Hc, Hg, Hv0.
    replace (perGroup =? 0)%nat with false
      by (symmetry; apply Nat.eqb_neq; lia).
    eexists. split; [reflexivity|]. simpl.
    rewrite Nat.Div0.div_0_l.
    split; [|repeat split; apply length_insert].
    right. exists 0%nat. rewrite Nat.Div0.div_0_l, Nat.Div0.mod_0_l.
    split; [reflexivity|]. split; [reflexivity | simpl; lia].
  - destruct (succ_div_mod perGroup u Hper) as [Hdiv Hmod].
    pose proof (Nat.mod_upper_bound u perGroup ltac:(lia)) as Hlt.
    rewrite Hc, Hg, Hvu.
    destruct (perGroup - 1 - u mod perGroup =? 0)%nat eqn:Hzero.
    + apply Nat.eqb_eq in Hzero.
      replace (S (u mod perGroup) =? perGroup)%nat with true in Hdiv, Hmod
        by (symmetry; apply Nat.eqb_eq; lia).
      eexists. split; [reflexivity|]. simpl. rewrite Hdiv.
      split; [|repeat split; apply length_insert].
      right. exists (S u). rewrite Hdiv, Hmod.
      split; [reflexivity|]. split; [reflexivity | simpl; lia].
    + apply Nat.eqb_neq in Hzero.
      replace (S (u mod perGroup) =? perGroup)%nat with false in Hdiv, Hmod
        by (symmetry; apply Nat.eqb_neq; lia).
      eexists. split; [reflexivity|]. simpl. rewrite Hdiv.
      split; [|repeat split; apply length_insert].
      right. exists (S u). rewrite Hdiv, Hmod.
      split; [reflexivity|]. split; [reflexivity | simpl; lia].
Qed.

Lemma visitAll_fields cpuMask perGroup cpus : forall st,
  (0 < perGroup)%nat ->
  invariant perGroup st ->
  (virtualCPUId st + length (availableCPUs cpuMask cpus)
   <= length (_cpus st))%nat ->
  Forall (fun cpu => (getSystemCPUId cpu
                      < length (_systemToVirtualCPUId st))%nat) cpus ->
  exists st',
    visitAll cpuMask perGroup cpus st = Some st'
    /\ fields st'
       = fields st ++ expectedFields cpuMask perGroup cpus (virtualCPUId st)
    /\ virtualCPUId st'
       = (virtualCPUId st + length (availableCPUs cpuMask cpus))%nat
    /\ (forall k cpu,
          availableCPUs cpuMask cpus !! k = Some cpu ->
          _cpus st' !! (virtualCPUId st + k)%nat = Some (Some cpu))
    /\ (forall j, (j < virtualCPUId st)%nat -> _cpus st' !! j = _cpus st !! j).
Proof.
  induction cpus as [|cpu rest IH]; intros st Hper Hinv Hroom Hsys; simpl.
  - exists st. rewrite app_nil_r, Nat.add_0_r.
    split; [reflexivity|]. split; [reflexivity|]. split; [reflexivity|].
    split; [intros k c H; discriminate H | reflexivity].
  - apply Forall_cons in Hsys as [Hsys Hrest].
    unfold availableCPUs in *. simpl in Hroom |- *.
    destruct (cpuMask (getSystemCPUId cpu)) eqn:Hmask.
    + simpl in Hroom.
      destruct (visit_available cpuMask perGroup cpu st Hper Hinv Hmask
                  ltac:(lia) Hsys)
        as (st1 & Hvisit & Hinv1 & Hv1 & Hf1 & Hc1 & Hl1).
      rewrite Hvisit.
      destruct (IH st1 Hper Hinv1) as (st' & Hrun & Hf & Hv & Hcpus & Hold).
      { rewrite Hv1, Hc1, length_insert. lia. }
      { rewrite Hl1. exact Hrest. }
      exists st'. split; [exact Hrun|].
      split; [rewrite Hf, Hf1, Hv1, <- app_assoc; reflexivity|].
      split; [rewrite Hv, Hv1; simpl; lia|].
      split.
      * intros [|k] c Hk; simpl in Hk.
        -- injection Hk as <-. rewrite Nat.add_0_r.
           rewrite Hold by lia. rewrite Hc1.
           apply list_lookup_insert_eq. lia.
        -- replace (virtualCPUId st + S k)%nat
             with (virtualCPUId st1 + k)%nat by lia.
           apply Hcpus. exact Hk.
      * intros j Hj. rewrite Hold by lia. rewrite Hc1.
        apply list_lookup_insert_ne. lia.
    + unfold visit. rewrite Hmask.
      replace (getSystemCPUId cpu <? length (_systemToVirtualCPUId st))%nat
        with true by (symmetry; apply Nat.ltb_lt; exact Hsys).
      destruct (IH (mkLoopState (numCPUsPerTaskforGroup st) (groupId st)
                      (virtualCPUId st) (_cpus st)
                      (<[getSystemCPUId cpu := noIndex]>
                         (_systemToVirtualCPUId st))
                      (fields st ++ [(noIndex, None)])) Hper)
        as (st' & Hrun & Hf & Hv & Hcpus & Hold).
      { exact Hinv. }
      { exact Hroom. }
      { simpl. rewrite length_insert. exact Hrest. }
      exists st'. split; [exact Hrun|]. simpl in *.
      split; [rewrite Hf, <- app_assoc; reflexivity|].
      split; [exact Hv|]. split; [exact Hcpus | exact Hold].
Qed.

Lemma maxSystemCPUId_bound cpus : forall acc,
  (acc <= maxSystemCPUId cpus acc)%nat
  /\ Forall (fun cpu => (getSystemCPUId cpu <= maxSystemCPUId cpus acc)%nat)
       cpus.
Proof.
  induction cpus as [|cpu rest IH]; intros acc; simpl.
  - split; [lia | constructor].
  - destruct (IH (if (acc <? getSystemCPUId cpu)%nat
                  then getSystemCPUId cpu else acc)) as [Hacc Hall].
    destruct (acc <? getSystemCPUId cpu)%nat eqn:Hlt;
      [apply Nat.ltb_lt in Hlt | apply Nat.ltb_ge in Hlt].
    + split; [lia|]. constructor; [lia | exact Hall].
    + split; [lia|]. constructor; [lia | exact Hall].
Qed.

(** X7.  [preinitialize] numbers the CPUs of the mask in the order of the list
    and puts the CPU numbered [k] into taskfor group
    [k / (numAvailableCPUs / numTaskforGroups)]; the CPUs outside the mask
    get the index [(unsigned int) ~0UL] and no group; and [_cpus] holds
    the CPU numbered [k] at position [k].  (The mask counts as many CPUs
    as the list has in it and the quotient is not zero.) *)
Theorem initializeCPUs_indices_and_groups cpuMask numAvailableCPUs
    numTaskforGroups cpus :
  numTaskforGroups <> 0%nat ->
  (0 < numAvailableCPUs / numTaskforGroups)%nat ->
  length (availableCPUs cpuMask cpus) = numAvailableCPUs ->
  exists st,
    initializeCPUs cpuMask numAvailableCPUs numTaskforGroups cpus = Some st
    /\ fields st
       = expectedFields cpuMask (numAvailableCPUs / numTaskforGroups) cpus 0
    /\ forall k cpu,
         availableCPUs cpuMask cpus !! k = Some cpu ->
         _cpus st !! k = Some (Some cpu).
Proof.
  intros Hgroups Hper Hcount. unfold initializeCPUs, assert.
  replace (numTaskforGroups =? 0)%nat with false
    by (symmetry; apply Nat.eqb_neq; exact Hgroups).
  replace (0 <? numAvailableCPUs / numTaskforGroups)%nat with true
    by (symmetry; apply Nat.ltb_lt; exact Hper).
  destruct (visitAll_fields cpuMask (numAvailableCPUs / numTaskforGroups) cpus
              (mkLoopState (numAvailableCPUs / numTaskforGroups) 0 0
                 (replicate numAvailableCPUs None)
                 (replicate (S (maxSystemCPUId cpus 0)) 0) []) Hper)
    as (st & Hrun & Hf & Hv & Hcpus & _).
  { left. repeat split. }
  { simpl. rewrite length_replicate. lia. }
  { simpl. rewrite length_replicate.
    destruct (maxSystemCPUId_bound cpus 0) as [_ Hall].
    eapply Forall_impl; [exact Hall|]. simpl. intros cpu H. lia. }
  rewrite Hrun. simpl in Hv. rewrite Hv, Hcount, Nat.eqb_refl.
  exists st. split; [reflexivity|]. split; [exact Hf | exact Hcpus].
Qed.

Lemma initializeCPUs_indices_and_groups_witness :
  exists st,
    initializeCPUs allButCPU2 5 2 sixCPUs = Some st
    /\ fields st
       = [(0, Some 0%nat); (1, Some 0%nat); (noIndex, None);
          (2, Some 1%nat); (3, Some 1%nat); (4, Some 2%nat)].
Proof.
  destruct (initializeCPUs_indices_and_groups allButCPU2 5 2 sixCPUs
              ltac:(discriminate) ltac:(simpl; lia) eq_refl)
    as (st & Hrun & Hf & _).
  exists st. split; [exact Hrun | exact Hf].
Defined.

End PreinitializeProperties.
